(** * DJI frame geotagging: a shallow embedding of [frame_geotag_dji.py]

    The script geotags frames extracted from a DJI video with the GPS
    samples of the matching .SRT subtitle track.  This development embeds
    the Python functions of the script as Rocq functions and proves the
    properties of the specification about them.

    Layout:
    - [Py]: the part of the Python runtime the script relies on
      (exceptions, binary64 floats, [int()], [round()], [float()],
      [re.search] for the four patterns of the script);
    - the functions of the script, under their source names, the
      [piexif] and [pysrt] functions being parameters;
    - a folder for the examples;
    - the file names and the first part of the run, which lists the
      folder, [os.listdir] being a parameter;
    - facts about the runtime, then the theorems on the coordinate
      encoder, the telemetry parser, the temporal aligner, the metadata
      writer and the run;
    - the theorems on the file names, the folder, the files written and
      the values at the edges. *)

From Stdlib Require Import ZArith QArith Qround Qabs Qpower Lia Lqa.
From Stdlib Require Import List String Ascii Bool Sorted Permutation.
From Stdlib Require OrderedTypeEx.
From Stdlib Require Qcanon.
From Stdlib Require Import SpecFloat.
Import ListNotations.

Local Open Scope Z_scope.

(* ===================================================================== *)
(** * The Python runtime                                                   *)
(* ===================================================================== *)

Module Py.

(** ** Exceptions *)

Inductive exn : Type :=
| ValueError
| OverflowError
| ZeroDivisionError
| AttributeError
| IndexError
| OtherError (name : string).

Inductive result (A : Type) : Type :=
| Ok (a : A)
| Raise (e : exn).
Arguments Ok {A} a.
Arguments Raise {A} e.

Definition bind {A B : Type} (r : result A) (k : A -> result B) : result B :=
  match r with
  | Ok a => k a
  | Raise e => Raise e
  end.

Notation "x <- r ;; k" := (bind r (fun x => k))
  (at level 61, r at next level, right associativity).
Notation "' p <- r ;; k" := (bind r (fun p => k))
  (at level 61, p pattern, r at next level, right associativity).

(** ** Floats

    A Python [float] is an IEEE 754 binary64 number.  A finite float is
    modelled by the rational it denotes; every arithmetic operation
    returns the exact result rounded to the nearest binary64 number, ties
    to even, which is how IEEE 754 defines it.  The sign of a zero is not
    tracked: the script never divides by a zero without raising and never
    inspects the sign of a zero. *)

Inductive float : Type :=
| Fin (q : Q)
| Inf (neg : bool)
| NaN.

Definition pow2 (e : Z) : Q := (2 # 1) ^ e.

(** [ilog2 q] is the integer part of the base-2 logarithm of [|q|]. *)
Definition ilog2 (q : Q) : Z :=
  let k := Z.log2 (Z.abs (Qnum q)) - Z.log2 (Zpos (Qden q)) in
  if Qle_bool (pow2 k) (Qabs q) then k else k - 1.

(** Nearest integer, ties to even. *)
Definition rne (q : Q) : Z :=
  let f := Qfloor q in
  match (q - inject_Z f ?= 1 # 2)%Q with
  | Lt => f
  | Gt => f + 1
  | Eq => if Z.even f then f else f + 1
  end.

(** Exponent of the last place of the binary64 format at [q]: 53 bits of
    precision, smallest exponent -1074. *)
Definition b64_exp (q : Q) : Z := Z.max (ilog2 q - 52) (-1074).

(** Rounding of an exact result to binary64. *)
Definition b64_round (q : Q) : float :=
  if Qeq_bool q 0 then Fin 0
  else
    let e := b64_exp q in
    let v := (inject_Z (rne (q / pow2 e)) * pow2 e)%Q in
    if Qle_bool (pow2 1024) (Qabs v) then Inf (negb (Qle_bool 0 q))
    else Fin (Qred v).

(** The rationals that are binary64 numbers. *)
Definition is_b64 (q : Q) : Prop :=
  exists m e : Z,
    Z.abs m < 2 ^ 53 /\ -1074 <= e /\
    (q == inject_Z m * pow2 e)%Q /\ (Qabs q < pow2 1024)%Q.

Definition valid_float (x : float) : Prop :=
  match x with
  | Fin q => is_b64 q
  | _ => True
  end.

(** [float(n)] for an [int]: rounds, and raises when out of range. *)
Definition float_of_int (n : Z) : result float :=
  match b64_round (inject_Z n) with
  | Inf _ => Raise OverflowError
  | x => Ok x
  end.

(** [abs(x)] *)
Definition fabs (x : float) : float :=
  match x with
  | Fin q => Fin (Qabs q)
  | Inf _ => Inf false
  | NaN => NaN
  end.

(** [x * y] on floats: never raises. *)
Definition fmul (x y : float) : float :=
  match x, y with
  | NaN, _ | _, NaN => NaN
  | Fin a, Fin b => b64_round (a * b)
  | Inf s, Inf t => Inf (xorb s t)
  | Inf s, Fin b | Fin b, Inf s =>
      if Qeq_bool b 0 then NaN else Inf (xorb s (negb (Qle_bool 0 b)))
  end.

(** [x - y] on floats: never raises. *)
Definition fsub (x y : float) : float :=
  match x, y with
  | NaN, _ | _, NaN => NaN
  | Fin a, Fin b => b64_round (a - b)
  | Inf s, Inf t => if Bool.eqb s t then NaN else Inf s
  | Inf s, Fin _ => Inf s
  | Fin _, Inf t => Inf (negb t)
  end.

(** [x / y] on floats: raises on a zero divisor. *)
Definition fdiv (x y : float) : result float :=
  match x, y with
  | _, Fin b =>
      if Qeq_bool b 0 then Raise ZeroDivisionError
      else match x with
           | Fin a => Ok (b64_round (a / b))
           | Inf s => Ok (Inf (xorb s (negb (Qle_bool 0 b))))
           | NaN => Ok NaN
           end
  | NaN, _ | _, NaN => Ok NaN
  | Inf _, Inf _ => Ok NaN
  | Fin _, Inf _ => Ok (Fin 0)
  end.

(** Mixed arithmetic converts the [int] operand with [float_of_int]. *)
Definition fmul_int (x : float) (n : Z) : result float :=
  y <- float_of_int n ;; Ok (fmul x y).

Definition fsub_int (x : float) (n : Z) : result float :=
  y <- float_of_int n ;; Ok (fsub x y).

Definition int_div_float (n : Z) (y : float) : result float :=
  x <- float_of_int n ;; fdiv x y.

(** Comparisons between a float and an int are exact. *)
Definition flt_int (x : float) (n : Z) : bool :=
  match x with
  | Fin q => negb (Qle_bool (inject_Z n) q)
  | Inf s => s
  | NaN => false
  end.

Definition fgt_int (x : float) (n : Z) : bool :=
  match x with
  | Fin q => negb (Qle_bool q (inject_Z n))
  | Inf s => negb s
  | NaN => false
  end.

(** [n <= x] for an int [n] and a float [x]. *)
Definition int_le_float (n : Z) (x : float) : bool :=
  match x with
  | Fin q => Qle_bool (inject_Z n) q
  | Inf s => negb s
  | NaN => false
  end.

(** [x <= n] for a float [x] and an int [n]. *)
Definition float_le_int (x : float) (n : Z) : bool :=
  match x with
  | Fin q => Qle_bool q (inject_Z n)
  | Inf s => s
  | NaN => false
  end.

(** Truncation toward zero of a rational. *)
Definition Qtrunc (q : Q) : Z :=
  if Qle_bool 0 q then Qfloor q else - Qfloor (- q).

(** [int(x)] for a float. *)
Definition int_of_float (x : float) : result Z :=
  match x with
  | Fin q => Ok (Qtrunc q)
  | Inf _ => Raise OverflowError
  | NaN => Raise ValueError
  end.

(** [round(x, ndigits)] for a float: the decimal with [ndigits] places
    nearest to the exact value of [x] (ties to even), converted back to
    the nearest float.  CPython returns [x] itself beyond 323 places and
    a zero below -308, and raises when the rounded value overflows. *)
Definition py_round (x : float) (ndigits : Z) : result float :=
  match x with
  | Fin q =>
      if 323 <? ndigits then Ok x
      else if ndigits <? -308 then Ok (Fin 0)
      else
        let p := ((10 # 1) ^ ndigits)%Q in
        match b64_round (inject_Z (rne (q * p)) / p) with
        | Inf _ => Raise OverflowError
        | y => Ok y
        end
  | _ => Ok x
  end.

(** ** Strings

    A [str] is modelled by the Rocq string of its characters, for texts
    whose code points are below 256; functions on strings work on the
    list of characters. *)

Definition code (c : ascii) : N := N_of_ascii c.

Definition chars (s : string) : list ascii := list_ascii_of_string s.

(** Unicode whitespace below 256, as [str.strip()] and [\s] see it. *)
Definition is_space (c : ascii) : bool :=
  let n := code c in
  ((9 <=? n) && (n <=? 13) || (28 <=? n) && (n <=? 32)
   || (n =? 133) || (n =? 160))%N.

Definition is_digit (c : ascii) : bool :=
  let n := code c in ((48 <=? n) && (n <=? 57))%N.

Definition digit_value (c : ascii) : Z := Z.of_N (code c) - 48.

Fixpoint drop_while (p : ascii -> bool) (s : list ascii) : list ascii :=
  match s with
  | c :: s' => if p c then drop_while p s' else s
  | [] => []
  end.

Fixpoint take_while (p : ascii -> bool) (s : list ascii) : list ascii :=
  match s with
  | c :: s' => if p c then c :: take_while p s' else []
  | [] => []
  end.

Definition strip_with (p : ascii -> bool) (s : list ascii) : list ascii :=
  rev (drop_while p (rev (drop_while p s))).

(** [s.strip()] *)
Definition str_strip (s : list ascii) : list ascii := strip_with is_space s.

(** ** Regular expressions

    The four patterns of the script are sequences of literal characters,
    one starred character class and one capturing group made of a
    character class repeated at least once.  [match_here] is the
    backtracking matcher of [re] on such sequences: a repetition takes as
    many characters as it can and gives them back one at a time when the
    rest of the pattern does not match.  The result is [group(1)]. *)

Inductive re_item : Type :=
| Lit (c : ascii)
| Star (cls : ascii -> bool)
| GroupPlus (cls : ascii -> bool).

(** [cls*] followed by the continuation [k]: longest first. *)
Fixpoint star_loop (cls : ascii -> bool)
    (k : list ascii -> list ascii -> option (list ascii))
    (s g : list ascii) {struct s} : option (list ascii) :=
  match s with
  | x :: s' =>
      if cls x then
        match star_loop cls k s' g with
        | Some r => Some r
        | None => k s g
        end
      else k s g
  | [] => k [] g
  end.

(** The rest of [(cls+)] after its first character, the group so far
    being [g], followed by the continuation [k]: longest first. *)
Fixpoint plus_loop (cls : ascii -> bool)
    (k : list ascii -> list ascii -> option (list ascii))
    (s g : list ascii) {struct s} : option (list ascii) :=
  match s with
  | y :: s' =>
      if cls y then
        match plus_loop cls k s' (g ++ [y]) with
        | Some r => Some r
        | None => k s g
        end
      else k s g
  | [] => k [] g
  end.

(** [match_here pat s g]: match [pat] at the start of [s], the group
    being [g] so far. *)
Fixpoint match_here (pat : list re_item)
  : list ascii -> list ascii -> option (list ascii) :=
  match pat with
  | [] => fun _ g => Some g
  | Lit c :: rest => fun s g =>
      match s with
      | x :: s' => if Ascii.eqb x c then match_here rest s' g else None
      | [] => None
      end
  | Star cls :: rest => star_loop cls (match_here rest)
  | GroupPlus cls :: rest => fun s _ =>
      match s with
      | x :: s' => if cls x then plus_loop cls (match_here rest) s' [x] else None
      | [] => None
      end
  end.

(** [re.search(pat, s)]: the match at the leftmost position that has
    one, as its [group(1)]. *)
Fixpoint re_search (pat : list re_item) (s : list ascii) : option (list ascii) :=
  match match_here pat s [] with
  | Some g => Some g
  | None =>
      match s with
      | [] => None
      | _ :: s' => re_search pat s'
      end
  end.

(** [m.group(1)] on the result of [re.search]. *)
Definition group1 (m : option (list ascii)) : result (list ascii) :=
  match m with
  | Some g => Ok g
  | None => Raise AttributeError
  end.

Definition lits (s : string) : list re_item := map Lit (chars s).

(** [\s] and [[-\d.]] *)
Definition cls_space : ascii -> bool := is_space.

Definition cls_value (c : ascii) : bool :=
  Ascii.eqb c "-" || is_digit c || Ascii.eqb c ".".

(** What the patterns of the script read after a token name: the
    whitespace, the longest run of value characters, then the rest of
    the pattern. *)
Definition read_value (closing : list re_item) (s : list ascii) : option (list ascii) :=
  let s1 := drop_while cls_space s in
  match take_while cls_value s1 with
  | [] => None
  | v => match_here closing (drop_while cls_value s1) v
  end.

(** ** [float(s)] for a string

    CPython turns the Unicode spaces above 127 into blanks, strips ASCII
    whitespace, checks and removes underscores between digits, and reads
    a sign followed by [inf], [infinity], [nan] or a decimal number with
    an optional exponent; the value is the nearest float.  Anything else
    raises [ValueError]. *)

Definition is_ascii_space (c : ascii) : bool :=
  let n := code c in ((9 <=? n) && (n <=? 13) || (n =? 32))%N.

Definition fold_space (c : ascii) : ascii :=
  let n := code c in if ((n =? 133) || (n =? 160))%N then " "%char else c.

Fixpoint check_underscores (prev : ascii) (s : list ascii) : option (list ascii) :=
  match s with
  | [] => if Ascii.eqb prev "_" then None else Some []
  | c :: s' =>
      if Ascii.eqb c "_" then
        if is_digit prev then check_underscores c s' else None
      else if Ascii.eqb prev "_" && negb (is_digit c) then None
      else option_map (cons c) (check_underscores c s')
  end.

Definition remove_underscores (s : list ascii) : option (list ascii) :=
  if existsb (fun c => Ascii.eqb c "_") s then check_underscores zero s
  else Some s.

Fixpoint span_digits (s : list ascii) : list ascii * list ascii :=
  match s with
  | c :: s' =>
      if is_digit c then let (d, r) := span_digits s' in (c :: d, r)
      else ([], s)
  | [] => ([], [])
  end.

Definition digits_value (ds : list ascii) : Z :=
  fold_left (fun acc c => 10 * acc + digit_value c) ds 0.

(** An optional sign: [true] for "-". *)
Definition read_sign (s : list ascii) : bool * list ascii :=
  match s with
  | c :: s' =>
      if Ascii.eqb c "-" then (true, s')
      else if Ascii.eqb c "+" then (false, s')
      else (false, s)
  | [] => (false, [])
  end.

Definition lower (c : ascii) : ascii :=
  let n := code c in
  if ((65 <=? n) && (n <=? 90))%N then ascii_of_N (n + 32) else c.

Definition eq_nocase (s : list ascii) (w : string) : bool :=
  if list_eq_dec ascii_dec (map lower s) (chars w) then true else false.

Definition signed (neg : bool) (q : Q) : Q := if neg then (- q)%Q else q.

(** The digits [ip], the fraction digits [fp] and the exponent [e]:
    [ip.fp] times ten to the [e]. *)
Definition decimal_value (ip fp : list ascii) (e : Z) : Q :=
  (inject_Z (digits_value (ip ++ fp)) * (10 # 1) ^ (e - Z.of_nat (List.length fp)))%Q.

Definition read_exponent (s : list ascii) : option Z :=
  match s with
  | [] => Some 0
  | c :: t =>
      if Ascii.eqb (lower c) "e" then
        let (eneg, t1) := read_sign t in
        let (ed, t2) := span_digits t1 in
        match ed, t2 with
        | _ :: _, [] => Some (if eneg then - digits_value ed else digits_value ed)
        | _, _ => None
        end
      else None
  end.

Definition read_decimal (s : list ascii) : option Q :=
  let (ip, s2) := span_digits s in
  let (fp, s3) :=
    match s2 with
    | c :: t => if Ascii.eqb c "." then span_digits t else ([], s2)
    | [] => ([], s2)
    end in
  match ip ++ fp with
  | [] => None
  | _ :: _ => option_map (decimal_value ip fp) (read_exponent s3)
  end.

Definition read_number (s : list ascii) : option float :=
  let (neg, s1) := read_sign s in
  if eq_nocase s1 "inf" || eq_nocase s1 "infinity" then Some (Inf neg)
  else if eq_nocase s1 "nan" then Some NaN
  else option_map (fun q => b64_round (signed neg q)) (read_decimal s1).

Definition py_float (s : list ascii) : result float :=
  let s1 := strip_with is_ascii_space (map fold_space s) in
  match remove_underscores s1 with
  | None => Raise ValueError
  | Some s2 =>
      match read_number s2 with
      | Some x => Ok x
      | None => Raise ValueError
      end
  end.

(** [try: body except (ValueError, AttributeError): handler] *)
Definition except_value_attribute {A : Type} (body : result A) (handler : result A)
  : result A :=
  match body with
  | Raise ValueError | Raise AttributeError => handler
  | r => r
  end.

(** ** Cross-check with the Standard Library

    [SpecFloat] specifies the IEEE 754 operations on mantissa and
    exponent; with precision 53 and maximal exponent 1024 they are the
    binary64 operations.  [of_spec_float] reads such a number as a
    [float]; the operations above are compared with those of [SpecFloat]
    on a list of operands. *)

Definition of_spec_float (x : spec_float) : float :=
  match x with
  | S754_zero _ => Fin 0
  | S754_infinity s => Inf s
  | S754_nan => NaN
  | S754_finite s m e => Fin (Qred (signed s (inject_Z (Zpos m)) * pow2 e))
  end.

Definition float_eqb (x y : float) : bool :=
  match x, y with
  | Fin a, Fin b => Qeq_bool a b
  | Inf s, Inf t => Bool.eqb s t
  | NaN, NaN => true
  | _, _ => false
  end.

(** The binary64 number nearest to [m * 2^e], and to [n / d]. *)
Definition sf (m e : Z) : spec_float := binary_normalize 53 1024 m e false.
Definition sfq (n d : Z) : spec_float := SFdiv 53 1024 (sf n 0) (sf d 0).

Definition operands : list spec_float :=
  [sfq 95 100; sfq 1 3; sfq 40123 1000; sfq (-74456) 1000; sf 60 0;
   sf 100000 0; sfq 29 100; sf 1 (-1074); sf (2 ^ 53 - 1) 971; sf 1 73;
   sfq 1681 100000; sf (2 ^ 52 + 1) 8; sf (-3) (-1060);
   S754_zero false; S754_infinity false; S754_infinity true; S754_nan].

Definition agree (f : float -> float -> float)
    (g : spec_float -> spec_float -> spec_float) : bool :=
  forallb (fun a => forallb (fun b =>
    float_eqb (f (of_spec_float a) (of_spec_float b)) (of_spec_float (g a b)))
    operands) operands.

Definition agree_div : bool :=
  forallb (fun a => forallb (fun b =>
    match fdiv (of_spec_float a) (of_spec_float b) with
    | Ok r => float_eqb r (of_spec_float (SFdiv 53 1024 a b))
    | Raise _ => match b with S754_zero _ => true | _ => false end
    end) operands) operands.

End Py.

Import Py.

(* ===================================================================== *)
(** * The script                                                           *)
(* ===================================================================== *)

Local Open Scope string_scope.

(** [loc[i]] on a Python list. *)
Definition list_index {A : Type} (l : list A) (i : nat) : result A :=
  match nth_error l i with
  | Some a => Ok a
  | None => Raise IndexError
  end.

(** ** [to_deg] (lines 14-27) *)

Definition to_deg (value : float) (loc : list string)
  : result (Z * Z * float * string) :=
  loc_value <- (if flt_int value 0 then list_index loc 1
                else if fgt_int value 0 then list_index loc 0
                else Ok EmptyString) ;;
  let abs_value := fabs value in
  deg <- int_of_float abs_value ;;
  d <- fsub_int abs_value deg ;;
  t1 <- fmul_int d 60 ;;
  min <- int_of_float t1 ;;
  r <- fsub_int t1 min ;;
  s <- fmul_int r 60 ;;
  sec <- py_round s 5 ;;
  Ok (deg, min, sec, loc_value).

(** ** [parse_dji_gps_data] (lines 29-51) *)

(** [r'\[latitude:\s*([-\d.]+)\]'] *)
Definition re_latitude : list re_item :=
  lits "[latitude:" ++ [Star cls_space; GroupPlus cls_value; Lit "]"].

(** [r'\[longitude:\s*([-\d.]+)\]'] *)
Definition re_longitude : list re_item :=
  lits "[longitude:" ++ [Star cls_space; GroupPlus cls_value; Lit "]"].

(** [r'\[rel_alt:\s*([-\d.]+)'] *)
Definition re_rel_alt : list re_item :=
  lits "[rel_alt:" ++ [Star cls_space; GroupPlus cls_value].

(** [r'abs_alt:\s*([-\d.]+)\]'] *)
Definition re_abs_alt : list re_item :=
  lits "abs_alt:" ++ [Star cls_space; GroupPlus cls_value; Lit "]"].

(** A token in a text: the name, optional whitespace, a non-empty run
    [v] of value characters and the closing characters. *)
Definition has_token (name : string) (closing v s : list ascii) : Prop :=
  exists pre ws post,
    s = (pre ++ chars name ++ ws ++ v ++ closing ++ post)%list /\
    forallb cls_space ws = true /\ v <> [] /\ forallb cls_value v = true.

Definition is_match (m : option (list ascii)) : bool :=
  match m with
  | Some _ => true
  | None => false
  end.

(** The tuple [(lat, lon, abs_alt, rel_alt)], or [None]. *)
Definition gps_result : Type := option (float * float * float * option float).

Definition parse_dji_gps_data (srt_text : string) : result gps_result :=
  except_value_attribute
    (let lat_match := re_search re_latitude (chars srt_text) in
     let lon_match := re_search re_longitude (chars srt_text) in
     let rel_alt_match := re_search re_rel_alt (chars srt_text) in
     let abs_alt_match := re_search re_abs_alt (chars srt_text) in
     if is_match lat_match && is_match lon_match && is_match abs_alt_match then
       lat <- (g <- group1 lat_match ;; py_float g) ;;
       lon <- (g <- group1 lon_match ;; py_float g) ;;
       abs_alt <- (g <- group1 abs_alt_match ;; py_float g) ;;
       rel_alt <- (if is_match rel_alt_match
                   then g <- group1 rel_alt_match ;; x <- py_float g ;; Ok (Some x)
                   else Ok None) ;;
       Ok (Some (lat, lon, abs_alt, rel_alt))
     else Ok None)
    (Ok None).

(** ** The GPS group built by [set_gps_location] (lines 56-71)

    An EXIF rational is a pair (numerator, denominator). *)

Definition rational : Type := (Z * Z)%type.

(** The expression [(int(value * scale), scale)], written inline on
    lines 62, 66 and 68 with scale 100 (altitude) and 100000 (seconds). *)
Definition to_rational (value : float) (scale : Z) : result rational :=
  p <- fmul_int value scale ;;
  n <- int_of_float p ;;
  Ok (n, scale).

(** The dictionary literal [gps_ifd]: one field per key. *)
Record gps_ifd : Type := {
  GPSLatitudeRef : string;
  GPSLatitude : rational * rational * rational;
  GPSLongitudeRef : string;
  GPSLongitude : rational * rational * rational;
  GPSAltitudeRef : Z;
  GPSAltitude : rational
}.

Definition dms_rationals (deg : Z * Z * float * string)
  : result (rational * rational * rational) :=
  let '(d, m, sec, _) := deg in
  s <- to_rational sec 100000 ;;
  Ok ((d, 1), (m, 1), s).

Definition loc_of (deg : Z * Z * float * string) : string :=
  let '(_, _, _, l) := deg in l.

Definition make_gps_ifd (lat_deg lon_deg : Z * Z * float * string)
    (abs_alt_rational : rational) : result gps_ifd :=
  lat_ref <- Ok (loc_of lat_deg) ;;
  lat_dms <- dms_rationals lat_deg ;;
  lon_ref <- Ok (loc_of lon_deg) ;;
  lon_dms <- dms_rationals lon_deg ;;
  Ok {| GPSLatitudeRef := lat_ref;
        GPSLatitude := lat_dms;
        GPSLongitudeRef := lon_ref;
        GPSLongitude := lon_dms;
        GPSAltitudeRef := 0;
        GPSAltitude := abs_alt_rational |}.

(** The encoding part of [set_gps_location], without the file access
    between its steps. *)
Definition encode_gps (lat lon abs_alt : float) : result gps_ifd :=
  lat_deg <- to_deg lat ["N"; "S"] ;;
  lon_deg <- to_deg lon ["E"; "W"] ;;
  abs_alt_rational <- to_rational abs_alt 100 ;;
  make_gps_ifd lat_deg lon_deg abs_alt_rational.

(** ** Frame timestamp (lines 212-213) *)

Definition frame_time_seconds (frame_number : Z) (extraction_fps : float)
  : result float :=
  int_div_float (frame_number - 1) extraction_fps.

Definition frame_timedelta_ms (frame_number : Z) (extraction_fps : float)
  : result float :=
  frame_time_seconds <- frame_time_seconds frame_number extraction_fps ;;
  fmul_int frame_time_seconds 1000.

(** ** Subtitle lookup (lines 217-222)

    A [pysrt] subtitle item, with [start.ordinal] and [end.ordinal] in
    milliseconds. *)
Record sub : Type := {
  start_ordinal : Z;
  end_ordinal : Z;
  text : string
}.

(** [sub_start_ms <= frame_timedelta_ms <= sub_end_ms] *)
Definition sub_contains (frame_timedelta_ms : float) (s : sub) : bool :=
  int_le_float (start_ordinal s) frame_timedelta_ms
  && float_le_int frame_timedelta_ms (end_ordinal s).

(** The [for sub in subs] loop: both branches taken on a containing
    subtitle end in [break], so the loop stops at the first one. *)
Fixpoint find_sub (frame_timedelta_ms : float) (subs : list sub) : option sub :=
  match subs with
  | [] => None
  | s :: rest =>
      if sub_contains frame_timedelta_ms s then Some s
      else find_sub frame_timedelta_ms rest
  end.

(** ** The run: effects

    The script prints, reads two answers, and reads and writes image
    files.  A run threads a [world]: the lines printed so far and the
    content of the files.  An exception keeps the world reached when it
    was raised. *)

Inductive log_line : Type :=
| LSettings
| LInvalidFrameRate
| LInvalidExtractionRate
| LOriginalVideo (video_fps : float)
| LFrameExtraction (extraction_fps ratio : float)
| LProcessing (prefix : string)
| LParsed (srt_file : string) (entries : nat)
| LErrorParsing (srt_file : string) (e : exn)
| LTagging (img_filename : string) (frame_number : Z)
    (lat lon abs_alt : float) (rel_alt : option float)
| LCouldNotParse (text50 : string)
| LNoMatch (img_filename : string) (frame_number : Z) (frame_time_seconds : float)
| LErrorWriting (file_path : string) (e : exn)
| LGroupSummary (prefix : string) (group_success : Z) (images : nat)
| LComplete
| LSummary (total_success total_images : Z) (videos : nat)
| LNote.

(** The files: path to content. *)
Definition files : Type := string -> option string.

Record world : Type := {
  log : list log_line;
  disk : files
}.

Definition M (A : Type) : Type := world -> result A * world.

Definition ret {A : Type} (a : A) : M A := fun w => (Ok a, w).

Definition bindM {A B : Type} (m : M A) (k : A -> M B) : M B :=
  fun w =>
    match m w with
    | (Ok a, w') => k a w'
    | (Raise e, w') => (Raise e, w')
    end.

Notation "x <~ m ;; k" := (bindM m (fun x => k))
  (at level 61, m at next level, right associativity).
Notation "m ;;; k" := (bindM m (fun _ => k))
  (at level 61, right associativity).

Definition lift {A : Type} (r : result A) : M A := fun w => (r, w).

Definition print (l : log_line) : M unit :=
  fun w => (Ok tt, {| log := log w ++ [l]; disk := disk w |}).

(** [try: body except Exception as e: handler e] *)
Definition try_except {A : Type} (body : M A) (handler : exn -> M A) : M A :=
  fun w =>
    match body w with
    | (Ok a, w') => (Ok a, w')
    | (Raise e, w') => handler e w'
    end.

(** A dictionary with string keys, in insertion order. *)
Fixpoint dict_set {V : Type} (d : list (string * V)) (k : string) (v : V)
  : list (string * V) :=
  match d with
  | [] => [(k, v)]
  | (k', v') :: d' =>
      if String.eqb k' k then (k, v) :: d' else (k', v') :: dict_set d' k v
  end.

Fixpoint dict_get {V : Type} (d : list (string * V)) (k : string) : option V :=
  match d with
  | [] => None
  | (k', v') :: d' => if String.eqb k' k then Some v' else dict_get d' k
  end.

(** [os.path.join(a, b)] on POSIX paths. *)
Definition path_join (a b : string) : string :=
  match b with
  | String "/" _ => b
  | _ =>
      match rev (chars a) with
      | [] => b
      | c :: _ => if Ascii.eqb c "/" then a ++ b else a ++ "/" ++ b
      end
  end.

(** [s[:50]] *)
Fixpoint str_take (n : nat) (s : string) : string :=
  match n, s with
  | S n', String c s' => String c (str_take n' s')
  | _, _ => EmptyString
  end.

Section Script.

(** The collaborators: the [piexif] functions the script calls, the
    subtitle files as [pysrt.open] reads them, and the current folder.
    [ifd] is the content of the EXIF groups the script does not build. *)
Variable ifd : Type.

Inductive exif_value : Type :=
| Loaded (i : ifd)
| Built (g : gps_ifd).

Definition exif_dict : Type := list (string * exif_value).

Variable piexif_load : files -> string -> result exif_dict.
Variable piexif_dump : exif_dict -> result string.
Variable piexif_insert : string -> string -> files -> result unit * files.
Variable pysrt_open : string -> result (list sub).
Variable current_folder : string.

Definition load (file_path : string) : M exif_dict :=
  fun w => (piexif_load (disk w) file_path, w).

Definition insert (exif_bytes file_path : string) : M unit :=
  fun w =>
    let (r, d) := piexif_insert exif_bytes file_path (disk w) in
    (r, {| log := log w; disk := d |}).

(** ** [set_gps_location] (lines 53-80) *)

Definition set_gps_location (file_path : string) (lat lon abs_alt : float)
    (rel_alt : option float) : M bool :=
  try_except
    (lat_deg <~ lift (to_deg lat ["N"; "S"]) ;;
     lon_deg <~ lift (to_deg lon ["E"; "W"]) ;;
     exif_dict <~ load file_path ;;
     abs_alt_rational <~ lift (to_rational abs_alt 100) ;;
     gps_ifd <~ lift (make_gps_ifd lat_deg lon_deg abs_alt_rational) ;;
     let exif_dict := dict_set exif_dict "GPS" (Built gps_ifd) in
     exif_bytes <~ lift (piexif_dump exif_dict) ;;
     insert exif_bytes file_path ;;;
     ret true)
    (fun e => print (LErrorWriting file_path e) ;;; ret false).

(** ** [geotag_dji_frames], from the frame-rate questions on
    (lines 160-248)

    The first part of the function (lines 112-158) lists the folder and
    groups the images by video prefix; it is represented by its result,
    [matched_groups]: for each prefix, the subtitle file and the images
    with their frame numbers. *)

Definition image : Type := (string * Z)%type.

Record group : Type := {
  prefix : string;
  srt_file : string;
  images : list image
}.

(** The body of [for img_filename, frame_number in images]: the frame is
    counted, and the result tells whether it was geotagged. *)
Definition process_image (video_fps extraction_fps : float) (subs : list sub)
    (img : image) : M bool :=
  let (img_filename, frame_number) := img in
  frame_time_seconds <~ lift (frame_time_seconds frame_number extraction_fps) ;;
  frame_timedelta_ms <~ lift (fmul_int frame_time_seconds 1000) ;;
  match find_sub frame_timedelta_ms subs with
  | Some sub =>
      gps_result <~ lift (parse_dji_gps_data (text sub)) ;;
      match gps_result with
      | Some (lat, lon, abs_alt, rel_alt) =>
          let full_image_path := path_join current_folder img_filename in
          print (LTagging img_filename frame_number lat lon abs_alt rel_alt) ;;;
          set_gps_location full_image_path lat lon abs_alt rel_alt
      | None =>
          print (LCouldNotParse (str_take 50 (text sub))) ;;;
          print (LNoMatch img_filename frame_number frame_time_seconds) ;;;
          ret false
      end
  | None =>
      print (LNoMatch img_filename frame_number frame_time_seconds) ;;;
      ret false
  end.

(** The loop over the images of a group: [group_success]. *)
Fixpoint process_images (video_fps extraction_fps : float) (subs : list sub)
    (imgs : list image) (group_success : Z) : M Z :=
  match imgs with
  | [] => ret group_success
  | img :: rest =>
      ok <~ process_image video_fps extraction_fps subs img ;;
      process_images video_fps extraction_fps subs rest
        (if ok then group_success + 1 else group_success)
  end.

(** The body of [for prefix, data in matched_groups.items()], on the
    counters [(total_success, total_images)]. *)
Definition process_group (video_fps extraction_fps : float) (g : group)
    (totals : Z * Z) : M (Z * Z) :=
  let (total_success, total_images) := totals in
  print (LProcessing (prefix g)) ;;;
  opened <~ try_except
              (subs <~ lift (pysrt_open (srt_file g)) ;;
               print (LParsed (srt_file g) (List.length subs)) ;;;
               ret (Some subs))
              (fun e => print (LErrorParsing (srt_file g) e) ;;; ret None) ;;
  match opened with
  | None => ret totals
  | Some subs =>
      group_success <~ process_images video_fps extraction_fps subs (images g) 0 ;;
      print (LGroupSummary (prefix g) group_success (List.length (images g))) ;;;
      ret (total_success + group_success,
           total_images + Z.of_nat (List.length (images g)))
  end.

Fixpoint process_groups (video_fps extraction_fps : float) (gs : list group)
    (totals : Z * Z) : M (Z * Z) :=
  match gs with
  | [] => ret totals
  | g :: rest =>
      totals' <~ process_group video_fps extraction_fps g totals ;;
      process_groups video_fps extraction_fps rest totals'
  end.

(** One frame-rate question: the stripped answer, the default and the
    line printed for an answer that is not a number. *)
Definition read_rate (answer : string) (default : float) (invalid : log_line)
  : M float :=
  let rate_input := str_strip (chars answer) in
  match rate_input with
  | [] => ret default
  | _ :: _ =>
      match py_float rate_input with
      | Ok x => ret x
      | Raise ValueError => print invalid ;;; ret default
      | Raise e => lift (Raise e)
      end
  end.

(** The literals [29.97] and [5.0]. *)
Definition default_video_fps : float := b64_round (2997 # 100).
Definition default_extraction_fps : float := Fin 5.

Definition geotag_dji_frames (matched_groups : list group)
    (video_fps_answer extraction_fps_answer : string) : M unit :=
  print LSettings ;;;
  video_fps <~ read_rate video_fps_answer default_video_fps LInvalidFrameRate ;;
  extraction_fps <~ read_rate extraction_fps_answer default_extraction_fps
                      LInvalidExtractionRate ;;
  print (LOriginalVideo video_fps) ;;;
  ratio <~ lift (fdiv video_fps extraction_fps) ;;
  print (LFrameExtraction extraction_fps ratio) ;;;
  totals <~ process_groups video_fps extraction_fps matched_groups (0, 0) ;;
  print LComplete ;;;
  print (LSummary (fst totals) (snd totals) (List.length matched_groups)) ;;;
  print LNote.

(** The same lines with the two calls of [input()] as they may end.
    Lines 164 and 175 call [input()] outside any [try]: an exception
    raised by the call ([EOFError] when there is nothing to read) leaves
    the function, the second call being made after the first answer has
    been read.  [geotag_dji_frames] above is the case where both calls
    return an answer. *)
Definition geotag_dji_frames_input (matched_groups : list group)
    (video_fps_answer extraction_fps_answer : result string) : M unit :=
  print LSettings ;;;
  video_fps_input <~ lift video_fps_answer ;;
  video_fps <~ read_rate video_fps_input default_video_fps LInvalidFrameRate ;;
  extraction_fps_input <~ lift extraction_fps_answer ;;
  extraction_fps <~ read_rate extraction_fps_input default_extraction_fps
                      LInvalidExtractionRate ;;
  print (LOriginalVideo video_fps) ;;;
  ratio <~ lift (fdiv video_fps extraction_fps) ;;
  print (LFrameExtraction extraction_fps ratio) ;;;
  totals <~ process_groups video_fps extraction_fps matched_groups (0, 0) ;;
  print LComplete ;;;
  print (LSummary (fst totals) (snd totals) (List.length matched_groups)) ;;;
  print LNote.

End Script.

(** ** Reading the log

    The lines that report a frame that was not geotagged: no subtitle
    gave a position (also printed after a subtitle that could not be
    parsed), or the EXIF data could not be written. *)
Definition is_failure_line (l : log_line) : bool :=
  match l with
  | LNoMatch _ _ _ | LErrorWriting _ _ => true
  | _ => false
  end.

Definition failures (ls : list log_line) : Z :=
  Z.of_nat (List.length (filter is_failure_line ls)).



(** ** Reading a GPS group back

    The script only writes GPS groups.  The decoder of the round trip
    is the EXIF reading of the group. *)

(** Modelled from the spec: the decoder, absent from the script; the
    value of an EXIF rational. *)
Definition rational_value (r : rational) : Q :=
  (inject_Z (fst r) / inject_Z (snd r))%Q.

(** Modelled from the spec: the decoder, absent from the script;
    degrees + minutes/60 + seconds/3600. *)
Definition dms_value (t : rational * rational * rational) : Q :=
  let '(d, m, s) := t in
  (rational_value d + rational_value m / 60 + rational_value s / 3600)%Q.

(** Modelled from the spec: the decoder, absent from the script; a
    coordinate is negative for the secondary hemisphere. *)
Definition decode_coordinate (secondary ref : string)
    (t : rational * rational * rational) : Q :=
  if String.eqb ref secondary then (- dms_value t)%Q else dms_value t.

(** Modelled from the spec: the decoder, absent from the script; the
    secondary hemisphere of a latitude is "S". *)
Definition decode_latitude (g : gps_ifd) : Q :=
  decode_coordinate "S" (GPSLatitudeRef g) (GPSLatitude g).

(** Modelled from the spec: the decoder, absent from the script; the
    secondary hemisphere of a longitude is "W". *)
Definition decode_longitude (g : gps_ifd) : Q :=
  decode_coordinate "W" (GPSLongitudeRef g) (GPSLongitude g).

(** Modelled from the spec: the decoder, absent from the script; the
    altitude reference 0 is "above sea level", 1 is below. *)
Definition decode_altitude (g : gps_ifd) : Q :=
  if (GPSAltitudeRef g =? 1)%Z then (- rational_value (GPSAltitude g))%Q
  else rational_value (GPSAltitude g).

(** ** A folder for the examples

    One video, DJI_0001, whose subtitle track has one entry, from 1000 ms
    to 1200 ms, and the sixth frame extracted from it; stand-ins for
    [piexif] that read and write the files of the folder. *)

Definition ex_load (d : files) (file_path : string) : result (exif_dict unit) :=
  match d file_path with
  | Some _ => Ok [("0th", Loaded unit tt); ("Exif", Loaded unit tt);
                  ("GPS", Loaded unit tt)]
  | None => Raise (OtherError "FileNotFoundError")
  end.

Definition ex_dump (exif : exif_dict unit) : result string := Ok "Exif".

Definition ex_insert (exif_bytes file_path : string) (d : files)
  : result unit * files :=
  match d file_path with
  | Some img =>
      (Ok tt, fun p => if String.eqb p file_path then Some (exif_bytes ++ img) else d p)
  | None => (Raise (OtherError "FileNotFoundError"), d)
  end.

(** A [piexif.insert] whose write fails part-way: the image has been
    opened for writing, which empties it, and the write raises. *)
Definition ex_insert_failing (exif_bytes file_path : string) (d : files)
  : result unit * files :=
  (Raise (OtherError "OSError"),
   fun p => if String.eqb p file_path then Some EmptyString else d p).

Definition ex_subs : list sub :=
  [{| start_ordinal := 1000; end_ordinal := 1200;
      text := "[latitude: 40.123][longitude: -74.456][rel_alt: 10.0 abs_alt: 50.25]" |}].

Definition ex_open (srt_file : string) : result (list sub) :=
  if String.eqb srt_file "DJI_0001.SRT" then Ok ex_subs
  else Raise (OtherError "FileNotFoundError").

Definition ex_groups : list group :=
  [{| prefix := "DJI_0001"; srt_file := "DJI_0001.SRT";
      images := [("DJI_0001_000006.jpg", 6)] |}].

Definition ex_world : world :=
  {| log := [];
     disk := fun p => if String.eqb p "/flight/DJI_0001_000006.jpg"
                      then Some "JPEG" else None |}.

Definition ex_run (video_fps_answer extraction_fps_answer : string)
  : result unit * world :=
  geotag_dji_frames unit ex_load ex_dump ex_insert ex_open "/flight" ex_groups
    video_fps_answer extraction_fps_answer ex_world.

(* ===================================================================== *)
(** * File names and the folder                                            *)
(* ===================================================================== *)

(** ** More of the runtime: [str] methods, [int()], [sorted], [re.match]

    The patterns of the file names are compiled with [re.IGNORECASE] and
    use a group that holds literals, the anchor [$] and a repetition
    followed by characters of its own class. *)

(** [c.lower()] for a character below 256: the ASCII capitals and the
    Latin-1 capitals (192 to 222 without the multiplication sign). *)
Definition lower_char (c : ascii) : ascii :=
  let n := code c in
  if ((65 <=? n) && (n <=? 90)
      || (192 <=? n) && (n <=? 222) && negb (n =? 215))%N
  then ascii_of_N (n + 32) else c.

(** [s.lower()] *)
Definition str_lower (s : list ascii) : list ascii := map lower_char s.

(** [s.startswith(p)] and [s.endswith(p)] *)
Fixpoint startswith (s p : list ascii) : bool :=
  match p, s with
  | [], _ => true
  | c :: p', x :: s' => Ascii.eqb x c && startswith s' p'
  | _ :: _, [] => false
  end.

Definition endswith (s p : list ascii) : bool := startswith (rev s) (rev p).

(** [s[:-n]] *)
Definition drop_last (n : nat) (s : list ascii) : list ascii :=
  firstn (List.length s - n) s.

(** [int(s)] for a string: CPython turns the Unicode spaces above 127
    into blanks, skips ASCII whitespace, reads a sign, then digits with
    single underscores between them, and skips ASCII whitespace up to the
    end.  A literal of more than [int_max_str_digits] digits is refused
    (the default limit of CPython 3.11 and of the security releases of
    the earlier versions).  Every failure is a [ValueError]. *)
Definition int_max_str_digits : nat := 4300.

Definition is_int_char (c : ascii) : bool := is_digit c || Ascii.eqb c "_".

Definition py_int (s : list ascii) : result Z :=
  let s1 := drop_while is_ascii_space (map fold_space s) in
  let (neg, s2) := read_sign s1 in
  let body := take_while is_int_char s2 in
  let rest := drop_while is_int_char s2 in
  match check_underscores zero body with
  | Some (d :: ds) =>
      if forallb is_ascii_space rest then
        if (int_max_str_digits <? List.length (d :: ds))%nat then Raise ValueError
        else Ok (if neg then - digits_value (d :: ds) else digits_value (d :: ds))
      else Raise ValueError
  | _ => Raise ValueError
  end.

(** [sorted(l)] for the order [le]: the sort is stable, an element stays
    before the later elements that compare equal to it. *)
Fixpoint insert_sorted {A : Type} (le : A -> A -> bool) (x : A) (l : list A)
  : list A :=
  match l with
  | [] => [x]
  | y :: l' => if le x y then x :: l else y :: insert_sorted le x l'
  end.

Fixpoint py_sorted {A : Type} (le : A -> A -> bool) (l : list A) : list A :=
  match l with
  | [] => []
  | x :: l' => insert_sorted le x (py_sorted le l')
  end.

(** The items of the file-name patterns: a literal (compared without
    case), a character class repeated at least once, the parentheses of
    group 1, and [$]. *)
Inductive rx_item : Type :=
| RLit (c : ascii)
| RPlus (cls : ascii -> bool)
| ROpen
| RClose
| REnd.

(** A character read while the group is open goes into the group. *)
Definition push (on : bool) (g : list ascii) (x : ascii) : list ascii :=
  if on then g ++ [x] else g.

(** The same for the characters [m]. *)
Definition pushes (on : bool) (g m : list ascii) : list ascii :=
  if on then g ++ m else g.

(** The rest of [cls+] after its first character, followed by the
    continuation [k]: longest first. *)
Fixpoint rx_plus (cls : ascii -> bool)
    (k : list ascii -> list ascii -> option (list ascii)) (on : bool)
    (s g : list ascii) {struct s} : option (list ascii) :=
  match s with
  | y :: s' =>
      if cls y then
        match rx_plus cls k on s' (push on g y) with
        | Some r => Some r
        | None => k s g
        end
      else k s g
  | [] => k [] g
  end.

(** [rx_here pat on s g]: match [pat] at the start of [s]; [on] tells
    whether the group is open and [g] is the group so far.  [$] matches
    at the end of the string and before a newline that ends it. *)
Fixpoint rx_here (pat : list rx_item) (on : bool)
  : list ascii -> list ascii -> option (list ascii) :=
  match pat with
  | [] => fun _ g => Some g
  | RLit c :: rest => fun s g =>
      match s with
      | x :: s' =>
          if Ascii.eqb (lower_char x) (lower_char c)
          then rx_here rest on s' (push on g x) else None
      | [] => None
      end
  | RPlus cls :: rest => fun s g =>
      match s with
      | x :: s' =>
          if cls x then rx_plus cls (rx_here rest on) on s' (push on g x) else None
      | [] => None
      end
  | ROpen :: rest => fun s _ => rx_here rest true s []
  | RClose :: rest => fun s g => rx_here rest false s g
  | REnd :: rest => fun s g =>
      match s with
      | [] => rx_here rest on s g
      | [c] => if Ascii.eqb c "010" then rx_here rest on s g else None
      | _ => None
      end
  end.

(** [re.match(pat, s, re.IGNORECASE)], as its [group(1)]. *)
Definition rx_match (pat : list rx_item) (s : list ascii) : option (list ascii) :=
  rx_here pat false s [].

(** [re.search(pat, s, re.IGNORECASE)], as its [group(1)]: the match at
    the leftmost position that has one. *)
Fixpoint rx_search (pat : list rx_item) (s : list ascii) : option (list ascii) :=
  match rx_here pat false s [] with
  | Some g => Some g
  | None =>
      match s with
      | [] => None
      | _ :: s' => rx_search pat s'
      end
  end.

Definition rlits (s : string) : list rx_item := map RLit (chars s).

(** [[^_]] *)
Definition cls_not_underscore (c : ascii) : bool := negb (Ascii.eqb c "_").

(** ** [extract_video_prefix] (lines 82-91) *)

(** [r'(DJI_\d+)_SE_\d+\.jpg$'] *)
Definition re_prefix_se : list rx_item :=
  [ROpen] ++ rlits "DJI_" ++ [RPlus is_digit; RClose] ++ rlits "_SE_"
  ++ [RPlus is_digit] ++ rlits ".jpg" ++ [REnd].

(** [r'(DJI_\d+)_\d+\.jpg$'] *)
Definition re_prefix_plain : list rx_item :=
  [ROpen] ++ rlits "DJI_" ++ [RPlus is_digit; RClose] ++ rlits "_"
  ++ [RPlus is_digit] ++ rlits ".jpg" ++ [REnd].

Definition extract_video_prefix (filename : string) : option string :=
  match rx_match re_prefix_se (chars filename) with
  | Some g => Some (string_of_list_ascii g)
  | None =>
      match rx_match re_prefix_plain (chars filename) with
      | Some g => Some (string_of_list_ascii g)
      | None => None
      end
  end.

(** ** [extract_frame_number] (lines 93-107) *)

(** [r'_SE_(\d+)\.jpg$'] *)
Definition re_frame_se : list rx_item :=
  rlits "_SE_" ++ [ROpen; RPlus is_digit; RClose] ++ rlits ".jpg" ++ [REnd].

(** [r'_([^_]+)\.jpg$'] *)
Definition re_frame_plain : list rx_item :=
  rlits "_" ++ [ROpen; RPlus cls_not_underscore; RClose] ++ rlits ".jpg" ++ [REnd].

(** The first [int()] is outside the [try], the second one inside. *)
Definition extract_frame_number (filename : string) : result (option Z) :=
  match rx_search re_frame_se (chars filename) with
  | Some g => n <- py_int g ;; Ok (Some n)
  | None =>
      match rx_search re_frame_plain (chars filename) with
      | Some g =>
          match py_int g with
          | Ok n => Ok (Some n)
          | Raise ValueError => Ok None
          | Raise e => Raise e
          end
      | None => Ok None
      end
  end.

(** ** [geotag_dji_frames], up to the frame-rate questions (lines 112-158) *)

(** The lines printed by this part. *)
Inductive discovery_line : Type :=
| LSearching (current_folder : string)
| LNoSrtFiles
| LNoImageFiles
| LNoMatchingSrt
| LSrtPrefixes (prefixes : list string)
| LImagePrefixes (prefixes : list string)
| LFound (groups : nat)
| LGroup (prefix : string) (images : nat) (srt_file : string).

(** [f.lower().endswith(ext) and f.startswith("DJI_")] *)
Definition dji_file (ext : string) (f : string) : bool :=
  endswith (str_lower (chars f)) (chars ext) && startswith (chars f) (chars "DJI_").

(** [srt_files] and [image_groups]: dictionaries in insertion order. *)
Definition found_files : Type :=
  (list (string * string) * list (string * list image))%type.

(** [image_groups[prefix].append(item)] on a [defaultdict(list)] *)
Definition dict_append {V : Type} (d : list (string * list V)) (k : string) (v : V)
  : list (string * list V) :=
  match dict_get d k with
  | Some l => dict_set d k (l ++ [v])%list
  | None => dict_set d k [v]
  end.

(** [f[:-4]] *)
Definition without_extension (f : string) : string :=
  string_of_list_ascii (drop_last 4 (chars f)).

(** The body of [for f in sorted(os.listdir(current_folder))]; a prefix
    is true when it is a non-empty string. *)
Definition scan_file (f : string) (found : found_files) : result found_files :=
  let (srt_files, image_groups) := found in
  if dji_file ".srt" f then
    let prefix := without_extension f in
    Ok (dict_set srt_files prefix f, image_groups)
  else if dji_file ".jpg" f then
    match extract_video_prefix f with
    | Some prefix =>
        if String.eqb prefix EmptyString then Ok found
        else
          frame_num <- extract_frame_number f ;;
          match frame_num with
          | Some n => Ok (srt_files, dict_append image_groups prefix (f, n))
          | None => Ok found
          end
    | None => Ok found
    end
  else Ok found.

Fixpoint scan_files (names : list string) (found : found_files)
  : result found_files :=
  match names with
  | [] => Ok found
  | f :: rest => found' <- scan_file f found ;; scan_files rest found'
  end.

(** [sorted(images, key=lambda x: x[1])] *)
Definition by_frame_number (a b : image) : bool := (snd a <=? snd b)%Z.

(** The loop [for prefix in srt_files] that fills [matched_groups]; the
    entry of [prefix] holds [srt_files[prefix]]. *)
Fixpoint match_groups (srt_files : list (string * string))
    (image_groups : list (string * list image))
    (matched_groups : list (string * group)) : list (string * group) :=
  match srt_files with
  | [] => matched_groups
  | (prefix, srt_file) :: rest =>
      match_groups rest image_groups
        match dict_get image_groups prefix with
        | Some images =>
            dict_set matched_groups prefix
              {| prefix := prefix; srt_file := srt_file;
                 images := py_sorted by_frame_number images |}
        | None => matched_groups
        end
  end.

Section Folder.

(** The folder as [os.listdir] reads it, with the collaborators of the
    second part. *)
Variable os_listdir : string -> result (list string).
Variable current_folder : string.
Variable ifd : Type.
Variable piexif_load : files -> string -> result (exif_dict ifd).
Variable piexif_dump : exif_dict ifd -> result string.
Variable piexif_insert : string -> string -> files -> result unit * files.
Variable pysrt_open : string -> result (list sub).

(** Lines 112-158: the lines printed, and the groups to process, [None]
    after one of the three [return]s. *)
Definition find_groups : list discovery_line * result (option (list group)) :=
  let searching := [LSearching current_folder] in
  match (names <- os_listdir current_folder ;;
         scan_files (py_sorted String.leb names) ([], [])) with
  | Raise e => (searching, Raise e)
  | Ok (srt_files, image_groups) =>
      match srt_files, image_groups with
      | [], _ => ((searching ++ [LNoSrtFiles])%list, Ok None)
      | _ :: _, [] => ((searching ++ [LNoImageFiles])%list, Ok None)
      | _ :: _, _ :: _ =>
          match match_groups srt_files image_groups [] with
          | [] =>
              ((searching ++ [LNoMatchingSrt; LSrtPrefixes (map fst srt_files);
                              LImagePrefixes (map fst image_groups)])%list,
               Ok None)
          | matched_groups =>
              ((searching ++ [LFound (List.length matched_groups)]
                  ++ map (fun '(prefix, data) =>
                            LGroup prefix (List.length (images data)) (srt_file data))
                       matched_groups)%list,
               Ok (Some (map snd matched_groups)))
          end
      end
  end.

(** The whole of [geotag_dji_frames] (lines 109-248), which is what the
    script runs: the lines of the first part, then the second part on
    the groups found. *)
Definition main (video_fps_answer extraction_fps_answer : string) (w : world)
  : list discovery_line * (result unit * world) :=
  let (found, r) := find_groups in
  match r with
  | Raise e => (found, (Raise e, w))
  | Ok None => (found, (Ok tt, w))
  | Ok (Some matched_groups) =>
      (found,
       geotag_dji_frames ifd piexif_load piexif_dump piexif_insert pysrt_open
         current_folder matched_groups video_fps_answer extraction_fps_answer w)
  end.


End Folder.

(** The frame field of a file name: what stands between the last
    underscore and the extension [.jpg] (in any case) that ends the
    name, a newline after the extension being allowed by [$]. *)
Definition frame_field (s g : list ascii) : Prop :=
  exists pre ext nl,
    s = (pre ++ "_"%char :: g ++ ext ++ nl)%list /\
    g <> [] /\ forallb cls_not_underscore g = true /\
    str_lower ext = chars ".jpg" /\ (nl = [] \/ nl = ["010"%char]).

(** The names that the two patterns of [extract_video_prefix] accept,
    [sep] being the text between the two numbers: the prefix [p] is the
    text DJI_ and the first number, as the name spells them. *)
Definition video_name (sep : string) (s p : list ascii) : Prop :=
  exists head ds sp ns ext nl,
    s = (head ++ ds ++ sp ++ ns ++ ext ++ nl)%list /\ p = (head ++ ds)%list /\
    str_lower head = chars "dji_" /\
    ds <> [] /\ forallb is_digit ds = true /\
    str_lower sp = str_lower (chars sep) /\
    ns <> [] /\ forallb is_digit ns = true /\
    str_lower ext = chars ".jpg" /\ (nl = [] \/ nl = ["010"%char]).

(** The subtitle file kept for a prefix is the last one, in the order
    of the names, among the files seen that have this prefix. *)
Definition scan_last (seen : string -> Prop) (srt_files : list (string * string))
  : Prop :=
  forall p f, In (p, f) srt_files ->
    forall s, seen s -> dji_file ".srt" s = true -> without_extension s = p ->
      String.leb s f = true.

(** An image of the video [p] with frame number [n], as the loop over
    the folder recognises it. *)
Definition image_of (f p : string) (n : Z) : Prop :=
  dji_file ".jpg" f = true /\ extract_video_prefix f = Some p /\
  extract_frame_number f = Ok (Some n).

(** What the loop over the folder has established once it has seen the
    names [seen]: the entries of the two dictionaries come from names
    seen, and every name seen is entered. *)
Definition scan_inv (seen : string -> Prop) (found : found_files) : Prop :=
  let (srt_files, image_groups) := found in
  (forall p f, In (p, f) srt_files ->
     seen f /\ dji_file ".srt" f = true /\ p = without_extension f) /\
  (forall p imgs, In (p, imgs) image_groups ->
     imgs <> [] /\ forall f n, In (f, n) imgs -> seen f /\ image_of f p n) /\
  (forall f, seen f -> dji_file ".srt" f = true ->
     In (without_extension f) (map fst srt_files)) /\
  (forall f p n, seen f -> image_of f p n ->
     exists imgs, dict_get image_groups p = Some imgs /\ In (f, n) imgs) /\
  NoDup (map fst srt_files) /\ NoDup (map fst image_groups).

(** A plain decimal [v] and the float it denotes: an optional minus
    sign, digits, and an optional point followed by digits, with at
    least one digit. *)
Definition decimal_token (v : list ascii) (x : float) : Prop :=
  exists (neg dot : bool) (ip fp : list ascii),
    v = ((if neg then ["-"%char] else []) ++ ip
         ++ (if dot then "."%char :: fp else []))%list /\
    forallb is_digit ip = true /\ forallb is_digit fp = true /\
    (ip ++ fp)%list <> [] /\ (dot = false -> fp = []) /\
    x = b64_round (signed neg (decimal_value ip fp 0)).

(** A step of the run leaves the file [path] as it is. *)
Definition keeps {A : Type} (path : string) (m : M A) : Prop :=
  forall w, disk (snd (m w)) path = disk w path.

(** ** The folder of the examples, as [os.listdir] may list it *)

Definition ex_listdir (folder : string) : result (list string) :=
  Ok ["DJI_0001_000006.jpg"; "notes.txt"; "DJI_0001.SRT"].

Definition ex_listdir_other (folder : string) : result (list string) :=
  Ok ["DJI_0001.SRT"; "DJI_0001_000006.jpg"; "notes.txt"].

Definition ex_listdir_no_srt (folder : string) : result (list string) :=
  Ok ["DJI_0001_000006.jpg"; "notes.txt"].

Definition ex_listdir_two_srt (folder : string) : result (list string) :=
  Ok ["DJI_0001.srt"; "DJI_0001_000006.jpg"; "DJI_0001.SRT"].

Definition ex_group_two_srt : group :=
  {| prefix := "DJI_0001"; srt_file := "DJI_0001.srt";
     images := [("DJI_0001_000006.jpg", 6)] |}.

(* ===================================================================== *)
(** * Facts about the runtime                                              *)
(* ===================================================================== *)

Local Open Scope Q_scope.

(** ** The operations are those of binary64 *)

Example operations_agree_with_SpecFloat :
  forallb (valid_binary 53 1024) operands = true /\
  agree fmul (SFmul 53 1024) = true /\
  agree fsub (SFsub 53 1024) = true /\
  agree_div = true.
Proof.
  split; [|split; [|split]]; vm_compute; reflexivity.
Qed.

(** ** Powers of two, logarithm, rounding to an integer *)

Lemma Fin_inj a b : Fin a = Fin b -> a = b.
Proof. intros H. congruence. Qed.

Lemma pow2_pos e : 0 < pow2 e.
Proof. unfold pow2. apply Qpower_0_lt. reflexivity. Qed.

Lemma pow2_add a b : pow2 (a + b) == pow2 a * pow2 b.
Proof. unfold pow2. apply Qpower_plus. discriminate. Qed.

Lemma pow2_sub a b : pow2 (a - b) == pow2 a / pow2 b.
Proof. unfold pow2. apply Qpower_minus. discriminate. Qed.

Lemma pow2_le a b : (a <= b)%Z -> pow2 a <= pow2 b.
Proof. intros H. unfold pow2. apply Qpower_le_compat_l; [exact H | discriminate]. Qed.

Lemma pow2_lt a b : (a < b)%Z -> pow2 a < pow2 b.
Proof. intros H. unfold pow2. apply Qpower_lt_compat_l; [exact H | reflexivity]. Qed.

Lemma pow2_Z e : (0 <= e)%Z -> pow2 e == inject_Z (2 ^ e).
Proof. intros H. unfold pow2. rewrite Zpower_Qpower by exact H. reflexivity. Qed.

Lemma Qabs_make n d : Qabs (n # d) == inject_Z (Z.abs n) / inject_Z (Zpos d).
Proof.
  unfold Qabs. rewrite (Qmake_Qdiv (Z.abs n) d). reflexivity.
Qed.

Lemma ilog2_spec q : ~ q == 0 -> pow2 (ilog2 q) <= Qabs q /\ Qabs q < pow2 (ilog2 q + 1).
Proof.
  intros Hq. unfold ilog2. destruct q as [n d]. cbn [Qnum Qden].
  set (k := (Z.log2 (Z.abs n) - Z.log2 (Zpos d))%Z).
  destruct (Qle_bool (pow2 k) (Qabs (n # d))) eqn:E.
  - apply Qle_bool_iff in E. split; [exact E|].
    assert (Hn : (0 < Z.abs n)%Z).
    { destruct n; try lia. exfalso. apply Hq. reflexivity. }
    rewrite Qabs_make.
    pose proof (Z.log2_spec (Z.abs n) Hn) as [_ Hn2].
    pose proof (Z.log2_spec (Zpos d) eq_refl) as [Hd1 _].
    pose proof (Z.log2_nonneg (Z.abs n)) as L1.
    pose proof (Z.log2_nonneg (Zpos d)) as L2.
    replace (k + 1)%Z with ((Z.succ (Z.log2 (Z.abs n))) - Z.log2 (Zpos d))%Z by (unfold k; lia).
    rewrite pow2_sub. rewrite !pow2_Z by lia.
    assert (A : inject_Z (Z.abs n) < inject_Z (2 ^ Z.succ (Z.log2 (Z.abs n)))) by (rewrite <- Zlt_Qlt; lia).
    assert (B : inject_Z (2 ^ Z.log2 (Zpos d)) <= inject_Z (Zpos d)) by (rewrite <- Zle_Qle; lia).
    assert (C : 0 < inject_Z (2 ^ Z.log2 (Zpos d))).
    { change 0 with (inject_Z 0). rewrite <- Zlt_Qlt. apply Z.pow_pos_nonneg; lia. }
    assert (D : 0 < inject_Z (2 ^ Z.succ (Z.log2 (Z.abs n)))).
    { change 0 with (inject_Z 0). rewrite <- Zlt_Qlt. apply Z.pow_pos_nonneg; lia. }
    set (X := inject_Z (2 ^ Z.succ (Z.log2 (Z.abs n)))) in *.
    set (Y := inject_Z (2 ^ Z.log2 (Zpos d))) in *.
    set (N := inject_Z (Z.abs n)) in *. set (Dd := inject_Z (Zpos d)) in *.
    apply Qlt_shift_div_l; [lra|].
    assert (N0 : 0 < N) by (unfold N; change 0 with (inject_Z 0); rewrite <- Zlt_Qlt; lia).
    assert (Dd0 : 0 < Dd) by reflexivity.
    assert (H : N / Dd * Y == (N * Y) / Dd) by (field; lra).
    rewrite H. apply Qlt_shift_div_r; [lra|]. nra.
  - assert (E' : Qabs (n # d) < pow2 k).
    { apply Qnot_le_lt. intros H. apply Qle_bool_iff in H. congruence. }
    split; [| replace (k - 1 + 1)%Z with k by lia; exact E'].
    assert (Hn : (0 < Z.abs n)%Z).
    { destruct n; try lia. exfalso. apply Hq. reflexivity. }
    rewrite Qabs_make.
    pose proof (Z.log2_spec (Z.abs n) Hn) as [Hn1 _].
    pose proof (Z.log2_spec (Zpos d) eq_refl) as [_ Hd2].
    pose proof (Z.log2_nonneg (Z.abs n)) as L1.
    pose proof (Z.log2_nonneg (Zpos d)) as L2.
    replace (k - 1)%Z with ((Z.log2 (Z.abs n)) - Z.succ (Z.log2 (Zpos d)))%Z by (unfold k; lia).
    rewrite pow2_sub. rewrite !pow2_Z by lia.
    assert (A : inject_Z (2 ^ (Z.log2 (Z.abs n))) <= inject_Z (Z.abs n)) by (rewrite <- Zle_Qle; lia).
    assert (B : inject_Z (Zpos d) < inject_Z (2 ^ Z.succ (Z.log2 (Zpos d)))) by (rewrite <- Zlt_Qlt; lia).
    assert (C : 0 < inject_Z (Zpos d)) by reflexivity.
    assert (D : 0 < inject_Z (2 ^ (Z.log2 (Z.abs n)))).
    { change 0 with (inject_Z 0). rewrite <- Zlt_Qlt. apply Z.pow_pos_nonneg; lia. }
    set (X := inject_Z (2 ^ (Z.log2 (Z.abs n)))) in *.
    set (Y := inject_Z (2 ^ Z.succ (Z.log2 (Zpos d)))) in *.
    set (N := inject_Z (Z.abs n)) in *. set (Dd := inject_Z (Zpos d)) in *.
    assert (N0 : 0 < N) by (unfold N; change 0 with (inject_Z 0); rewrite <- Zlt_Qlt; lia).
    assert (Y0 : 0 < Y) by lra.
    apply Qle_shift_div_l; [lra|].
    assert (H : X / Y * Dd == (X * Dd) / Y) by (field; lra).
    rewrite H. apply Qle_shift_div_r; [lra|]. nra.
Qed.

Lemma rne_cases q :
  let f := Qfloor q in
  (rne q = f /\ q - inject_Z f <= 1#2) \/ (rne q = (f + 1)%Z /\ 1#2 <= q - inject_Z f).
Proof.
  intros f. unfold rne. fold f.
  destruct (q - inject_Z f ?= 1 # 2) eqn:E.
  - apply Qeq_alt in E. destruct (Z.even f); [left | right]; split; auto; lra.
  - apply Qlt_alt in E. left. split; auto. lra.
  - apply Qgt_alt in E. right. split; auto. lra.
Qed.

Lemma rne_err q : Qabs (inject_Z (rne q) - q) <= 1#2.
Proof.
  pose proof (Qfloor_le q) as H1. pose proof (Qlt_floor q) as H2.
  rewrite inject_Z_plus in H2. change (inject_Z 1) with 1 in H2.
  apply Qabs_Qle_condition.
  destruct (rne_cases q) as [[-> H]|[-> H]]; rewrite ?inject_Z_plus;
    change (inject_Z 1) with 1; lra.
Qed.

Lemma rne_Z z : rne (inject_Z z) = z.
Proof.
  unfold rne. rewrite Qfloor_Z.
  assert (H : inject_Z z - inject_Z z == 0) by ring.
  rewrite H. reflexivity.
Qed.

Lemma rne_comp q q' : q == q' -> rne q = rne q'.
Proof.
  intros H. unfold rne. rewrite (Qfloor_comp _ _ H).
  assert (E : q - inject_Z (Qfloor q') == q' - inject_Z (Qfloor q')) by (rewrite H; reflexivity).
  rewrite E. reflexivity.
Qed.

Lemma rne_ge q k : inject_Z k <= q -> (k <= rne q)%Z.
Proof.
  intros H. apply Qfloor_resp_le in H. rewrite Qfloor_Z in H.
  destruct (rne_cases q) as [[-> _]|[-> _]]; lia.
Qed.

Lemma rne_le q k : q <= inject_Z k -> (rne q <= k)%Z.
Proof.
  intros H. pose proof (Qfloor_resp_le _ _ H) as H1. rewrite Qfloor_Z in H1.
  destruct (rne_cases q) as [[-> _]|[-> H2]]; [lia|].
  destruct (Z.eq_dec (Qfloor q) k) as [E|E]; [|lia].
  rewrite E in H2. lra.
Qed.

Lemma b64_exp_ge q : (-1074 <= b64_exp q)%Z.
Proof. unfold b64_exp. lia. Qed.

Lemma ilog2_lt q k : ~ q == 0 -> Qabs q < pow2 k -> (ilog2 q < k)%Z.
Proof.
  intros Hq H. destruct (ilog2_spec q Hq) as [H1 _].
  apply (Qpower_lt_compat_l_inv (2#1)); [|reflexivity].
  fold (pow2 (ilog2 q)). fold (pow2 k). lra.
Qed.

Lemma b64_exp_le q k : ~ q == 0 -> Qabs q < pow2 k -> (b64_exp q <= Z.max (k - 53) (-1074))%Z.
Proof.
  intros Hq H. pose proof (ilog2_lt q k Hq H). unfold b64_exp. lia.
Qed.

Lemma Qabs_div_pow2 q e : Qabs (q / pow2 e) == Qabs q / pow2 e.
Proof.
  unfold Qdiv. rewrite Qabs_Qmult, Qabs_Qinv.
  rewrite (Qabs_pos (pow2 e)); [reflexivity|]. apply Qlt_le_weak, pow2_pos.
Qed.

(** The scaled value lies within the 53-bit range. *)
Lemma b64_scaled_bound q : ~ q == 0 -> Qabs (q / pow2 (b64_exp q)) < inject_Z (2 ^ 53).
Proof.
  intros Hq. destruct (ilog2_spec q Hq) as [_ H2].
  rewrite Qabs_div_pow2. apply Qlt_shift_div_r; [apply pow2_pos|].
  rewrite <- pow2_Z by lia. rewrite <- pow2_add.
  eapply Qlt_le_trans; [exact H2|]. apply pow2_le. unfold b64_exp. lia.
Qed.

Lemma b64_mant_bound q : ~ q == 0 -> (Z.abs (rne (q / pow2 (b64_exp q))) <= 2 ^ 53)%Z.
Proof.
  intros Hq. pose proof (b64_scaled_bound q Hq) as H.
  apply Qabs_Qlt_condition in H. destruct H as [H1 H2].
  assert (A : (rne (q / pow2 (b64_exp q)) <= 2 ^ 53)%Z) by (apply rne_le; lra).
  assert (B : (- 2 ^ 53 <= rne (q / pow2 (b64_exp q)))%Z).
  { apply rne_ge. rewrite inject_Z_opp. lra. }
  lia.
Qed.

Lemma b64_round_unfold q :
  ~ q == 0 ->
  let v := inject_Z (rne (q / pow2 (b64_exp q))) * pow2 (b64_exp q) in
  (pow2 1024 <= Qabs v /\ b64_round q = Inf (negb (Qle_bool 0 q))) \/
  (Qabs v < pow2 1024 /\ b64_round q = Fin (Qred v)).
Proof.
  intros Hq v. unfold b64_round.
  destruct (Qeq_bool q 0) eqn:E. { apply Qeq_bool_iff in E. contradiction. }
  fold v. destruct (Qle_bool (pow2 1024) (Qabs v)) eqn:F.
  - left. split; auto. apply Qle_bool_iff. exact F.
  - right. split; auto. apply Qnot_le_lt. intros H. apply Qle_bool_iff in H. congruence.
Qed.

Lemma b64_round_err_aux q :
  ~ q == 0 ->
  Qabs (inject_Z (rne (q / pow2 (b64_exp q))) * pow2 (b64_exp q) - q) <= pow2 (b64_exp q - 1).
Proof.
  intros Hq. set (e := b64_exp q). pose proof (pow2_pos e) as He.
  pose proof (rne_err (q / pow2 e)) as H.
  assert (E : inject_Z (rne (q / pow2 e)) * pow2 e - q ==
              (inject_Z (rne (q / pow2 e)) - q / pow2 e) * pow2 e) by (field; lra).
  rewrite E, Qabs_Qmult, (Qabs_pos (pow2 e)) by lra.
  rewrite pow2_sub. change (pow2 1) with (2#1).
  set (x := Qabs _) in *. 
  assert (x * pow2 e <= (1#2) * pow2 e) by nra.
  assert (pow2 e / (2#1) == (1#2) * pow2 e) by field. lra.
Qed.

Lemma mant_is_b64 m e :
  (Z.abs m <= 2 ^ 53)%Z -> (-1074 <= e)%Z ->
  Qabs (inject_Z m * pow2 e) < pow2 1024 -> is_b64 (inject_Z m * pow2 e).
Proof.
  intros Hm He Hv.
  destruct (Z.eq_dec (Z.abs m) (2 ^ 53)) as [E|E].
  - exists (Z.sgn m), (e + 53)%Z. repeat split; try lia; auto.
    rewrite pow2_add, (pow2_Z 53) by lia.
    assert (M : m = (Z.sgn m * 2 ^ 53)%Z) by lia.
    rewrite M at 1. rewrite inject_Z_mult. ring.
  - exists m, e. repeat split; try lia; auto.
Qed.

Lemma is_b64_comp q q' : q == q' -> is_b64 q -> is_b64 q'.
Proof.
  intros E (m & e & H1 & H2 & H3 & H4). exists m, e. rewrite <- E. auto.
Qed.

Lemma is_b64_0 : is_b64 0.
Proof. exists 0%Z, 0%Z. repeat split; try lia; reflexivity. Qed.

Lemma b64_round_valid q : valid_float (b64_round q).
Proof.
  destruct (Qeq_dec q 0) as [Hq|Hq].
  - unfold b64_round. rewrite (Qeq_eq_bool _ _ Hq). exact is_b64_0.
  - destruct (b64_round_unfold q Hq) as [[_ ->]|[Hv ->]]; [exact I|].
    unfold valid_float. eapply is_b64_comp; [symmetry; apply Qred_correct|].
    apply mant_is_b64; auto using b64_mant_bound, b64_exp_ge.
Qed.

(** Rounding a value below [2^k] stays finite and moves it by at most
    half a unit in the last place. *)
Lemma b64_round_fin q k :
  Qabs q < pow2 k -> (-1021 <= k <= 1023)%Z ->
  exists v, b64_round q = Fin v /\ Qabs (v - q) <= pow2 (k - 54) /\ is_b64 v.
Proof.
  intros Hk Hr.
  destruct (Qeq_dec q 0) as [Hq|Hq].
  - exists 0. unfold b64_round. rewrite (Qeq_eq_bool _ _ Hq). split; [reflexivity|].
    split; [|exact is_b64_0].
    assert (E : 0 - q == 0) by (rewrite Hq; ring). rewrite E.
    apply Qlt_le_weak, pow2_pos.
  - pose proof (b64_round_err_aux q Hq) as Herr.
    pose proof (b64_exp_le q k Hq Hk) as He.
    assert (He' : (b64_exp q - 1 <= k - 54)%Z) by lia.
    apply pow2_le in He'.
    pose proof (b64_round_valid q) as Hval.
    destruct (b64_round_unfold q Hq) as [[Hv _]|[Hv Hrd]].
    + exfalso.
      assert (T : Qabs (inject_Z (rne (q / pow2 (b64_exp q))) * pow2 (b64_exp q)) <=
                  Qabs q + pow2 (k - 54)).
      { set (v := _ * _) in *. 
        assert (v == (v - q) + q) by ring. rewrite H at 1.
        eapply Qle_trans; [apply Qabs_triangle|]. lra. }
      assert (P1 : pow2 (k - 54) < pow2 k) by (apply pow2_lt; lia).
      assert (P2 : pow2 k <= pow2 1023) by (apply pow2_le; lia).
      assert (P3 : pow2 1023 + pow2 1023 == pow2 1024).
      { change 1024%Z with (1023 + 1)%Z. rewrite pow2_add. change (pow2 1) with (2#1). ring. }
      lra.
    + rewrite Hrd in *. eexists. split; [reflexivity|]. split; [|exact Hval].
      rewrite Qred_correct. lra.
Qed.

Lemma b64_round_exact q : is_b64 q -> b64_round q = Fin (Qred q).
Proof.
  intros (m & e & Hm & He & Hq & Hlt).
  destruct (Qeq_dec q 0) as [Hz|Hz].
  - unfold b64_round. rewrite (Qeq_eq_bool _ _ Hz).
    rewrite (Qred_complete _ _ Hz). reflexivity.
  - assert (Hk : Qabs q < pow2 (e + 53)).
    { rewrite Hq, Qabs_Qmult, (Qabs_pos (pow2 e)) by (apply Qlt_le_weak, pow2_pos).
      rewrite pow2_add, (pow2_Z 53) by lia.
      assert (Qabs (inject_Z m) < inject_Z (2^53)).
      { apply Qabs_Qlt_condition. rewrite <- inject_Z_opp, <- !Zlt_Qlt. lia. }
      pose proof (pow2_pos e). nra. }
    pose proof (b64_exp_le q _ Hz Hk) as Hexp.
    pose proof (b64_exp_ge q) as Hexp'.
    set (e' := b64_exp q) in *.
    assert (Hs : q / pow2 e' == inject_Z (m * 2 ^ (e - e'))).
    { rewrite Hq, inject_Z_mult, <- pow2_Z by lia. rewrite pow2_sub.
      field. pose proof (pow2_pos e'). lra. }
    assert (Hv : inject_Z (rne (q / pow2 e')) * pow2 e' == q).
    { rewrite (rne_comp _ _ Hs), rne_Z, <- Hs. field. pose proof (pow2_pos e'). lra. }
    destruct (b64_round_unfold q Hz) as [[Hbig _]|[_ ->]].
    + fold e' in Hbig. rewrite Hv in Hbig. lra.
    + fold e'. f_equal. apply Qred_complete. exact Hv.
Qed.

(** Rounding never crosses an integer below [2^53]. *)
Lemma b64_round_ge_int q z v :
  Qabs q < pow2 53 -> b64_round q = Fin v -> inject_Z z <= q -> inject_Z z <= v.
Proof.
  intros Hk Hr Hz.
  destruct (Qeq_dec q 0) as [Hq|Hq].
  - unfold b64_round in Hr. rewrite (Qeq_eq_bool _ _ Hq) in Hr. inversion Hr. lra.
  - pose proof (b64_exp_le q _ Hq Hk) as He. pose proof (b64_exp_ge q) as He'.
    destruct (b64_round_unfold q Hq) as [[_ H]|[_ H]]; rewrite H in Hr; [discriminate|].
    apply Fin_inj in Hr. rewrite <- Hr, Qred_correct.
    set (e := b64_exp q) in *. pose proof (pow2_pos e) as Hp.
    assert (Hs : inject_Z (z * 2 ^ (- e)) <= q / pow2 e).
    { rewrite inject_Z_mult, <- pow2_Z by lia. 
      apply Qle_shift_div_l; [exact Hp|].
      rewrite <- Qmult_assoc, <- pow2_add. replace (- e + e)%Z with 0%Z by lia.
      change (pow2 0) with 1. lra. }
    apply rne_ge in Hs. rewrite Zle_Qle in Hs.
    rewrite inject_Z_mult, <- pow2_Z in Hs by lia.
    assert (P : pow2 (- e) * pow2 e == 1).
    { rewrite <- pow2_add. replace (- e + e)%Z with 0%Z by lia. reflexivity. }
    set (M := inject_Z (rne (q / pow2 e))) in *.
    assert (inject_Z z * (pow2 (-e) * pow2 e) <= M * pow2 e) by nra.
    rewrite P in H0. lra.
Qed.


Lemma b64_round_le_int q z v :
  Qabs q < pow2 53 -> b64_round q = Fin v -> q <= inject_Z z -> v <= inject_Z z.
Proof.
  intros Hk Hr Hz.
  destruct (Qeq_dec q 0) as [Hq|Hq].
  - unfold b64_round in Hr. rewrite (Qeq_eq_bool _ _ Hq) in Hr.
    apply Fin_inj in Hr. rewrite <- Hr. lra.
  - pose proof (b64_exp_le q _ Hq Hk) as He. pose proof (b64_exp_ge q) as He'.
    destruct (b64_round_unfold q Hq) as [[_ H]|[_ H]]; rewrite H in Hr; [discriminate|].
    apply Fin_inj in Hr. rewrite <- Hr, Qred_correct.
    set (e := b64_exp q) in *. pose proof (pow2_pos e) as Hp.
    assert (Hs : q / pow2 e <= inject_Z (z * 2 ^ (- e))).
    { rewrite inject_Z_mult, <- pow2_Z by lia.
      apply Qle_shift_div_r; [exact Hp|].
      rewrite <- Qmult_assoc, <- pow2_add. replace (- e + e)%Z with 0%Z by lia.
      change (pow2 0) with 1. lra. }
    apply rne_le in Hs. rewrite Zle_Qle in Hs.
    rewrite inject_Z_mult, <- pow2_Z in Hs by lia.
    assert (P : pow2 (- e) * pow2 e == 1).
    { rewrite <- pow2_add. replace (- e + e)%Z with 0%Z by lia. reflexivity. }
    set (M := inject_Z (rne (q / pow2 e))) in *.
    assert (T : M * pow2 e <= inject_Z z * (pow2 (-e) * pow2 e)) by nra.
    rewrite P in T. lra.
Qed.

(** The operations depend on the value of a rational only. *)
Lemma ilog2_comp q q' : ~ q == 0 -> q == q' -> ilog2 q = ilog2 q'.
Proof.
  intros Hq E. assert (Hq' : ~ q' == 0) by (rewrite <- E; exact Hq).
  destruct (ilog2_spec q Hq) as [A1 A2]. destruct (ilog2_spec q' Hq') as [B1 B2].
  pose proof (Qabs_wd _ _ E) as EA.
  assert (L1 : (ilog2 q < ilog2 q' + 1)%Z).
  { apply (Qpower_lt_compat_l_inv (2#1)); [|reflexivity]. unfold pow2 in *. lra. }
  assert (L2 : (ilog2 q' < ilog2 q + 1)%Z).
  { apply (Qpower_lt_compat_l_inv (2#1)); [|reflexivity]. unfold pow2 in *. lra. }
  lia.
Qed.

Lemma b64_round_comp q q' : q == q' -> b64_round q = b64_round q'.
Proof.
  intros E. unfold b64_round. rewrite <- (Qeqb_comp _ _ E 0 0 (Qeq_refl 0)).
  destruct (Qeq_bool q 0) eqn:Z0; [reflexivity|].
  apply Qeq_bool_neq in Z0.
  unfold b64_exp. rewrite <- (ilog2_comp q q' Z0 E).
  set (e := Z.max (ilog2 q - 52) (-1074)).
  assert (S : q / pow2 e == q' / pow2 e) by (rewrite E; reflexivity).
  rewrite <- (rne_comp _ _ S).
  assert (B : Qle_bool 0 q = Qle_bool 0 q').
  { destruct (Qle_bool 0 q) eqn:F, (Qle_bool 0 q') eqn:G; try reflexivity.
    - apply Qle_bool_iff in F. rewrite E in F. apply Qle_bool_iff in F. congruence.
    - apply Qle_bool_iff in G. rewrite <- E in G. apply Qle_bool_iff in G. congruence. }
  rewrite B. reflexivity.
Qed.

Lemma int_is_b64 z : (Z.abs z < 2 ^ 53)%Z -> is_b64 (inject_Z z).
Proof.
  intros H. exists z, 0%Z. repeat split; try lia.
  - change (pow2 0) with 1. ring.
  - apply Qabs_Qlt_condition. rewrite (pow2_Z 1024) by lia.
    rewrite <- inject_Z_opp, <- !Zlt_Qlt.
    assert ((2 ^ 53 < 2 ^ 1024)%Z) by (apply Z.pow_lt_mono_r; lia). lia.
Qed.

Lemma b64_round_int z :
  (Z.abs z < 2 ^ 53)%Z -> b64_round (inject_Z z) = Fin (inject_Z z).
Proof.
  intros H. rewrite (b64_round_exact _ (int_is_b64 z H)).
  f_equal. apply Qcanon.Qred_identity. apply Z.gcd_1_r.
Qed.

Lemma float_of_int_exact z :
  (Z.abs z < 2 ^ 53)%Z -> float_of_int z = Ok (Fin (inject_Z z)).
Proof.
  intros H. unfold float_of_int. rewrite (b64_round_int z H). reflexivity.
Qed.

(** ** Truncation *)

Lemma Qtrunc_nonneg q : 0 <= q -> Qtrunc q = Qfloor q.
Proof.
  intros H. unfold Qtrunc. apply Qle_bool_iff in H. rewrite H. reflexivity.
Qed.

Lemma Qtrunc_neg q : q < 0 -> Qtrunc q = (- Qfloor (- q))%Z.
Proof.
  intros H. unfold Qtrunc. destruct (Qle_bool 0 q) eqn:E; [|reflexivity].
  apply Qle_bool_iff in E. lra.
Qed.

(** [int(x)] of a rounded product stays within one unit of the exact
    product, as long as the product is below [2^53]. *)
Lemma trunc_round_close q :
  Qabs q < pow2 53 ->
  exists y, b64_round q = Fin y /\ is_b64 y /\
            Qabs (inject_Z (Qtrunc y) - q) < 1.
Proof.
  intros Hq.
  destruct (b64_round_fin q 53 Hq ltac:(lia)) as (y & Hy & _ & Hv).
  exists y. split; [exact Hy|]. split; [exact Hv|].
  apply Qabs_Qlt_condition.
  destruct (Qlt_le_dec y 0) as [Hneg|Hpos].
  - rewrite (Qtrunc_neg y Hneg). set (n := (- Qfloor (- y))%Z).
    pose proof (Qfloor_le (- y)) as F1. pose proof (Qlt_floor (- y)) as F2.
    replace (Qfloor (- y)) with (- n)%Z in F1, F2 by (unfold n; lia).
    rewrite inject_Z_plus, inject_Z_opp in F2. rewrite inject_Z_opp in F1.
    change (inject_Z 1) with 1 in F2.
    split.
    + apply Qnot_le_lt. intros C.
      assert (C' : inject_Z (n + 1) <= q) by (rewrite inject_Z_plus; change (inject_Z 1) with 1; lra).
      pose proof (b64_round_ge_int q _ y Hq Hy C') as G.
      rewrite inject_Z_plus in G. change (inject_Z 1) with 1 in G. lra.
    + apply Qnot_le_lt. intros C.
      assert (C' : q <= inject_Z (n - 1)).
      { unfold Z.sub. rewrite inject_Z_plus, inject_Z_opp. change (inject_Z 1) with 1. lra. }
      pose proof (b64_round_le_int q _ y Hq Hy C') as G.
      unfold Z.sub in G. rewrite inject_Z_plus, inject_Z_opp in G.
      change (inject_Z 1) with 1 in G. lra.
  - rewrite (Qtrunc_nonneg y Hpos). set (n := Qfloor y).
    pose proof (Qfloor_le y) as F1. pose proof (Qlt_floor y) as F2. fold n in F1, F2.
    rewrite inject_Z_plus in F2. change (inject_Z 1) with 1 in F2.
    split.
    + apply Qnot_le_lt. intros C.
      assert (C' : inject_Z (n + 1) <= q) by (rewrite inject_Z_plus; change (inject_Z 1) with 1; lra).
      pose proof (b64_round_ge_int q _ y Hq Hy C') as G.
      rewrite inject_Z_plus in G. change (inject_Z 1) with 1 in G. lra.
    + apply Qnot_le_lt. intros C.
      assert (C' : q <= inject_Z (n - 1)).
      { unfold Z.sub. rewrite inject_Z_plus, inject_Z_opp. change (inject_Z 1) with 1. lra. }
      pose proof (b64_round_le_int q _ y Hq Hy C') as G.
      unfold Z.sub in G. rewrite inject_Z_plus, inject_Z_opp in G.
      change (inject_Z 1) with 1 in G. lra.
Qed.

(** ** The steps of [to_deg] *)

(** Subtracting the integer part of a float is exact. *)
Lemma frac_step a :
  is_b64 a -> 0 <= a -> a < pow2 53 ->
  exists d, fsub_int (Fin a) (Qfloor a) = Ok (Fin d) /\
            d == a - inject_Z (Qfloor a) /\ is_b64 d.
Proof.
  intros Ha H0 H53.
  pose proof (Qfloor_le a) as F1. pose proof (Qlt_floor a) as F2.
  rewrite inject_Z_plus in F2. change (inject_Z 1) with 1 in F2.
  assert (Hf0 : (0 <= Qfloor a)%Z).
  { change 0%Z with (Qfloor 0). apply Qfloor_resp_le. exact H0. }
  assert (Hf : (Z.abs (Qfloor a) < 2 ^ 53)%Z).
  { rewrite (pow2_Z 53) in H53 by lia. rewrite Z.abs_eq by exact Hf0.
    rewrite Zlt_Qlt. lra. }
  unfold fsub_int. rewrite (float_of_int_exact _ Hf). cbn [bind fsub].
  assert (Hd : is_b64 (a - inject_Z (Qfloor a))).
  { destruct Ha as (m & e & Hm & He & Hq & Hlt).
    pose proof (pow2_pos e) as Pe.
    assert (Hm0 : (0 <= m)%Z).
    { rewrite Zle_Qle. change (inject_Z 0) with 0.
      destruct (Qlt_le_dec (inject_Z m) 0) as [C|C]; [|exact C]. nra. }
    destruct (Z_le_gt_dec 0 e) as [Ee|Ee].
    - assert (Hi : a == inject_Z (m * 2 ^ e)).
      { rewrite Hq, inject_Z_mult, <- pow2_Z by lia. reflexivity. }
      apply (is_b64_comp 0); [|exact is_b64_0].
      rewrite (Qfloor_comp _ _ Hi), Qfloor_Z, <- Hi. ring.
    - set (j := (- e)%Z). assert (Hj : (0 < j)%Z) by (unfold j; lia).
      assert (P2 : (0 < 2 ^ j)%Z) by (apply Z.pow_pos_nonneg; lia).
      assert (E1 : pow2 e == / pow2 j).
      { unfold j, pow2. rewrite <- Qpower_opp. replace (- - e)%Z with e by lia. reflexivity. }
      assert (Hi : a == inject_Z m / inject_Z (2 ^ j)).
      { rewrite Hq, <- pow2_Z, E1 by lia. reflexivity. }
      assert (Hfl : Qfloor a = (m / 2 ^ j)%Z).
      { rewrite (Qfloor_comp _ _ Hi). symmetry. apply Zdiv_Qdiv. }
      exists (m mod 2 ^ j)%Z, e.
      pose proof (Z.mod_pos_bound m (2 ^ j) P2) as Mb.
      pose proof (Z.mod_le m (2 ^ j) Hm0 P2) as Ml.
      repeat split; try lia.
      + rewrite Hfl. rewrite Z.mod_eq by lia.
        unfold Z.sub at 1. rewrite inject_Z_plus, inject_Z_opp, !inject_Z_mult.
        rewrite Hi. rewrite <- (pow2_Z j) by lia.
        pose proof (pow2_pos j) as Pj.
        rewrite E1. field. lra.
      + apply Qabs_Qlt_condition.
        assert (1 <= pow2 1024) by (apply (pow2_le 0 1024); lia). lra. }
  rewrite (b64_round_exact _ Hd). eexists. split; [reflexivity|].
  split; [apply Qred_correct|].
  eapply is_b64_comp; [symmetry; apply Qred_correct | exact Hd].
Qed.

(** Multiplying a fraction by 60 loses at most [2^-48]. *)
Lemma mul60_step d :
  0 <= d -> d < 1 ->
  exists t, fmul_int (Fin d) 60 = Ok (Fin t) /\
            Qabs (t - d * 60) <= pow2 (-48) /\ is_b64 t /\ 0 <= t.
Proof.
  intros H0 H1. unfold fmul_int.
  rewrite (float_of_int_exact 60) by (vm_compute; reflexivity).
  cbn [bind fmul]. change (inject_Z 60) with 60.
  assert (Hk : Qabs (d * 60) < pow2 6).
  { change (pow2 6) with 64. apply Qabs_Qlt_condition. lra. }
  destruct (b64_round_fin _ 6 Hk ltac:(lia)) as (t & Ht & Herr & Hv).
  exists t. rewrite Ht. split; [reflexivity|]. split; [exact Herr|]. split; [exact Hv|].
  assert (Hk' : Qabs (d * 60) < pow2 53).
  { eapply Qlt_trans; [exact Hk|]. apply pow2_lt. lia. }
  apply (b64_round_ge_int (d * 60) 0 t Hk' Ht). change (inject_Z 0) with 0. lra.
Qed.

(** [round(s, 5)] moves a value below 61 by at most half of [1e-5], plus
    the rounding of the result. *)
Lemma round5_step s :
  0 <= s -> s < 61 ->
  exists sec, py_round (Fin s) 5 = Ok (Fin sec) /\
              Qabs (sec - s) <= (1 # 200000) + pow2 (-48) /\
              is_b64 sec /\ 0 <= sec.
Proof.
  intros H0 H1. unfold py_round.
  change (323 <? 5)%Z with false. change (5 <? -308)%Z with false. cbv iota.
  change ((10 # 1) ^ 5) with 100000.
  set (n := rne (s * 100000)).
  pose proof (rne_err (s * 100000)) as Hn. fold n in Hn.
  apply Qabs_Qle_condition in Hn.
  assert (Hn0 : (0 <= n)%Z) by (apply rne_ge; change (inject_Z 0) with 0; lra).
  rewrite Zle_Qle in Hn0. change (inject_Z 0) with 0 in Hn0.
  set (x := inject_Z n / 100000).
  assert (Hx : inject_Z n == x * 100000) by (unfold x; field).
  assert (Hk : Qabs x < pow2 6).
  { change (pow2 6) with 64. apply Qabs_Qlt_condition. lra. }
  destruct (b64_round_fin _ 6 Hk ltac:(lia)) as (sec & Hs & Herr & Hv).
  exists sec. rewrite Hs. split; [reflexivity|].
  change (pow2 (6 - 54)) with (pow2 (-48)) in Herr.
  apply Qabs_Qle_condition in Herr.
  split; [|split; [exact Hv|]].
  - apply Qabs_Qle_condition. lra.
  - assert (Hk' : Qabs x < pow2 53).
    { eapply Qlt_trans; [exact Hk|]. apply pow2_lt. lia. }
    apply (b64_round_ge_int x 0 sec Hk' Hs). change (inject_Z 0) with 0. lra.
Qed.

Lemma Qfloor_nonneg q : 0 <= q -> (0 <= Qfloor q)%Z.
Proof. intros H. change 0%Z with (Qfloor 0). apply Qfloor_resp_le. exact H. Qed.

(** [to_deg] on a finite value below 256: it returns, and the triple
    reproduces the magnitude up to [1.5e-9]. *)
Lemma to_deg_value v p s :
  is_b64 v -> Qabs v < 256 ->
  exists deg min sec,
    to_deg (Fin v) [p; s] =
      Ok (deg, min, Fin sec,
          if flt_int (Fin v) 0 then s else if fgt_int (Fin v) 0 then p else EmptyString) /\
    deg = Qfloor (Qabs v) /\ (0 <= min)%Z /\ 0 <= sec /\ sec < 61 /\ is_b64 sec /\
    (exists f t1 r s0,
       fsub_int (Fin (Qabs v)) deg = Ok (Fin f) /\
       fmul_int (Fin f) 60 = Ok (Fin t1) /\
       min = Qfloor t1 /\
       fsub_int (Fin t1) min = Ok (Fin r) /\
       fmul_int (Fin r) 60 = Ok (Fin s0) /\
       py_round (Fin s0) 5 = Ok (Fin sec)) /\
    Qabs (inject_Z deg + inject_Z min / 60 + sec / 3600 - Qabs v)
      <= 15 # 10000000000.
Proof.
  intros Hv Hr. unfold to_deg.
  assert (Hloc : (if flt_int (Fin v) 0 then list_index [p; s] 1
                  else if fgt_int (Fin v) 0 then list_index [p; s] 0 else Ok EmptyString) =
                 Ok (if flt_int (Fin v) 0 then s else if fgt_int (Fin v) 0 then p else EmptyString)).
  { destruct (flt_int (Fin v) 0); [reflexivity|]. destruct (fgt_int (Fin v) 0); reflexivity. }
  rewrite Hloc. cbn [bind fabs int_of_float].
  set (a := Qabs v).
  assert (Ha0 : 0 <= a) by apply Qabs_nonneg.
  assert (Ha : is_b64 a).
  { destruct Hv as (m & e & Hm & He & Hq & Hlt).
    exists (Z.abs m), e. repeat split; try lia.
    - unfold a. rewrite Hq, Qabs_Qmult, (Qabs_pos (pow2 e)) by (apply Qlt_le_weak, pow2_pos).
      apply Qmult_comp; [|reflexivity]. destruct m; reflexivity.
    - unfold a. rewrite (Qabs_pos (Qabs v)) by apply Qabs_nonneg. exact Hlt. }
  assert (Ha53 : a < pow2 53).
  { eapply Qlt_trans; [exact Hr|]. change 256 with (pow2 8). apply pow2_lt. lia. }
  rewrite (Qtrunc_nonneg a Ha0).
  destruct (frac_step a Ha Ha0 Ha53) as (d & Hd & Ed & Vd). rewrite Hd. cbn [bind].
  pose proof (Qfloor_le a) as F1. pose proof (Qlt_floor a) as F2.
  rewrite inject_Z_plus in F2. change (inject_Z 1) with 1 in F2.
  destruct (mul60_step d) as (t1 & Ht1 & Et1 & Vt1 & Pt1); [lra|lra|].
  rewrite Ht1. cbn [bind int_of_float]. rewrite (Qtrunc_nonneg t1 Pt1).
  apply Qabs_Qle_condition in Et1.
  assert (P48 : pow2 (-48) == 1 # 281474976710656) by reflexivity.
  assert (Ht53 : t1 < pow2 53).
  { apply (Qlt_trans _ 64); [lra|]. change 64 with (pow2 6). apply pow2_lt. lia. }
  destruct (frac_step t1 Vt1 Pt1 Ht53) as (r & Hr' & Er & Vr). rewrite Hr'. cbn [bind].
  pose proof (Qfloor_le t1) as G1. pose proof (Qlt_floor t1) as G2.
  rewrite inject_Z_plus in G2. change (inject_Z 1) with 1 in G2.
  destruct (mul60_step r) as (s0 & Hs0 & Es0 & Vs0 & Ps0); [lra|lra|].
  rewrite Hs0. cbn [bind]. apply Qabs_Qle_condition in Es0.
  destruct (round5_step s0) as (sec & Hsec & Esec & Vsec & Psec); [lra|lra|].
  rewrite Hsec. cbn [bind]. apply Qabs_Qle_condition in Esec.
  exists (Qfloor a), (Qfloor t1), sec. split; [reflexivity|].
  split; [reflexivity|]. split; [apply Qfloor_nonneg; exact Pt1|].
  split; [exact Psec|]. split; [lra|]. split; [exact Vsec|].
  split; [exists d, t1, r, s0; repeat split; assumption|].
  apply Qabs_Qle_condition.
  set (D := inject_Z (Qfloor a)) in *. set (M := inject_Z (Qfloor t1)) in *.
  assert (X1 : M / 60 == M * (1 # 60)) by field.
  assert (X2 : sec / 3600 == sec * (1 # 3600)) by field.
  rewrite X1, X2. lra.
Qed.

(** ** The fixed-point rationals *)

Lemma to_rational_close v scale :
  (0 < scale < 2 ^ 53)%Z -> Qabs (v * inject_Z scale) < pow2 53 ->
  exists y, fmul_int (Fin v) scale = Ok (Fin y) /\
            to_rational (Fin v) scale = Ok (Qtrunc y, scale) /\
            Qabs (inject_Z (Qtrunc y) / inject_Z scale - v) < 1 / inject_Z scale.
Proof.
  intros Hs Hq. unfold to_rational, fmul_int.
  rewrite (float_of_int_exact scale) by lia. cbn [bind fmul].
  destruct (trunc_round_close _ Hq) as (y & Hy & _ & Hc).
  exists y. rewrite Hy. cbn [bind int_of_float]. split; [reflexivity|]. split; [reflexivity|].
  assert (S0 : 0 < inject_Z scale).
  { change 0 with (inject_Z 0). rewrite <- Zlt_Qlt. lia. }
  set (S := inject_Z scale) in *. set (N := inject_Z (Qtrunc y)) in *.
  assert (E : N / S - v == (N - v * S) / S) by (field; lra).
  rewrite E. unfold Qdiv. rewrite Qabs_Qmult.
  rewrite (Qabs_pos (/ S)) by (apply Qlt_le_weak, Qinv_lt_0_compat; exact S0).
  apply Qmult_lt_compat_r; [apply Qinv_lt_0_compat; exact S0 | exact Hc].
Qed.

(* ===================================================================== *)
(** * The coordinate encoder                                               *)
(* ===================================================================== *)

Lemma flt_int_0 v : flt_int (Fin v) 0 = true <-> v < 0.
Proof.
  unfold flt_int. change (inject_Z 0) with 0. destruct (Qle_bool 0 v) eqn:E; cbn [negb].
  - apply Qle_bool_iff in E. split; [discriminate | lra].
  - split; [intros _|reflexivity]. apply Qnot_le_lt. intros H.
    apply Qle_bool_iff in H. congruence.
Qed.

Lemma fgt_int_0 v : fgt_int (Fin v) 0 = true <-> 0 < v.
Proof.
  unfold fgt_int. change (inject_Z 0) with 0. destruct (Qle_bool v 0) eqn:E; cbn [negb].
  - apply Qle_bool_iff in E. split; [discriminate | lra].
  - split; [intros _|reflexivity]. apply Qnot_le_lt. intros H.
    apply Qle_bool_iff in H. congruence.
Qed.

(** The hemisphere chosen by [to_deg]. *)
Lemma hemisphere_cases v (p s : string) :
  (v < 0 /\ flt_int (Fin v) 0 = true) \/
  (0 < v /\ flt_int (Fin v) 0 = false /\ fgt_int (Fin v) 0 = true) \/
  (v == 0 /\ flt_int (Fin v) 0 = false /\ fgt_int (Fin v) 0 = false).
Proof.
  destruct (flt_int (Fin v) 0) eqn:A.
  - left. split; [apply flt_int_0; exact A | reflexivity].
  - right. destruct (fgt_int (Fin v) 0) eqn:B.
    + left. split; [apply fgt_int_0; exact B | auto].
    + right. split; [|auto].
      destruct (Qlt_le_dec v 0) as [C|C].
      { apply flt_int_0 in C. congruence. }
      destruct (Qlt_le_dec 0 v) as [D|D].
      { apply fgt_int_0 in D. congruence. }
      lra.
Qed.

(** C4: on a value in (-90, 90), [to_deg] returns; the hemisphere is the
    primary one for a positive value, the secondary one for a negative
    value and the empty reference for zero; degrees, minutes and seconds
    are floor(|value|), floor((|value| - degrees) * 60) and
    round(((|value| - degrees) * 60 - minutes) * 60, 5), computed in float
    arithmetic; and degrees + minutes/60 + seconds/3600 is within 1e-5 of
    |value|. *)
Theorem to_deg_dms (value : Q) (primary secondary : string) :
  is_b64 value -> -90 < value -> value < 90 ->
  exists degrees minutes seconds hemisphere,
    to_deg (Fin value) [primary; secondary]
      = Ok (degrees, minutes, Fin seconds, hemisphere) /\
    (0 < value -> hemisphere = primary) /\
    (value < 0 -> hemisphere = secondary) /\
    (value == 0 -> hemisphere = EmptyString) /\
    degrees = Qfloor (Qabs value) /\
    (exists f t1 r s,
       fsub_int (Fin (Qabs value)) degrees = Ok (Fin f) /\
       fmul_int (Fin f) 60 = Ok (Fin t1) /\
       minutes = Qfloor t1 /\
       fsub_int (Fin t1) minutes = Ok (Fin r) /\
       fmul_int (Fin r) 60 = Ok (Fin s) /\
       py_round (Fin s) 5 = Ok (Fin seconds)) /\
    Qabs (inject_Z degrees + inject_Z minutes / 60 + seconds / 3600 - Qabs value)
      <= 1 # 100000.
Proof.
  intros Hv Hlo Hhi.
  assert (Hr : Qabs value < 256) by (apply Qabs_Qlt_condition; lra).
  destruct (to_deg_value value primary secondary Hv Hr)
    as (deg & min & sec & Hd & Edeg & _ & _ & _ & _ & Hchain & Hrec).
  exists deg, min, sec. eexists. split; [exact Hd|].
  destruct (hemisphere_cases value primary secondary)
    as [[C A]|[[C [A B]]|[C [A B]]]]; rewrite A, ?B.
  - repeat split; auto; intros; lra.
  - repeat split; auto; intros; lra.
  - repeat split; auto; intros; lra.
Qed.

Lemma to_deg_dms_witness :
  is_b64 (321 # 8) /\ -90 < 321 # 8 /\ 321 # 8 < 90 /\
  exists degrees minutes seconds hemisphere,
    to_deg (Fin (321 # 8)) ["N"%string; "S"%string]
      = Ok (degrees, minutes, Fin seconds, hemisphere) /\
    (0 < 321 # 8 -> hemisphere = "N"%string) /\
    (321 # 8 < 0 -> hemisphere = "S"%string) /\
    (321 # 8 == 0 -> hemisphere = EmptyString) /\
    degrees = Qfloor (Qabs (321 # 8)) /\
    (exists f t1 r s,
       fsub_int (Fin (Qabs (321 # 8))) degrees = Ok (Fin f) /\
       fmul_int (Fin f) 60 = Ok (Fin t1) /\
       minutes = Qfloor t1 /\
       fsub_int (Fin t1) minutes = Ok (Fin r) /\
       fmul_int (Fin r) 60 = Ok (Fin s) /\
       py_round (Fin s) 5 = Ok (Fin seconds)) /\
    Qabs (inject_Z degrees + inject_Z minutes / 60 + seconds / 3600 - Qabs (321 # 8))
      <= 1 # 100000.
Proof.
  assert (H : is_b64 (321 # 8)).
  { exists 321%Z, (-3)%Z. repeat split; try lia; vm_compute; reflexivity. }
  split; [exact H|]. split; [reflexivity|]. split; [reflexivity|].
  apply (to_deg_dms (321 # 8) "N" "S" H); reflexivity.
Defined.

(** C5 (as stated, refuted): for the altitude 50.9375 the encoder produces
    the numerator 5093, which is neither round(5093.75) = 5094 nor within
    0.5/100 of the value: the numerator is truncated, not rounded. *)
Lemma to_rational_not_rounded :
  to_rational (Fin (815 # 16)) 100 = Ok (5093%Z, 100%Z) /\
  rne ((815 # 16) * inject_Z 100) = 5094%Z /\
  ~ Qabs (rational_value (5093%Z, 100%Z) - (815 # 16)) <= (1 # 2) / inject_Z 100.
Proof.
  split; [vm_compute; reflexivity|]. split; [vm_compute; reflexivity|].
  apply Qlt_not_le. vm_compute. reflexivity.
Qed.

(** C5 (amended): for the scales 100 and 100000 and a value whose product
    with the scale is below 2^53, the encoder produces the numerator
    int(value * scale), the float product truncated toward zero, with the
    scale as denominator, and numerator/denominator is within 1/scale of
    the value. *)
Theorem to_rational_truncates (value : Q) (scale : Z) :
  (scale = 100 \/ scale = 100000)%Z ->
  Qabs (value * inject_Z scale) < pow2 53 ->
  exists y,
    fmul_int (Fin value) scale = Ok (Fin y) /\
    to_rational (Fin value) scale = Ok (Qtrunc y, scale) /\
    Qabs (rational_value (Qtrunc y, scale) - value) < 1 / inject_Z scale.
Proof.
  intros Hs Hq.
  assert (Hs' : (0 < scale < 2 ^ 53)%Z) by (destruct Hs; subst; split; reflexivity).
  exact (to_rational_close value scale Hs' Hq).
Qed.

Lemma to_rational_truncates_witness :
  (100 = 100 \/ 100 = 100000)%Z /\
  Qabs ((815 # 16) * inject_Z 100) < pow2 53 /\
  exists y,
    fmul_int (Fin (815 # 16)) 100 = Ok (Fin y) /\
    to_rational (Fin (815 # 16)) 100 = Ok (Qtrunc y, 100%Z) /\
    Qabs (rational_value (Qtrunc y, 100%Z) - (815 # 16)) < 1 / inject_Z 100.
Proof.
  split; [left; reflexivity|]. split; [vm_compute; reflexivity|].
  apply (to_rational_truncates (815 # 16) 100); [left; reflexivity | vm_compute; reflexivity].
Defined.

(** The seconds are rounded to five places by [to_deg] and then
    truncated again by the encoder: the float nearest to 0.01681 times
    100000 is just below 1681. *)
Example seconds_numerator_truncated :
  py_round (b64_round (1681 # 100000)) 5 = Ok (b64_round (1681 # 100000)) /\
  to_rational (b64_round (1681 # 100000)) 100000 = Ok (1680%Z, 100000%Z).
Proof. split; vm_compute; reflexivity. Qed.

(** ** Round trip *)

Lemma decode_coordinate_close v (p s : string) deg min sec y :
  s <> EmptyString -> p <> s ->
  Qabs (inject_Z deg + inject_Z min / 60 + sec / 3600 - Qabs v) <= 15 # 10000000000 ->
  Qabs (inject_Z y / inject_Z 100000 - sec) < 1 / inject_Z 100000 ->
  Qabs (decode_coordinate s
          (if flt_int (Fin v) 0 then s else if fgt_int (Fin v) 0 then p else EmptyString)
          ((deg, 1%Z), (min, 1%Z), (y, 100000%Z)) - v) <= 1 # 100000.
Proof.
  intros Hs Hps Hrec Hy. unfold decode_coordinate, dms_value, rational_value.
  cbn [fst snd]. change (inject_Z 1) with 1. change (inject_Z 100000) with 100000 in *.
  apply Qabs_Qle_condition in Hrec. apply Qabs_Qlt_condition in Hy.
  set (D := inject_Z deg) in *. set (M := inject_Z min) in *. set (Y := inject_Z y) in *.
  assert (X1 : M / 60 == M * (1 # 60)) by field.
  assert (X2 : sec / 3600 == sec * (1 # 3600)) by field.
  assert (X3 : Y / 100000 == Y * (1 # 100000)) by field.
  assert (X4 : D / 1 + M / 1 / 60 + Y / 100000 / 3600
               == D + M * (1 # 60) + Y * (1 # 360000000)) by field.
  assert (X5 : 1 / 100000 == 1 # 100000) by reflexivity.
  rewrite X1, X2 in Hrec. rewrite X3, X5 in Hy.
  destruct (hemisphere_cases v p s) as [[C A]|[[C [A B]]|[C [A B]]]]; rewrite A, ?B.
  - rewrite String.eqb_refl. rewrite (Qabs_neg v) in Hrec by lra.
    apply Qabs_Qle_condition. rewrite X4. lra.
  - assert (E : String.eqb p s = false) by (apply String.eqb_neq; exact Hps).
    rewrite E. rewrite (Qabs_pos v) in Hrec by lra.
    apply Qabs_Qle_condition. rewrite X4. lra.
  - assert (E : String.eqb EmptyString s = false).
    { apply String.eqb_neq. intros F. apply Hs. symmetry. exact F. }
    rewrite E. rewrite (Qabs_pos v) in Hrec by lra.
    apply Qabs_Qle_condition. rewrite X4. lra.
Qed.

(** C6 (as stated, refuted): the altitude 2^60 + 256 is a float; its
    product with 100 is rounded by 7168 before it is truncated, and the
    rational read back is 71.68 above the altitude. *)
Lemma huge_altitude_round_trip :
  is_b64 (inject_Z (2 ^ 60 + 256)) /\
  exists g,
    encode_gps (Fin 0) (Fin 0) (Fin (inject_Z (2 ^ 60 + 256))) = Ok g /\
    decode_altitude g - inject_Z (2 ^ 60 + 256) == 7168 # 100 /\
    ~ Qabs (decode_altitude g - inject_Z (2 ^ 60 + 256)) <= 1 # 100.
Proof.
  split.
  - exists (2 ^ 52 + 1)%Z, 8%Z. repeat split; try lia; vm_compute; reflexivity.
  - eexists. split; [vm_compute; reflexivity|].
    split; [vm_compute; reflexivity|].
    apply Qlt_not_le. vm_compute. reflexivity.
Qed.

(** C6 (amended): a sample with latitude in [-90, 90], longitude in
    [-180, 180] and an altitude whose hundredfold is below 2^53 is
    encoded; the altitude rational has denominator 100 and the reference
    "above sea level"; and reading the group back gives the latitude and
    the longitude within 1e-5 degrees and the altitude within 0.01. *)
Theorem encode_decode_round_trip (lat lon abs_alt : Q) :
  is_b64 lat -> is_b64 lon ->
  -90 <= lat <= 90 -> -180 <= lon <= 180 ->
  Qabs (abs_alt * inject_Z 100) < pow2 53 ->
  exists g,
    encode_gps (Fin lat) (Fin lon) (Fin abs_alt) = Ok g /\
    snd (GPSAltitude g) = 100%Z /\ GPSAltitudeRef g = 0%Z /\
    Qabs (decode_latitude g - lat) <= 1 # 100000 /\
    Qabs (decode_longitude g - lon) <= 1 # 100000 /\
    Qabs (decode_altitude g - abs_alt) <= 1 # 100.
Proof.
  intros Vlat Vlon Rlat Rlon Ralt. unfold encode_gps.
  assert (Hlat : Qabs lat < 256) by (apply Qabs_Qlt_condition; lra).
  assert (Hlon : Qabs lon < 256) by (apply Qabs_Qlt_condition; lra).
  destruct (to_deg_value lat "N" "S" Vlat Hlat)
    as (d1 & m1 & s1 & E1 & _ & _ & P1 & U1 & _ & _ & B1).
  destruct (to_deg_value lon "E" "W" Vlon Hlon)
    as (d2 & m2 & s2 & E2 & _ & _ & P2 & U2 & _ & _ & B2).
  rewrite E1, E2. cbn [bind].
  destruct (to_rational_close abs_alt 100 ltac:(split; reflexivity) Ralt)
    as (ya & _ & Ea & Ca).
  rewrite Ea. cbn [bind].
  assert (S53 : forall x, 0 <= x -> x < 61 -> Qabs (x * inject_Z 100000) < pow2 53).
  { intros x X0 X1. apply (Qlt_trans _ (pow2 23)); [|apply pow2_lt; lia].
    change (pow2 23) with 8388608. change (inject_Z 100000) with 100000.
    apply Qabs_Qlt_condition. lra. }
  destruct (to_rational_close s1 100000 ltac:(split; reflexivity) (S53 s1 P1 U1))
    as (y1 & _ & Y1 & C1).
  destruct (to_rational_close s2 100000 ltac:(split; reflexivity) (S53 s2 P2 U2))
    as (y2 & _ & Y2 & C2).
  unfold make_gps_ifd, dms_rationals, loc_of. cbn [bind].
  rewrite Y1, Y2. cbn [bind].
  eexists. split; [reflexivity|].
  unfold decode_latitude, decode_longitude, decode_altitude.
  cbn [GPSLatitudeRef GPSLatitude GPSLongitudeRef GPSLongitude GPSAltitudeRef GPSAltitude snd].
  split; [reflexivity|]. split; [reflexivity|].
  split; [|split].
  - apply (decode_coordinate_close lat "N" "S" d1 m1 s1 (Qtrunc y1));
      try discriminate; assumption.
  - apply (decode_coordinate_close lon "E" "W" d2 m2 s2 (Qtrunc y2));
      try discriminate; assumption.
  - change (0 =? 1)%Z with false. cbv iota. unfold rational_value in *. cbn [fst snd] in *.
    change (1 / inject_Z 100) with (1 # 100) in Ca. apply Qlt_le_weak. exact Ca.
Qed.

Lemma encode_decode_round_trip_witness :
  is_b64 (321 # 8) /\ is_b64 (- (595 # 8)) /\
  -90 <= 321 # 8 <= 90 /\ -180 <= - (595 # 8) <= 180 /\
  Qabs ((201 # 4) * inject_Z 100) < pow2 53 /\
  exists g,
    encode_gps (Fin (321 # 8)) (Fin (- (595 # 8))) (Fin (201 # 4)) = Ok g /\
    snd (GPSAltitude g) = 100%Z /\ GPSAltitudeRef g = 0%Z /\
    Qabs (decode_latitude g - (321 # 8)) <= 1 # 100000 /\
    Qabs (decode_longitude g - - (595 # 8)) <= 1 # 100000 /\
    Qabs (decode_altitude g - (201 # 4)) <= 1 # 100.
Proof.
  assert (H1 : is_b64 (321 # 8)).
  { exists 321%Z, (-3)%Z. repeat split; try lia; vm_compute; reflexivity. }
  assert (H2 : is_b64 (- (595 # 8))).
  { exists (-595)%Z, (-3)%Z. repeat split; try lia; vm_compute; reflexivity. }
  assert (H3 : -90 <= 321 # 8 <= 90) by (split; vm_compute; discriminate).
  assert (H4 : -180 <= - (595 # 8) <= 180) by (split; vm_compute; discriminate).
  assert (H5 : Qabs ((201 # 4) * inject_Z 100) < pow2 53) by (vm_compute; reflexivity).
  repeat (split; [assumption|]).
  apply (encode_decode_round_trip _ _ _ H1 H2 H3 H4 H5).
Defined.

(* ===================================================================== *)
(** * The telemetry parser                                                 *)
(* ===================================================================== *)

Local Open Scope list_scope.

(** ** The matcher on the patterns of the script *)

Lemma take_drop_while p s : take_while p s ++ drop_while p s = s.
Proof.
  induction s as [|c s IH]; [reflexivity|]. cbn.
  destruct (p c); [cbn; rewrite IH|]; reflexivity.
Qed.

Lemma forallb_take_while p s : forallb p (take_while p s) = true.
Proof.
  induction s as [|c s IH]; [reflexivity|]. cbn.
  destruct (p c) eqn:E; [cbn; rewrite E, IH|]; reflexivity.
Qed.

Lemma match_lits w rest s g r :
  match_here (map Lit w ++ rest) s g = Some r <->
  exists s', s = w ++ s' /\ match_here rest s' g = Some r.
Proof.
  revert s. induction w as [|c w IH]; intros s; cbn [map app].
  - split; [intros H; exists s; auto | intros (s' & -> & H); exact H].
  - cbn [match_here]. destruct s as [|x s].
    + split; [discriminate | intros (s' & E & _); discriminate].
    + destruct (Ascii.eqb x c) eqn:E.
      * apply Ascii.eqb_eq in E. subst x. rewrite IH. split.
        -- intros (s' & -> & H). exists s'. auto.
        -- intros (s' & E & H). injection E as ->. exists s'. auto.
      * apply Ascii.eqb_neq in E. split; [discriminate|].
        intros (s' & F & _). injection F as F _. contradiction.
Qed.

(** When the continuation cannot start with a character of the class,
    giving back characters never helps: the star skips the whole run. *)
Lemma star_loop_skip cls k s g :
  (forall x s' g', cls x = true -> k (x :: s') g' = None) ->
  star_loop cls k s g = k (drop_while cls s) g.
Proof.
  intros Hk. induction s as [|x s IH]; [reflexivity|]. cbn.
  destruct (cls x) eqn:E; [|reflexivity].
  rewrite IH. destruct (k (drop_while cls s) g) eqn:F; [reflexivity|].
  apply Hk. exact E.
Qed.

Lemma plus_loop_greedy cls k s g :
  (forall x s' g', cls x = true -> k (x :: s') g' = None) ->
  plus_loop cls k s g = k (drop_while cls s) (g ++ take_while cls s).
Proof.
  intros Hk. revert g. induction s as [|x s IH]; intros g.
  - cbn. rewrite app_nil_r. reflexivity.
  - cbn. destruct (cls x) eqn:E.
    + rewrite IH, <- app_assoc. cbn [app].
      destruct (k (drop_while cls s) (g ++ x :: take_while cls s)) eqn:F; [reflexivity|].
      apply Hk. exact E.
    + rewrite app_nil_r. reflexivity.
Qed.

Lemma plus_loop_last cls s g :
  plus_loop cls (match_here []) s g = Some (g ++ take_while cls s).
Proof.
  revert g. induction s as [|x s IH]; intros g.
  - cbn. rewrite app_nil_r. reflexivity.
  - cbn. destruct (cls x) eqn:E.
    + rewrite IH, <- app_assoc. reflexivity.
    + rewrite app_nil_r. reflexivity.
Qed.

Lemma cls_space_value x : cls_space x = true -> cls_value x = false.
Proof.
  destruct x as [[] [] [] [] [] [] [] []]; vm_compute; congruence.
Qed.

Lemma cls_value_bracket : cls_value "]" = false.
Proof. reflexivity. Qed.

Lemma match_value_plus closing s g :
  closing = [] \/ closing = [Lit "]"] ->
  match_here (GroupPlus cls_value :: closing) s g =
  match take_while cls_value s with
  | [] => None
  | v => match_here closing (drop_while cls_value s) v
  end.
Proof.
  intros Hc. cbn [match_here]. destruct s as [|x s]; [reflexivity|].
  cbn [take_while drop_while]. destruct (cls_value x) eqn:E; [|reflexivity].
  destruct Hc as [-> | ->].
  - rewrite plus_loop_last. reflexivity.
  - rewrite plus_loop_greedy; [reflexivity|].
    intros y s' g' Hy. cbn. destruct (Ascii.eqb y "]") eqn:F; [|reflexivity].
    apply Ascii.eqb_eq in F. subst y. discriminate.
Qed.

Lemma match_token name closing s g r :
  closing = [] \/ closing = [Lit "]"] ->
  match_here (lits name ++ [Star cls_space; GroupPlus cls_value] ++ closing) s g = Some r <->
  exists s', s = chars name ++ s' /\ read_value closing s' = Some r.
Proof.
  intros Hc. unfold lits. rewrite match_lits.
  assert (E : forall s', match_here ([Star cls_space; GroupPlus cls_value] ++ closing) s' g
                         = read_value closing s').
  { intros s'. cbn [app]. change (match_here (Star cls_space :: GroupPlus cls_value :: closing))
      with (star_loop cls_space (match_here (GroupPlus cls_value :: closing))).
    rewrite star_loop_skip.
    - rewrite (match_value_plus closing _ g Hc). reflexivity.
    - intros x s0 g0 Hx. cbn [match_here]. rewrite (cls_space_value x Hx). reflexivity. }
  split; intros (s' & -> & H); exists s'; (split; [reflexivity|]); rewrite E in *; exact H.
Qed.

(** [re.search] finds a match at some position, and finds one whenever
    there is one. *)
Lemma re_search_sound pat s g :
  re_search pat s = Some g ->
  exists pre tl, s = pre ++ tl /\ match_here pat tl [] = Some g.
Proof.
  induction s as [|x s IH]; cbn [re_search].
  - destruct (match_here pat [] []) eqn:E; [|discriminate].
    intros H. injection H as ->. exists [], []. auto.
  - destruct (match_here pat (x :: s) []) eqn:E.
    + intros H. injection H as ->. exists [], (x :: s). auto.
    + intros H. destruct (IH H) as (pre & tl & -> & M). exists (x :: pre), tl. auto.
Qed.

Lemma re_search_complete pat pre tl g :
  match_here pat tl [] = Some g -> exists g', re_search pat (pre ++ tl) = Some g'.
Proof.
  intros M. induction pre as [|x pre IH]; cbn [app].
  - exists g. destruct tl; cbn [re_search]; rewrite M; reflexivity.
  - cbn [re_search]. destruct (match_here pat (x :: pre ++ tl) []) eqn:E; eauto.
Qed.

Lemma drop_while_app p ws r :
  forallb p ws = true -> drop_while p (ws ++ r) = drop_while p r.
Proof.
  induction ws as [|x ws IH]; [reflexivity|]. cbn.
  destruct (p x); [exact IH | discriminate].
Qed.

Lemma take_while_app p v r :
  forallb p v = true -> take_while p (v ++ r) = v ++ take_while p r.
Proof.
  induction v as [|x v IH]; [reflexivity|]. cbn.
  destruct (p x); [intros H; rewrite (IH H); reflexivity | discriminate].
Qed.

Lemma drop_while_stop p x r : p x = false -> drop_while p (x :: r) = x :: r.
Proof. intros H. cbn. rewrite H. reflexivity. Qed.

Lemma take_while_stop p x r : p x = false -> take_while p (x :: r) = [].
Proof. intros H. cbn. rewrite H. reflexivity. Qed.

(** A successful search has found a token, and a token in the text
    makes the search succeed. *)
Lemma token_search_sound name closing cc s v :
  (closing = [] /\ cc = []) \/ (closing = [Lit "]"] /\ cc = ["]"%char]) ->
  re_search (lits name ++ [Star cls_space; GroupPlus cls_value] ++ closing) s = Some v ->
  has_token name cc v s.
Proof.
  intros Hc H. destruct (re_search_sound _ _ _ H) as (pre & tl & -> & M).
  assert (Hc' : closing = [] \/ closing = [Lit "]"]) by (destruct Hc as [[? _]|[? _]]; auto).
  apply (match_token name closing tl [] v Hc') in M. destruct M as (s' & -> & R).
  unfold read_value in R.
  set (s1 := drop_while cls_space s') in *.
  pose proof (take_drop_while cls_space s') as E1. fold s1 in E1.
  pose proof (take_drop_while cls_value s1) as E2.
  pose proof (forallb_take_while cls_space s') as F1.
  pose proof (forallb_take_while cls_value s1) as F2.
  destruct (take_while cls_value s1) as [|x v0] eqn:T; [discriminate|].
  destruct Hc as [[-> ->]|[-> ->]].
  - cbn in R. injection R as <-.
    exists pre, (take_while cls_space s'), (drop_while cls_value s1).
    split; [|split; [exact F1|split; [discriminate|exact F2]]].
    do 2 f_equal. symmetry. etransitivity; [|exact E1]. f_equal. exact E2.
  - cbn [match_here] in R. destruct (drop_while cls_value s1) as [|y post] eqn:D; [discriminate|].
    destruct (Ascii.eqb y "]") eqn:Y; [|discriminate]. injection R as <-.
    apply Ascii.eqb_eq in Y. subst y.
    exists pre, (take_while cls_space s'), post.
    split; [|split; [exact F1|split; [discriminate|exact F2]]].
    do 2 f_equal. symmetry. etransitivity; [|exact E1]. f_equal. exact E2.
Qed.

Lemma token_search_complete name closing cc s v :
  (closing = [] /\ cc = []) \/ (closing = [Lit "]"] /\ cc = ["]"%char]) ->
  has_token name cc v s ->
  exists v', re_search (lits name ++ [Star cls_space; GroupPlus cls_value] ++ closing) s = Some v'.
Proof.
  intros Hc (pre & ws & post & -> & Hws & Hv & Fv).
  assert (Hc' : closing = [] \/ closing = [Lit "]"]) by (destruct Hc as [[? _]|[? _]]; auto).
  destruct v as [|x v]; [contradiction|].
  assert (Hx : cls_value x = true) by (cbn in Fv; apply andb_prop in Fv; tauto).
  assert (Hx' : cls_space x = false).
  { destruct (cls_space x) eqn:E; [|reflexivity]. apply cls_space_value in E. congruence. }
  assert (R : exists v', read_value closing (ws ++ (x :: v) ++ cc ++ post) = Some v').
  { unfold read_value. rewrite (drop_while_app _ _ _ Hws).
    change ((x :: v) ++ cc ++ post) with (x :: (v ++ cc ++ post)).
    rewrite (drop_while_stop _ _ _ Hx').
    change (x :: (v ++ cc ++ post)) with ((x :: v) ++ cc ++ post).
    destruct Hc as [[-> ->]|[-> ->]].
    - rewrite (take_while_app _ _ _ Fv). cbn [app]. eexists. reflexivity.
    - rewrite (take_while_app _ _ _ Fv), (drop_while_app _ _ _ Fv).
      cbn [app]. rewrite (take_while_stop _ _ _ cls_value_bracket).
      rewrite (drop_while_stop _ _ _ cls_value_bracket), app_nil_r.
      cbn. eexists. reflexivity. }
  destruct R as (v' & R).
  apply (re_search_complete _ pre _ v').
  apply (match_token name closing _ [] v' Hc'). eexists. split; [reflexivity|exact R].
Qed.

(** ** [float()] raises nothing but [ValueError] *)

Lemma py_float_raises g e : py_float g = Raise e -> e = ValueError.
Proof.
  unfold py_float. destruct (remove_underscores _); [|congruence].
  destruct (read_number _); congruence.
Qed.

(** ** The parser *)

Lemma search_prefix name rest s g :
  re_search (lits name ++ rest) s = Some g ->
  exists pre post, s = pre ++ chars name ++ post.
Proof.
  intros H. destruct (re_search_sound _ _ _ H) as (pre & tl & -> & M).
  unfold lits in M. apply match_lits in M. destruct M as (s' & -> & _).
  exists pre, s'. reflexivity.
Qed.


(** C3 (as stated, refuted): latitude, longitude and absolute altitude
    are present and valid, yet no sample is returned, because the value
    after [rel_alt:] is not a number. *)
Lemma required_fields_not_sufficient :
  let srt_text := "[latitude: 40.125][longitude: -74.5][rel_alt: 1.2.3 abs_alt: 50.25]"%string in
  (exists g, re_search re_latitude (chars srt_text) = Some g /\
             py_float g = Ok (Fin (321 # 8))) /\
  (exists g, re_search re_longitude (chars srt_text) = Some g /\
             py_float g = Ok (Fin (- (149 # 2)))) /\
  (exists g, re_search re_abs_alt (chars srt_text) = Some g /\
             py_float g = Ok (Fin (201 # 4))) /\
  parse_dji_gps_data srt_text = Ok None.
Proof.
  cbv zeta. split; [|split; [|split]].
  - exists (chars "40.125"). split; vm_compute; reflexivity.
  - exists (chars "-74.5"). split; vm_compute; reflexivity.
  - exists (chars "50.25"). split; vm_compute; reflexivity.
  - vm_compute. reflexivity.
Qed.

(** What the parser returns, by cases on the four searches. *)
Lemma parse_dji_gps_data_cases (srt_text : string) :
  (exists r, parse_dji_gps_data srt_text = Ok r) /\
  (forall lat lon abs_alt rel_alt,
     parse_dji_gps_data srt_text = Ok (Some (lat, lon, abs_alt, rel_alt)) <->
     (exists g1 g2 g3,
        re_search re_latitude (chars srt_text) = Some g1 /\ py_float g1 = Ok lat /\
        re_search re_longitude (chars srt_text) = Some g2 /\ py_float g2 = Ok lon /\
        re_search re_abs_alt (chars srt_text) = Some g3 /\ py_float g3 = Ok abs_alt /\
        match re_search re_rel_alt (chars srt_text) with
        | None => rel_alt = None
        | Some g4 => exists x, py_float g4 = Ok x /\ rel_alt = Some x
        end)) /\
  ((~ exists pre post, chars srt_text = pre ++ chars "abs_alt:" ++ post) ->
   parse_dji_gps_data srt_text = Ok None) /\
  (forall g, re_search re_latitude (chars srt_text) = Some g ->
             (forall x, py_float g <> Ok x) ->
             parse_dji_gps_data srt_text = Ok None).
Proof.
  unfold parse_dji_gps_data.
  destruct (re_search re_latitude (chars srt_text)) as [g1|] eqn:S1;
  destruct (re_search re_longitude (chars srt_text)) as [g2|] eqn:S2;
  destruct (re_search re_abs_alt (chars srt_text)) as [g3|] eqn:S3;
  cbn [is_match andb group1 bind];
  try (split; [eexists; reflexivity|];
       split; [intros; split; [discriminate | intros (? & ? & ? & ? & ? & ? & ? & ? & ? & ?); discriminate]|];
       split; [reflexivity|]; intros; reflexivity).
  assert (P3 : exists pre post, chars srt_text = pre ++ chars "abs_alt:" ++ post).
  { apply (search_prefix "abs_alt:" _ _ _ S3). }
  destruct (py_float g1) as [lat|e1] eqn:F1; cbn [bind].
  2:{ rewrite (py_float_raises _ _ F1). cbn [except_value_attribute].
      split; [eexists; reflexivity|].
      split; [intros; split; [discriminate|]|].
      { intros (? & ? & ? & E & F & _). injection E as <-. congruence. }
      split; [reflexivity|]. intros; reflexivity. }
  destruct (py_float g2) as [lon|e2] eqn:F2; cbn [bind].
  2:{ rewrite (py_float_raises _ _ F2). cbn [except_value_attribute].
      split; [eexists; reflexivity|].
      split; [intros; split; [discriminate|]|].
      { intros (? & ? & ? & _ & _ & E & F & _). injection E as <-. congruence. }
      split; [reflexivity|]. intros; reflexivity. }
  destruct (py_float g3) as [abs_alt|e3] eqn:F3; cbn [bind].
  2:{ rewrite (py_float_raises _ _ F3). cbn [except_value_attribute].
      split; [eexists; reflexivity|].
      split; [intros; split; [discriminate|]|].
      { intros (? & ? & ? & _ & _ & _ & _ & E & F & _). injection E as <-. congruence. }
      split; [reflexivity|]. intros; reflexivity. }
  destruct (re_search re_rel_alt (chars srt_text)) as [g4|] eqn:S4; cbn [is_match group1 bind].
  - destruct (py_float g4) as [x|e4] eqn:F4; cbn [bind except_value_attribute].
    + split; [eexists; reflexivity|]. split.
      * intros lat' lon' abs' rel'. split.
        -- intros H. injection H as <- <- <- <-. exists g1, g2, g3.
           repeat split; auto. exists x. auto.
        -- intros (h1 & h2 & h3 & E1 & G1 & E2 & G2 & E3 & G3 & (x' & G4 & ->)).
           injection E1 as <-. injection E2 as <-. injection E3 as <-.
           congruence.
      * split; [intros N; contradiction|].
        intros g E N. injection E as <-. exfalso. exact (N _ F1).
    + rewrite (py_float_raises _ _ F4). cbn [except_value_attribute].
      split; [eexists; reflexivity|]. split.
      * intros; split; [discriminate|].
        intros (? & ? & ? & _ & _ & _ & _ & _ & _ & (? & ? & _)). congruence.
      * split; reflexivity.
  - cbn [except_value_attribute]. split; [eexists; reflexivity|]. split.
    + intros lat' lon' abs' rel'. split.
      * intros H. injection H as <- <- <- <-. exists g1, g2, g3. repeat split; auto.
      * intros (h1 & h2 & h3 & E1 & G1 & E2 & G2 & E3 & G3 & ->).
        injection E1 as <-. injection E2 as <-. injection E3 as <-. congruence.
    + split; [intros N; contradiction|].
      intros g E N. injection E as <-. exfalso. exact (N _ F1).
Qed.

(** C3 (amended): the parser never raises.  It returns the sample
    (lat, lon, abs_alt, rel_alt) if and only if the three patterns for
    latitude, longitude and absolute altitude match, [float()] accepts
    their groups and gives lat, lon and abs_alt, and the pattern for the
    relative altitude either does not match, rel_alt being absent, or
    matches a group that [float()] accepts, rel_alt being its value.  A
    text without [abs_alt:] gives no sample, and so does a text whose
    latitude group is not a number.  A pattern matches exactly when its
    token is in the text: the name, optional whitespace, a non-empty run
    of value characters and, but for the relative altitude, the closing
    bracket. *)
Theorem parse_dji_gps_data_spec (srt_text : string) :
  (exists r, parse_dji_gps_data srt_text = Ok r) /\
  (forall lat lon abs_alt rel_alt,
     parse_dji_gps_data srt_text = Ok (Some (lat, lon, abs_alt, rel_alt)) <->
     (exists g1 g2 g3,
        re_search re_latitude (chars srt_text) = Some g1 /\ py_float g1 = Ok lat /\
        re_search re_longitude (chars srt_text) = Some g2 /\ py_float g2 = Ok lon /\
        re_search re_abs_alt (chars srt_text) = Some g3 /\ py_float g3 = Ok abs_alt /\
        match re_search re_rel_alt (chars srt_text) with
        | None => rel_alt = None
        | Some g4 => exists x, py_float g4 = Ok x /\ rel_alt = Some x
        end)) /\
  ((~ exists pre post, chars srt_text = pre ++ chars "abs_alt:" ++ post) ->
   parse_dji_gps_data srt_text = Ok None) /\
  (forall g, re_search re_latitude (chars srt_text) = Some g ->
             (forall x, py_float g <> Ok x) ->
             parse_dji_gps_data srt_text = Ok None) /\
  ((exists g, re_search re_latitude (chars srt_text) = Some g) <->
   (exists v, has_token "[latitude:" ["]"%char] v (chars srt_text))) /\
  ((exists g, re_search re_longitude (chars srt_text) = Some g) <->
   (exists v, has_token "[longitude:" ["]"%char] v (chars srt_text))) /\
  ((exists g, re_search re_abs_alt (chars srt_text) = Some g) <->
   (exists v, has_token "abs_alt:" ["]"%char] v (chars srt_text))) /\
  ((exists g, re_search re_rel_alt (chars srt_text) = Some g) <->
   (exists v, has_token "[rel_alt:" [] v (chars srt_text))).
Proof.
  destruct (parse_dji_gps_data_cases srt_text) as (H1 & H2 & H3 & H4).
  split; [exact H1|]. split; [exact H2|]. split; [exact H3|]. split; [exact H4|].
  assert (B : forall name,
            (exists g, re_search (lits name ++ [Star cls_space; GroupPlus cls_value]
                                    ++ [Lit "]"]) (chars srt_text) = Some g) <->
            (exists v, has_token name ["]"%char] v (chars srt_text))).
  { intros name. split.
    - intros (g & H). exists g. apply (token_search_sound name [Lit "]"]); auto.
    - intros (v & H). apply (token_search_complete name [Lit "]"] ["]"%char] _ v); auto. }
  split; [apply (B "[latitude:"%string)|]. split; [apply (B "[longitude:"%string)|].
  split; [apply (B "abs_alt:"%string)|].
  split.
  - intros (g & H). exists g. apply (token_search_sound "[rel_alt:" [] []); auto.
  - intros (v & H). apply (token_search_complete "[rel_alt:" [] [] _ v); auto.
Qed.

(** C10: a value after [rel_alt:] that the pattern matches and
    [float()] rejects suppresses the whole sample, whatever the other
    fields; and there is such a text in which latitude, longitude and
    absolute altitude are valid: the relative altitude 1.2.3. *)
Theorem malformed_rel_alt_suppresses_sample :
  (forall srt_text g,
     re_search re_rel_alt (chars srt_text) = Some g ->
     (forall x, py_float g <> Ok x) ->
     parse_dji_gps_data srt_text = Ok None) /\
  exists srt_text g1 g2 g3 g4 lat lon abs_alt,
    re_search re_latitude (chars srt_text) = Some g1 /\ py_float g1 = Ok lat /\
    re_search re_longitude (chars srt_text) = Some g2 /\ py_float g2 = Ok lon /\
    re_search re_abs_alt (chars srt_text) = Some g3 /\ py_float g3 = Ok abs_alt /\
    re_search re_rel_alt (chars srt_text) = Some g4 /\ g4 = chars "1.2.3" /\
    py_float g4 = Raise ValueError /\
    parse_dji_gps_data srt_text = Ok None.
Proof.
  split.
  - intros srt_text g Hs Hf.
    destruct (parse_dji_gps_data_cases srt_text) as ([r Hr] & Hiff & _).
    destruct r as [[[[lat lon] abs_alt] rel_alt]|]; [|exact Hr].
    exfalso. apply Hiff in Hr.
    destruct Hr as (g1 & g2 & g3 & _ & _ & _ & _ & _ & _ & Hrel).
    rewrite Hs in Hrel. destruct Hrel as (x & Hx & _). exact (Hf x Hx).
  - exists "[latitude: 40.125][longitude: -74.5][rel_alt: 1.2.3 abs_alt: 50.25]"%string.
    exists (chars "40.125"), (chars "-74.5"), (chars "50.25"), (chars "1.2.3").
    exists (Fin (321 # 8)), (Fin (- (149 # 2))), (Fin (201 # 4)).
    repeat (split; [vm_compute; reflexivity|]). vm_compute. reflexivity.
Qed.

(* ===================================================================== *)
(** * The temporal aligner                                                 *)
(* ===================================================================== *)

Local Open Scope Q_scope.

(** ** Frame timestamp *)

Lemma b64_round_0 q : q == 0 -> b64_round q = Fin 0.
Proof. intros H. unfold b64_round. rewrite (Qeq_eq_bool _ _ H). reflexivity. Qed.

(** C2: the timestamp of a frame is Python's [(n - 1) / e]: for a frame
    index up to 2^53 and a finite positive extraction rate it is the
    float nearest to the quotient; processing a frame does not depend on
    the source frame rate; and the first frame is at 0 for every positive
    extraction rate, finite or not. *)
Theorem frame_time_seconds_formula (e : float) :
  fgt_int e 0 = true ->
  (forall n, frame_time_seconds n e = int_div_float (n - 1) e) /\
  (forall n q, e = Fin q -> (1 <= n <= 2 ^ 53)%Z ->
     frame_time_seconds n e = Ok (b64_round (inject_Z (n - 1) / q))) /\
  (forall (ifd : Type) load dump ins folder video_fps video_fps' subs img,
     process_image ifd load dump ins folder video_fps e subs img =
     process_image ifd load dump ins folder video_fps' e subs img) /\
  frame_time_seconds 1 e = Ok (Fin 0) /\
  frame_timedelta_ms 1 e = Ok (Fin 0).
Proof.
  intros He.
  assert (H1 : frame_time_seconds 1 e = Ok (Fin 0)).
  { unfold frame_time_seconds, int_div_float. change (1 - 1)%Z with 0%Z.
    rewrite float_of_int_exact by reflexivity. cbn [bind]. change (inject_Z 0) with 0.
    destruct e as [q|s|]; cbn [fdiv].
    - destruct (Qeq_bool q 0) eqn:E.
      + apply Qeq_bool_iff in E. apply fgt_int_0 in He. lra.
      + reflexivity.
    - reflexivity.
    - discriminate He. }
  split; [reflexivity|]. split; [|split; [reflexivity|split; [exact H1|]]].
  - intros n q -> Hn. unfold frame_time_seconds, int_div_float.
    rewrite float_of_int_exact by lia. cbn [bind fdiv].
    apply fgt_int_0 in He.
    destruct (Qeq_bool q 0) eqn:E; [|reflexivity].
    apply Qeq_bool_iff in E. lra.
  - unfold frame_timedelta_ms. rewrite H1. cbn [bind]. unfold fmul_int.
    rewrite float_of_int_exact by reflexivity. reflexivity.
Qed.

Lemma frame_time_seconds_formula_witness :
  fgt_int (Fin 5) 0 = true /\
  (forall n, frame_time_seconds n (Fin 5) = int_div_float (n - 1) (Fin 5)) /\
  (forall n q, Fin 5 = Fin q -> (1 <= n <= 2 ^ 53)%Z ->
     frame_time_seconds n (Fin 5) = Ok (b64_round (inject_Z (n - 1) / q))) /\
  (forall (ifd : Type) load dump ins folder video_fps video_fps' subs img,
     process_image ifd load dump ins folder video_fps (Fin 5) subs img =
     process_image ifd load dump ins folder video_fps' (Fin 5) subs img) /\
  frame_time_seconds 1 (Fin 5) = Ok (Fin 0) /\
  frame_timedelta_ms 1 (Fin 5) = Ok (Fin 0).
Proof.
  split; [reflexivity|]. apply (frame_time_seconds_formula (Fin 5)). reflexivity.
Defined.

(** ** Subtitle lookup *)

Lemma find_sub_some t subs s :
  find_sub t subs = Some s <->
  exists before after,
    subs = before ++ s :: after /\ sub_contains t s = true /\
    forallb (fun x => negb (sub_contains t x)) before = true.
Proof.
  induction subs as [|x subs IH]; cbn [find_sub].
  - split; [discriminate|]. intros (b & a & E & _). destruct b; discriminate.
  - destruct (sub_contains t x) eqn:C.
    + split.
      * intros H. injection H as <-. exists [], subs. auto.
      * intros (b & a & E & Cs & Fb). destruct b as [|y b].
        -- cbn in E. injection E as -> _. reflexivity.
        -- cbn in E. injection E as <- _. cbn in Fb. rewrite C in Fb. discriminate.
    + rewrite IH. split.
      * intros (b & a & -> & Cs & Fb). exists (x :: b), a. cbn. rewrite C. auto.
      * intros (b & a & E & Cs & Fb). destruct b as [|y b].
        -- cbn in E. injection E as -> _. congruence.
        -- cbn in E. injection E as <- ->. exists b, a. cbn in Fb. rewrite C in Fb. auto.
Qed.

Lemma find_sub_none t subs :
  find_sub t subs = None <-> forall s, In s subs -> sub_contains t s = false.
Proof.
  induction subs as [|x subs IH]; cbn [find_sub].
  - split; [intros _ s []|reflexivity].
  - destruct (sub_contains t x) eqn:C.
    + split; [discriminate|]. intros H. rewrite (H x) in C; [discriminate|left; reflexivity].
    + rewrite IH. split.
      * intros H s [<-|Hs]; auto.
      * intros H s Hs. apply H. right. exact Hs.
Qed.

Lemma before_start t a b :
  flt_int t a = true -> (a <= b)%Z -> int_le_float b t = false.
Proof.
  destruct t as [q|s|]; cbn; [|destruct s; auto|discriminate].
  intros H Hab. destruct (Qle_bool (inject_Z a) q) eqn:E; [discriminate|].
  destruct (Qle_bool (inject_Z b) q) eqn:F; [|reflexivity].
  apply Qle_bool_iff in F. rewrite Zle_Qle in Hab.
  assert (G : inject_Z a <= q) by lra. apply Qle_bool_iff in G. congruence.
Qed.

Lemma after_end t a b :
  fgt_int t b = true -> (a <= b)%Z -> float_le_int t a = false.
Proof.
  destruct t as [q|s|]; cbn; [|destruct s; auto|discriminate].
  intros H Hab. destruct (Qle_bool q (inject_Z b)) eqn:E; [discriminate|].
  destruct (Qle_bool q (inject_Z a)) eqn:F; [|reflexivity].
  apply Qle_bool_iff in F. rewrite Zle_Qle in Hab.
  assert (G : q <= inject_Z b) by lra. apply Qle_bool_iff in G. congruence.
Qed.

(** C1 (as stated, refuted): the intervals [0, 100] and [10, 20] are in
    ascending order of start; 50 is after the end of the last one, and
    the lookup returns the first one. *)
Lemma after_last_end_found :
  let first := {| start_ordinal := 0; end_ordinal := 100; text := "a" |} in
  let last := {| start_ordinal := 10; end_ordinal := 20; text := "b" |} in
  StronglySorted (fun a b => (start_ordinal a <= start_ordinal b)%Z) [first; last] /\
  fgt_int (Fin 50) (end_ordinal last) = true /\
  find_sub (Fin 50) [first; last] = Some first.
Proof.
  cbv zeta. split; [|split; reflexivity].
  repeat constructor. cbn. lia.
Qed.

Lemma sorted_last {A : Type} (R : A -> A -> Prop) init l :
  StronglySorted R (init ++ [l]) -> forall x, In x init -> R x l.
Proof.
  induction init as [|y init IH]; cbn; intros H x Hx; [contradiction|].
  apply StronglySorted_inv in H. destruct H as [Hs Hy].
  destruct Hx as [<-|Hx].
  - rewrite Forall_forall in Hy. apply Hy. apply in_or_app. right. left. reflexivity.
  - apply IH; assumption.
Qed.

Lemma sorted_after {A : Type} (R : A -> A -> Prop) before s after :
  StronglySorted R (before ++ s :: after) -> forall x, In x after -> R s x.
Proof.
  induction before as [|y before IH]; cbn; intros H x Hx.
  - apply StronglySorted_inv in H. destruct H as [_ Hy].
    rewrite Forall_forall in Hy. apply Hy. exact Hx.
  - apply StronglySorted_inv in H. destruct H as [Hs _]. apply IH; assumption.
Qed.

(** C1 (amended): on intervals in ascending order of start, the lookup
    returns the first interval, in list order and so in order of start,
    whose bounds contain the timestamp, both bounds included; it returns
    None exactly when no interval contains the timestamp, in particular
    for a timestamp before the start of the first interval, for a
    timestamp after the end of every interval, and, when the ends are in
    ascending order too, for a timestamp after the end of the last
    interval. *)
Theorem find_sub_first_containing (t : float) (subs : list sub) :
  StronglySorted (fun a b => (start_ordinal a <= start_ordinal b)%Z) subs ->
  (forall q s, sub_contains (Fin q) s = true <->
               inject_Z (start_ordinal s) <= q <= inject_Z (end_ordinal s)) /\
  (forall s, find_sub t subs = Some s <->
     exists before after,
       subs = before ++ s :: after /\ sub_contains t s = true /\
       forallb (fun x => negb (sub_contains t x)) before = true) /\
  (forall s s', find_sub t subs = Some s -> In s' subs -> sub_contains t s' = true ->
                (start_ordinal s <= start_ordinal s')%Z) /\
  (find_sub t subs = None <-> forall s, In s subs -> sub_contains t s = false) /\
  (forall first rest, subs = first :: rest ->
     flt_int t (start_ordinal first) = true -> find_sub t subs = None) /\
  ((forall s, In s subs -> fgt_int t (end_ordinal s) = true) -> find_sub t subs = None) /\
  (StronglySorted (fun a b => (end_ordinal a <= end_ordinal b)%Z) subs ->
   forall init last, subs = init ++ [last] ->
     fgt_int t (end_ordinal last) = true -> find_sub t subs = None).
Proof.
  intros Hs. split; [|split; [|split; [|split; [|split; [|split]]]]].
  - intros q s. unfold sub_contains, int_le_float, float_le_int.
    rewrite andb_true_iff, !Qle_bool_iff. reflexivity.
  - intros s. apply find_sub_some.
  - intros s s' Hf Hin Hc. apply find_sub_some in Hf.
    destruct Hf as (before & after & E & _ & Fb). subst subs.
    apply in_app_or in Hin. destruct Hin as [Hin|[<-|Hin]].
    + rewrite forallb_forall in Fb. specialize (Fb _ Hin). rewrite Hc in Fb. discriminate.
    + lia.
    + exact (sorted_after _ _ _ _ Hs _ Hin).
  - apply find_sub_none.
  - intros first rest -> Hlt. apply find_sub_none. intros s Hin.
    unfold sub_contains. apply andb_false_iff. left.
    apply (before_start t (start_ordinal first)); [exact Hlt|].
    destruct Hin as [<-|Hin]; [lia|].
    apply StronglySorted_inv in Hs. destruct Hs as [_ Hf].
    rewrite Forall_forall in Hf. apply Hf. exact Hin.
  - intros H. apply find_sub_none. intros s Hin.
    unfold sub_contains. apply andb_false_iff. right.
    apply (after_end t (end_ordinal s) (end_ordinal s)); [apply H; exact Hin | lia].
  - intros He init last -> Hgt. apply find_sub_none. intros s Hin.
    unfold sub_contains. apply andb_false_iff. right.
    apply (after_end t (end_ordinal s) (end_ordinal last)); [exact Hgt|].
    apply in_app_or in Hin. destruct Hin as [Hin|[<-|[]]]; [|lia].
    exact (sorted_last _ _ _ He _ Hin).
Qed.

Lemma find_sub_first_containing_witness :
  StronglySorted (fun a b => (start_ordinal a <= start_ordinal b)%Z) ex_subs /\
  (forall q s, sub_contains (Fin q) s = true <->
               inject_Z (start_ordinal s) <= q <= inject_Z (end_ordinal s)) /\
  (forall s, find_sub (Fin 1000) ex_subs = Some s <->
     exists before after,
       ex_subs = before ++ s :: after /\ sub_contains (Fin 1000) s = true /\
       forallb (fun x => negb (sub_contains (Fin 1000) x)) before = true) /\
  (forall s s', find_sub (Fin 1000) ex_subs = Some s -> In s' ex_subs ->
                sub_contains (Fin 1000) s' = true ->
                (start_ordinal s <= start_ordinal s')%Z) /\
  (find_sub (Fin 1000) ex_subs = None <->
   forall s, In s ex_subs -> sub_contains (Fin 1000) s = false) /\
  (forall first rest, ex_subs = first :: rest ->
     flt_int (Fin 1000) (start_ordinal first) = true ->
     find_sub (Fin 1000) ex_subs = None) /\
  ((forall s, In s ex_subs -> fgt_int (Fin 1000) (end_ordinal s) = true) ->
   find_sub (Fin 1000) ex_subs = None) /\
  (StronglySorted (fun a b => (end_ordinal a <= end_ordinal b)%Z) ex_subs ->
   forall init last, ex_subs = init ++ [last] ->
     fgt_int (Fin 1000) (end_ordinal last) = true ->
     find_sub (Fin 1000) ex_subs = None).
Proof.
  assert (H : StronglySorted (fun a b => (start_ordinal a <= start_ordinal b)%Z) ex_subs).
  { unfold ex_subs. repeat constructor. }
  split; [exact H|]. apply (find_sub_first_containing (Fin 1000) ex_subs H).
Defined.

(* ===================================================================== *)
(** * The metadata writer and the run                                      *)
(* ===================================================================== *)

Local Open Scope Z_scope.

Lemma dict_get_set_same {V : Type} (d : list (string * V)) k v :
  dict_get (dict_set d k v) k = Some v.
Proof.
  induction d as [|[k' v'] d IH]; cbn.
  - rewrite String.eqb_refl. reflexivity.
  - destruct (String.eqb k' k) eqn:E; cbn.
    + rewrite String.eqb_refl. reflexivity.
    + rewrite E. exact IH.
Qed.

Lemma dict_get_set_other {V : Type} (d : list (string * V)) k v k0 :
  k0 <> k -> dict_get (dict_set d k v) k0 = dict_get d k0.
Proof.
  intros Hk. assert (Hk' : String.eqb k k0 = false).
  { apply String.eqb_neq. intros E. apply Hk. symmetry. exact E. }
  induction d as [|[k' v'] d IH]; cbn.
  - rewrite Hk'. reflexivity.
  - destruct (String.eqb k' k) eqn:E; cbn.
    + apply String.eqb_eq in E. subst k'. rewrite Hk'. reflexivity.
    + destruct (String.eqb k' k0); [reflexivity | exact IH].
Qed.

Lemma failures_app a b : failures (a ++ b) = failures a + failures b.
Proof.
  unfold failures. rewrite filter_app, length_app, Nat2Z.inj_add. reflexivity.
Qed.

Section ScriptFacts.

Variable ifd : Type.
Variable piexif_load : files -> string -> result (exif_dict ifd).
Variable piexif_dump : exif_dict ifd -> result string.
Variable piexif_insert : string -> string -> files -> result unit * files.
Variable pysrt_open : string -> result (list sub).
Variable current_folder : string.

Local Abbreviation set_gps := (set_gps_location ifd piexif_load piexif_dump piexif_insert).
Local Abbreviation do_image :=
  (process_image ifd piexif_load piexif_dump piexif_insert current_folder).
Local Abbreviation do_images :=
  (process_images ifd piexif_load piexif_dump piexif_insert current_folder).
Local Abbreviation do_group :=
  (process_group ifd piexif_load piexif_dump piexif_insert pysrt_open current_folder).
Local Abbreviation do_groups :=
  (process_groups ifd piexif_load piexif_dump piexif_insert pysrt_open current_folder).
Local Abbreviation run :=
  (geotag_dji_frames ifd piexif_load piexif_dump piexif_insert pysrt_open current_folder).
Local Abbreviation run_input :=
  (geotag_dji_frames_input ifd piexif_load piexif_dump piexif_insert pysrt_open
     current_folder).

(** ** [set_gps_location] *)


(** C8 (amended): [set_gps_location] loads the EXIF block of the image,
    replaces its GPS group by the new one, every other group of the
    block being as it was loaded, and has [piexif.insert] write the
    dumped block into the image itself.  It returns True exactly when
    every step succeeds, and the files are then what the insert made of
    them.  When a step fails it prints the error and returns False: a
    failure before the insert (the encoding of the position, the load,
    the dump) leaves every file as it was, and after a failure of the
    insert the files are as the failed insert left them. *)
Theorem set_gps_location_write file_path lat lon abs_alt rel_alt w :
  (forall exif gps,
     dict_get (dict_set exif "GPS" (Built ifd gps)) "GPS" = Some (Built ifd gps) /\
     forall k, k <> "GPS"%string ->
       dict_get (dict_set exif "GPS" (Built ifd gps)) k = dict_get exif k) /\
  (forall exif gps exif_bytes d',
     piexif_load (disk w) file_path = Ok exif ->
     encode_gps lat lon abs_alt = Ok gps ->
     piexif_dump (dict_set exif "GPS" (Built ifd gps)) = Ok exif_bytes ->
     piexif_insert exif_bytes file_path (disk w) = (Ok tt, d') ->
     set_gps file_path lat lon abs_alt rel_alt w
       = (Ok true, {| log := log w; disk := d' |})) /\
  (forall w',
     set_gps file_path lat lon abs_alt rel_alt w = (Ok true, w') ->
     log w' = log w /\
     exists exif gps exif_bytes,
       piexif_load (disk w) file_path = Ok exif /\
       encode_gps lat lon abs_alt = Ok gps /\
       piexif_dump (dict_set exif "GPS" (Built ifd gps)) = Ok exif_bytes /\
       piexif_insert exif_bytes file_path (disk w) = (Ok tt, disk w')) /\
  ((exists e, piexif_load (disk w) file_path = Raise e) \/
   (exists e, encode_gps lat lon abs_alt = Raise e) \/
   (exists exif gps e,
      piexif_load (disk w) file_path = Ok exif /\
      encode_gps lat lon abs_alt = Ok gps /\
      piexif_dump (dict_set exif "GPS" (Built ifd gps)) = Raise e) ->
   exists e,
     set_gps file_path lat lon abs_alt rel_alt w
       = (Ok false, {| log := log w ++ [LErrorWriting file_path e]; disk := disk w |})) /\
  (forall exif gps exif_bytes e d',
     piexif_load (disk w) file_path = Ok exif ->
     encode_gps lat lon abs_alt = Ok gps ->
     piexif_dump (dict_set exif "GPS" (Built ifd gps)) = Ok exif_bytes ->
     piexif_insert exif_bytes file_path (disk w) = (Raise e, d') ->
     set_gps file_path lat lon abs_alt rel_alt w
       = (Ok false, {| log := log w ++ [LErrorWriting file_path e]; disk := d' |})).
Proof.
  split.
  { intros exif gps. split; [apply dict_get_set_same|].
    intros k Hk. apply dict_get_set_other. exact Hk. }
  unfold set_gps_location, try_except, bindM, lift, load, insert, ret, print, encode_gps.
  destruct w as [lg d]. cbn [log disk].
  destruct (to_deg lat ["N"%string; "S"%string]) as [lat_deg|e1] eqn:E1; cbn [bind].
  2: { split; [intros; discriminate|]. split; [intros; discriminate|].
       split; [|intros; discriminate]. intros _. exists e1. reflexivity. }
  destruct (to_deg lon ["E"%string; "W"%string]) as [lon_deg|e2] eqn:E2; cbn [bind].
  2: { split; [intros; discriminate|]. split; [intros; discriminate|].
       split; [|intros; discriminate]. intros _. exists e2. reflexivity. }
  destruct (piexif_load d file_path) as [exif0|e3] eqn:E3.
  2: { split; [intros; discriminate|]. split; [intros; discriminate|].
       split; [|intros; discriminate]. intros _. exists e3. reflexivity. }
  destruct (to_rational abs_alt 100) as [alt|e4] eqn:E4; cbn [bind].
  2: { split; [intros; discriminate|]. split; [intros; discriminate|].
       split; [|intros; discriminate]. intros _. exists e4. reflexivity. }
  destruct (make_gps_ifd lat_deg lon_deg alt) as [gps0|e5] eqn:E5.
  2: { split; [intros; discriminate|]. split; [intros; discriminate|].
       split; [|intros; discriminate]. intros _. exists e5. reflexivity. }
  destruct (piexif_dump (dict_set exif0 "GPS" (Built ifd gps0)))
    as [exif_bytes0|e6] eqn:E6.
  2: { split; [intros exif gps exif_bytes d' H1 H2 H3; congruence|].
       split; [intros; discriminate|].
       split; [|intros exif gps exif_bytes e d' H1 H2 H3; congruence].
       intros _. exists e6. reflexivity. }
  destruct (piexif_insert exif_bytes0 file_path d) as [[[]|e7] d7] eqn:E7; cbn [log disk].
  - split.
    { intros exif gps exif_bytes d' H1 H2 H3 H4.
      injection H1 as <-. injection H2 as <-. rewrite E6 in H3. injection H3 as <-.
      rewrite E7 in H4. injection H4 as <-. reflexivity. }
    split.
    { intros w' H. injection H as <-. cbn [log disk]. split; [reflexivity|].
      exists exif0, gps0, exif_bytes0. auto. }
    split.
    { intros [(e & H)|[(e & H)|(exif & gps & e & H1 & H2 & H3)]]; try discriminate.
      injection H1 as <-. injection H2 as <-. congruence. }
    intros exif gps exif_bytes e d' H1 H2 H3 H4.
    injection H1 as <-. injection H2 as <-. rewrite E6 in H3. injection H3 as <-.
    rewrite E7 in H4. discriminate.
  - split.
    { intros exif gps exif_bytes d' H1 H2 H3 H4.
      injection H1 as <-. injection H2 as <-. rewrite E6 in H3. injection H3 as <-.
      rewrite E7 in H4. discriminate. }
    split; [intros; discriminate|].
    split.
    { intros [(e & H)|[(e & H)|(exif & gps & e & H1 & H2 & H3)]]; try discriminate.
      injection H1 as <-. injection H2 as <-. congruence. }
    intros exif gps exif_bytes e d' H1 H2 H3 H4.
    injection H1 as <-. injection H2 as <-. rewrite E6 in H3. injection H3 as <-.
    rewrite E7 in H4. injection H4 as <- <-. reflexivity.
Qed.

(** ** Frames, groups and the run *)










Lemma fdiv_raises v y e : fdiv v y = Raise e -> e = ZeroDivisionError.
Proof.
  destruct v, y as [b|s|]; cbn [fdiv]; try discriminate;
    destruct (Qeq_bool b 0); congruence.
Qed.


(** The answer to a frame-rate question. *)
Lemma read_rate_cases answer default invalid w :
  (str_strip (chars answer) = [] /\
   read_rate answer default invalid w = (Ok default, w)) \/
  (exists x, py_float (str_strip (chars answer)) = Ok x /\
             read_rate answer default invalid w = (Ok x, w)) \/
  (str_strip (chars answer) <> [] /\
   py_float (str_strip (chars answer)) = Raise ValueError /\
   read_rate answer default invalid w
     = (Ok default, {| log := log w ++ [invalid]; disk := disk w |})).
Proof.
  unfold read_rate. destruct (str_strip (chars answer)) as [|c s] eqn:E.
  - left. auto.
  - right. destruct (py_float (c :: s)) as [x|e] eqn:F.
    + left. exists x. auto.
    + right. rewrite (py_float_raises _ _ F). repeat split. discriminate.
Qed.

(** The two questions, and what follows them. *)
Lemma run_after_questions (matched_groups : list group)
    (video_fps_answer extraction_fps_answer : string) (w : world) :
  exists video_fps extraction_fps w2,
    (video_fps_answer = EmptyString -> video_fps = default_video_fps) /\
    (extraction_fps_answer = EmptyString -> extraction_fps = default_extraction_fps) /\
    bindM (print LSettings ;;;
           read_rate video_fps_answer default_video_fps LInvalidFrameRate)
          (fun video_fps =>
             extraction_fps <~ read_rate extraction_fps_answer default_extraction_fps
                                 LInvalidExtractionRate ;;
             ret (video_fps, extraction_fps)) w
      = (Ok (video_fps, extraction_fps), w2) /\
    disk w2 = disk w /\
    (exists pre, log w2 = log w ++ pre /\ failures pre = 0) /\
    ((exists q, extraction_fps = Fin q /\ (q == 0)%Q) ->
     run matched_groups video_fps_answer extraction_fps_answer w
       = (Raise ZeroDivisionError,
          {| log := log w2 ++ [LOriginalVideo video_fps]; disk := disk w |})) /\
    (forall ratio, fdiv video_fps extraction_fps = Ok ratio ->
     run matched_groups video_fps_answer extraction_fps_answer w
       = bindM (do_groups video_fps extraction_fps matched_groups (0, 0))
           (fun totals =>
              print LComplete ;;;
              print (LSummary (fst totals) (snd totals) (List.length matched_groups)) ;;;
              print LNote)
           {| log := log w2 ++ [LOriginalVideo video_fps;
                                LFrameExtraction extraction_fps ratio];
              disk := disk w |}).
Proof.
  set (w0 := {| log := log w ++ [LSettings]; disk := disk w |}).
  assert (R : forall answer default invalid w', is_failure_line invalid = false ->
            exists v w1 a, read_rate answer default invalid w' = (Ok v, w1) /\
                           disk w1 = disk w' /\ log w1 = log w' ++ a /\ failures a = 0 /\
                           (answer = EmptyString -> v = default)).
  { intros answer default invalid w' Hi.
    destruct (read_rate_cases answer default invalid w')
      as [[E H]|[(x & F & H)|(N & F & H)]]; rewrite H.
    - exists default, w', []. rewrite app_nil_r. auto.
    - exists x, w', []. rewrite app_nil_r. repeat split.
      intros ->. vm_compute in F. discriminate.
    - eexists. eexists. exists [invalid]. repeat split.
      unfold failures. cbn. rewrite Hi. reflexivity. }
  destruct (R video_fps_answer default_video_fps LInvalidFrameRate w0 eq_refl)
    as (v & w1 & a1 & H1 & D1 & L1 & F1 & V1).
  destruct (R extraction_fps_answer default_extraction_fps LInvalidExtractionRate w1 eq_refl)
    as (x & w2 & a2 & H2 & D2 & L2 & F2 & V2).
  assert (D : disk w2 = disk w) by (rewrite D2, D1; reflexivity).
  exists v, x, w2. split; [exact V1|]. split; [exact V2|].
  split.
  { unfold bindM at 1 2. unfold print at 1. fold w0. rewrite H1.
    unfold bindM. rewrite H2. reflexivity. }
  split; [exact D|].
  split.
  { exists ([LSettings] ++ a1 ++ a2). split.
    - rewrite L2, L1. unfold w0. cbn [log]. rewrite <- !app_assoc. reflexivity.
    - rewrite !failures_app, F1, F2. reflexivity. }
  assert (Hrun : run matched_groups video_fps_answer extraction_fps_answer w
            = bindM (lift (fdiv v x))
                (fun ratio =>
                   print (LFrameExtraction x ratio) ;;;
                   totals <~ do_groups v x matched_groups (0, 0) ;;
                   print LComplete ;;;
                   print (LSummary (fst totals) (snd totals)
                            (List.length matched_groups)) ;;;
                   print LNote)
                {| log := log w2 ++ [LOriginalVideo v]; disk := disk w2 |}).
  { unfold geotag_dji_frames. unfold bindM at 1. unfold print at 1. fold w0.
    unfold bindM at 1. rewrite H1. unfold bindM at 1. rewrite H2.
    unfold bindM at 1. unfold print at 1. reflexivity. }
  split.
  + intros (q & -> & Hq). rewrite Hrun.
    unfold bindM, lift. rewrite D.
    destruct (fdiv v (Fin q)) as [r|e] eqn:F.
    * exfalso. destruct v; cbn [fdiv] in F; rewrite (Qeq_eq_bool _ _ Hq) in F;
        discriminate.
    * rewrite (fdiv_raises _ _ _ F). reflexivity.
  + intros ratio Hr. rewrite Hrun.
    unfold bindM at 1. unfold lift. rewrite Hr, D.
    unfold bindM at 1. unfold print at 1. cbn [log disk].
    rewrite <- app_assoc. reflexivity.
Qed.

(** C7 (amended): a frame-rate answer that is empty gives the default;
    an answer that [float()] accepts is used as it is, whatever its
    sign; an answer that [float()] rejects is reported and replaced by
    the default, and the run goes on.  Only an extraction rate equal to
    zero stops the run: the division that reports the rates raises
    ZeroDivisionError before any group or frame is processed. *)
Theorem frame_rate_answers (matched_groups : list group)
    (video_fps_answer extraction_fps_answer : string) (w : world) :
  (forall answer default invalid w0,
     str_strip (chars answer) = [] ->
     read_rate answer default invalid w0 = (Ok default, w0)) /\
  (forall answer default invalid w0 x,
     py_float (str_strip (chars answer)) = Ok x ->
     read_rate answer default invalid w0 = (Ok x, w0)) /\
  (forall answer default invalid w0 e,
     str_strip (chars answer) <> [] ->
     py_float (str_strip (chars answer)) = Raise e ->
     read_rate answer default invalid w0
       = (Ok default, {| log := log w0 ++ [invalid]; disk := disk w0 |})) /\
  exists video_fps extraction_fps w2,
    (video_fps_answer = EmptyString -> video_fps = default_video_fps) /\
    (extraction_fps_answer = EmptyString -> extraction_fps = default_extraction_fps) /\
    bindM (print LSettings ;;;
           read_rate video_fps_answer default_video_fps LInvalidFrameRate)
          (fun video_fps =>
             extraction_fps <~ read_rate extraction_fps_answer default_extraction_fps
                                 LInvalidExtractionRate ;;
             ret (video_fps, extraction_fps)) w
      = (Ok (video_fps, extraction_fps), w2) /\
    disk w2 = disk w /\
    (exists pre, log w2 = log w ++ pre /\ failures pre = 0) /\
    ((exists q, extraction_fps = Fin q /\ (q == 0)%Q) ->
     run matched_groups video_fps_answer extraction_fps_answer w
       = (Raise ZeroDivisionError,
          {| log := log w2 ++ [LOriginalVideo video_fps]; disk := disk w |})) /\
    (forall ratio, fdiv video_fps extraction_fps = Ok ratio ->
     run matched_groups video_fps_answer extraction_fps_answer w
       = bindM (do_groups video_fps extraction_fps matched_groups (0, 0))
           (fun totals =>
              print LComplete ;;;
              print (LSummary (fst totals) (snd totals) (List.length matched_groups)) ;;;
              print LNote)
           {| log := log w2 ++ [LOriginalVideo video_fps;
                                LFrameExtraction extraction_fps ratio];
              disk := disk w |}).
Proof.
  split; [|split; [|split]].
  - intros answer default invalid w0 H. unfold read_rate. rewrite H. reflexivity.
  - intros answer default invalid w0 x H. unfold read_rate.
    destruct (str_strip (chars answer)) as [|c s]; [discriminate H|].
    rewrite H. reflexivity.
  - intros answer default invalid w0 e Hn H. unfold read_rate.
    destruct (str_strip (chars answer)) as [|c s]; [contradiction|].
    rewrite H, (py_float_raises _ _ H). reflexivity.
  - apply run_after_questions.
Qed.








End ScriptFacts.

(* ===================================================================== *)
(** * Runs of the example folder                                           *)
(* ===================================================================== *)

Ltac in_log := vm_compute; repeat (first [left; reflexivity | right]).

(** The scenario of the specification: frame 6 at 5 frames per second is
    at 1000 ms, the subtitle from 1000 ms to 1200 ms contains it, and the
    image is tagged with latitude reference N and longitude reference W. *)
Example scenario_frame_6 :
  frame_timedelta_ms 6 (Fin 5) = Ok (Fin (inject_Z 1000)) /\
  find_sub (Fin (inject_Z 1000)) ex_subs = nth_error ex_subs 0 /\
  (exists g, encode_gps (b64_round (40123 # 1000)) (b64_round (- (74456 # 1000)))
               (b64_round (5025 # 100)) = Ok g /\
             GPSLatitudeRef g = "N"%string /\ GPSLongitudeRef g = "W"%string) /\
  fst (ex_run EmptyString EmptyString) = Ok tt /\
  In (LSummary 1 1 1) (log (snd (ex_run EmptyString EmptyString))).
Proof.
  split; [vm_compute; reflexivity|]. split; [vm_compute; reflexivity|].
  split; [eexists; split; [vm_compute; reflexivity|split; reflexivity]|].
  split; [vm_compute; reflexivity|]. in_log.
Qed.

(** C7 (as stated, refuted): an extraction rate that is not a number is
    replaced by 5 and the frame is geotagged; negative rates are accepted
    and the frame is processed, at -1 s. *)
Lemma invalid_rates_do_not_abort :
  py_float (str_strip (chars "fast")) = Raise ValueError /\
  fst (ex_run EmptyString "fast") = Ok tt /\
  In LInvalidExtractionRate (log (snd (ex_run EmptyString "fast"))) /\
  In (LSummary 1 1 1) (log (snd (ex_run EmptyString "fast"))) /\
  py_float (str_strip (chars "-5")) = Ok (Fin (- (5))) /\
  fst (ex_run "-30" "-5") = Ok tt /\
  In (LNoMatch "DJI_0001_000006.jpg" 6 (Fin (- (1)))) (log (snd (ex_run "-30" "-5"))) /\
  In (LSummary 0 1 1) (log (snd (ex_run "-30" "-5"))).
Proof.
  split; [vm_compute; reflexivity|]. split; [vm_compute; reflexivity|].
  split; [in_log|]. split; [in_log|].
  split; [vm_compute; reflexivity|]. split; [vm_compute; reflexivity|].
  split; in_log.
Qed.

(** An extraction rate of zero stops the run before the first group. *)
Example zero_rate_aborts :
  fst (ex_run EmptyString "0") = Raise ZeroDivisionError /\
  List.length (log (snd (ex_run EmptyString "0"))) = 2%nat.
Proof. split; vm_compute; reflexivity. Qed.

(** With nothing to read, the first [input()] raises [EOFError], which
    leaves the function after the heading of the questions; with the
    default rates the same folder is processed to the summary. *)
Example no_answer_stops_at_the_question :
  geotag_dji_frames_input unit ex_load ex_dump ex_insert ex_open "/flight" ex_groups
    (Raise (OtherError "EOFError")) (Raise (OtherError "EOFError")) ex_world
    = (Raise (OtherError "EOFError"), {| log := [LSettings]; disk := disk ex_world |}) /\
  fst (geotag_dji_frames_input unit ex_load ex_dump ex_insert ex_open "/flight" ex_groups
         (Ok EmptyString) (Ok EmptyString) ex_world) = Ok tt /\
  In (LSummary 1 1 1)
     (log (snd (geotag_dji_frames_input unit ex_load ex_dump ex_insert ex_open "/flight"
                  ex_groups (Ok EmptyString) (Ok EmptyString) ex_world))).
Proof.
  split; [reflexivity|]. split; [vm_compute; reflexivity|]. in_log.
Qed.

Lemma set_gps_location_write_witness :
  exists d',
    set_gps_location unit ex_load ex_dump ex_insert "/flight/DJI_0001_000006.jpg"
      (Fin (321 # 8)) (Fin (- (149 # 2))) (Fin (201 # 4)) None ex_world
      = (Ok true, {| log := log ex_world; disk := d' |}) /\
    d' "/flight/DJI_0001_000006.jpg"%string = Some "ExifJPEG"%string /\
    d' "/flight/notes.txt"%string = disk ex_world "/flight/notes.txt"%string.
Proof.
  destruct (set_gps_location_write unit ex_load ex_dump ex_insert
              "/flight/DJI_0001_000006.jpg" (Fin (321 # 8)) (Fin (- (149 # 2)))
              (Fin (201 # 4)) None ex_world) as (_ & Hok & _).
  destruct (encode_gps (Fin (321 # 8)) (Fin (- (149 # 2))) (Fin (201 # 4)))
    as [gps|e] eqn:E; [|vm_compute in E; discriminate E].
  eexists. split.
  - apply (Hok [("0th", Loaded unit tt); ("Exif", Loaded unit tt);
                ("GPS", Loaded unit tt)]%string gps "Exif"%string);
      [reflexivity|reflexivity|reflexivity|reflexivity].
  - split; reflexivity.
Defined.

(** C8, the claim as it was stated: the write of the image is made by
    [piexif.insert] on the image itself, so the files after a failed
    write are what the insert left.  With an insert that fails once the
    image has been opened for writing, [set_gps_location] reports the
    failure and the image is not what it was. *)
Lemma failed_insert_modifies_image :
  exists w',
    set_gps_location unit ex_load ex_dump ex_insert_failing
      "/flight/DJI_0001_000006.jpg"
      (Fin (321 # 8)) (Fin (- (149 # 2))) (Fin (201 # 4)) None ex_world
      = (Ok false, w') /\
    log w' = [LErrorWriting "/flight/DJI_0001_000006.jpg" (OtherError "OSError")] /\
    disk ex_world "/flight/DJI_0001_000006.jpg"%string = Some "JPEG"%string /\
    disk w' "/flight/DJI_0001_000006.jpg"%string = Some EmptyString /\
    disk w' "/flight/DJI_0001_000006.jpg"%string
      <> disk ex_world "/flight/DJI_0001_000006.jpg"%string.
Proof.
  exists (snd (set_gps_location unit ex_load ex_dump ex_insert_failing
                 "/flight/DJI_0001_000006.jpg"
                 (Fin (321 # 8)) (Fin (- (149 # 2))) (Fin (201 # 4)) None ex_world)).
  split; [vm_compute; reflexivity|].
  split; [vm_compute; reflexivity|]. split; [reflexivity|].
  split; [vm_compute; reflexivity|].
  vm_compute. discriminate.
Qed.

(* ===================================================================== *)
(** * File names                                                           *)
(* ===================================================================== *)

Local Open Scope Z_scope.
Local Open Scope string_scope.
Local Open Scope list_scope.

(** ** The file-name patterns *)

Lemma chars_inj a b : chars a = chars b -> a = b.
Proof.
  intros H. rewrite <- (string_of_list_ascii_of_string a), <- (string_of_list_ascii_of_string b).
  unfold chars in H. rewrite H. reflexivity.
Qed.

Lemma chars_of_list g : chars (string_of_list_ascii g) = g.
Proof. apply list_ascii_of_string_of_list_ascii. Qed.

Lemma lower_char_cases x :
  (is_digit x = true -> lower_char x = x) /\
  (lower_char x = "_"%char -> x = "_"%char) /\
  (lower_char x = "."%char -> x = "."%char) /\
  (lower_char x = "010"%char -> x = "010"%char) /\
  (lower_char x = "j"%char \/ lower_char x = "p"%char \/ lower_char x = "g"%char \/
   lower_char x = "s"%char \/ lower_char x = "e"%char \/ lower_char x = "d"%char \/
   lower_char x = "i"%char \/ lower_char x = "r"%char \/ lower_char x = "t"%char ->
   is_digit x = false /\ cls_not_underscore x = true /\ x <> "010"%char).
Proof.
  destruct x as [[] [] [] [] [] [] [] []]; vm_compute;
    repeat split; intros; try discriminate; try reflexivity;
    repeat match goal with H : _ \/ _ |- _ => destruct H end; try discriminate.
Qed.

Lemma pushes_push on g x m : pushes on (push on g x) m = pushes on g (x :: m).
Proof. unfold pushes, push. destruct on; [rewrite <- app_assoc|]; reflexivity. Qed.

Lemma rx_lits w rest on s g r :
  rx_here (map RLit w ++ rest) on s g = Some r <->
  exists m s', s = m ++ s' /\ map lower_char m = map lower_char w /\
               rx_here rest on s' (pushes on g m) = Some r.
Proof.
  revert s g. induction w as [|c w IH]; intros s g; cbn [map app rx_here].
  - split.
    + intros H. exists [], s. unfold pushes. destruct on; rewrite ?app_nil_r; auto.
    + intros (m & s' & -> & Hm & H). destruct m; [|discriminate].
      unfold pushes in H. destruct on; rewrite ?app_nil_r in H; exact H.
  - destruct s as [|x s].
    + split; [discriminate|]. intros (m & s' & Hs & Hm & _).
      destruct m; [discriminate|discriminate].
    + destruct (Ascii.eqb (lower_char x) (lower_char c)) eqn:E.
      * apply Ascii.eqb_eq in E. rewrite IH. split.
        -- intros (m & s' & -> & Hm & H). exists (x :: m), s'.
           rewrite <- pushes_push. cbn. rewrite E, Hm. auto.
        -- intros (m & s' & Hs & Hm & H). destruct m as [|y m]; [discriminate|].
           cbn in Hs, Hm. injection Hs as <- ->. injection Hm as _ Hm.
           exists m, s'. rewrite pushes_push. auto.
      * split; [discriminate|]. intros (m & s' & Hs & Hm & _).
        destruct m as [|y m]; [discriminate|].
        cbn in Hs, Hm. injection Hs as <- ->. injection Hm as Hx _.
        rewrite Hx, Ascii.eqb_refl in E. discriminate.
Qed.

Lemma rx_plus_greedy cls k on s g :
  (forall x s' g', cls x = true -> k (x :: s') g' = None) ->
  rx_plus cls k on s g = k (drop_while cls s) (pushes on g (take_while cls s)).
Proof.
  intros Hk. revert g. induction s as [|y s IH]; intros g; cbn.
  - unfold pushes. destruct on; rewrite ?app_nil_r; reflexivity.
  - destruct (cls y) eqn:E.
    + rewrite IH, pushes_push.
      destruct (k (drop_while cls s) (pushes on g (y :: take_while cls s))) eqn:K;
        [reflexivity|].
      symmetry. rewrite Hk by exact E. reflexivity.
    + unfold pushes. destruct on; rewrite ?app_nil_r; reflexivity.
Qed.

Lemma rx_plus_sound cls k on s g r :
  rx_plus cls k on s g = Some r ->
  exists body rest, s = body ++ rest /\ forallb cls body = true /\
                    k rest (pushes on g body) = Some r.
Proof.
  revert g. induction s as [|y s IH]; intros g; cbn.
  - intros H. exists [], []. unfold pushes. destruct on; rewrite ?app_nil_r; auto.
  - assert (Hstop : k (y :: s) g = Some r ->
                    exists body rest, y :: s = body ++ rest /\ forallb cls body = true /\
                                      k rest (pushes on g body) = Some r).
    { intros H. exists [], (y :: s). unfold pushes. destruct on; rewrite ?app_nil_r; auto. }
    destruct (cls y) eqn:E; [|exact Hstop].
    destruct (rx_plus cls k on s (push on g y)) eqn:P; [|exact Hstop].
    intros H. injection H as <-. destruct (IH _ P) as (body & rest & -> & Hb & K).
    exists (y :: body), rest. cbn. rewrite E, Hb, <- pushes_push. auto.
Qed.

Lemma rx_plus_complete cls k on body rest g r :
  forallb cls body = true -> k rest (pushes on g body) = Some r ->
  exists r', rx_plus cls k on (body ++ rest) g = Some r'.
Proof.
  revert g. induction body as [|b body IH]; intros g Hb K.
  - assert (K' : k rest g = Some r).
    { unfold pushes in K. destruct on; rewrite ?app_nil_r in K; exact K. }
    cbn. destruct rest as [|y rest]; cbn; [eauto|].
    destruct (cls y); [|eauto].
    destruct (rx_plus cls k on rest (push on g y)); eauto.
  - cbn in Hb. apply andb_true_iff in Hb as [Eb Hb]. cbn. rewrite Eb.
    rewrite <- pushes_push in K. destruct (IH _ Hb K) as (r' & ->). eauto.
Qed.

Lemma rx_end on s g r :
  rx_here [REnd] on s g = Some r <-> (s = [] \/ s = ["010"%char]) /\ r = g.
Proof.
  cbn. destruct s as [|c [|d s]].
  - split; [intros [= <-]; auto | intros [_ ->]; reflexivity].
  - destruct (Ascii.eqb c "010") eqn:E.
    + apply Ascii.eqb_eq in E. subst c.
      split; [intros [= <-]; auto | intros [_ ->]; reflexivity].
    + split; [discriminate|]. intros [[H|H] _]; [discriminate|].
      injection H as ->. discriminate.
  - split; [discriminate|]. intros [[H|H] _]; discriminate.
Qed.

Lemma rx_extension on s g r :
  rx_here (rlits ".jpg" ++ [REnd]) on s g = Some r <->
  exists ext nl, s = ext ++ nl /\ str_lower ext = chars ".jpg" /\
                 (nl = [] \/ nl = ["010"%char]) /\ r = pushes on g ext.
Proof.
  unfold rlits. rewrite rx_lits. split.
  - intros (m & s' & -> & Hm & H). apply rx_end in H as [Hnl ->].
    exists m, s'. auto.
  - intros (ext & nl & -> & He & Hnl & ->). exists ext, nl.
    split; [reflexivity|]. split; [exact He|]. apply rx_end. auto.
Qed.

Lemma lower_digit_not x c :
  is_digit x = true -> is_digit c = false -> Ascii.eqb (lower_char x) c = false.
Proof.
  intros Hx Hc. destruct (lower_char_cases x) as (Hl & _). rewrite (Hl Hx).
  destruct (Ascii.eqb x c) eqn:E; [|reflexivity].
  apply Ascii.eqb_eq in E. rewrite <- E, Hx in Hc. discriminate.
Qed.

Lemma digits_split ds r s :
  forallb is_digit ds = true ->
  (match r with [] => True | c :: _ => is_digit c = false end) ->
  s = ds ++ r -> take_while is_digit s = ds /\ drop_while is_digit s = r.
Proof.
  intros Hd Hr ->. rewrite take_while_app, drop_while_app by exact Hd.
  destruct r as [|c r]; cbn.
  - rewrite app_nil_r. auto.
  - rewrite Hr, app_nil_r. auto.
Qed.

Lemma rx_prefix_pattern tailW s p :
  rx_match ([ROpen] ++ rlits "DJI_" ++ [RPlus is_digit; RClose]
            ++ rlits (String "_" tailW) ++ [RPlus is_digit] ++ rlits ".jpg" ++ [REnd]) s
    = Some p <->
  video_name (String "_" tailW) s p.
Proof.
  assert (Hk1 : forall rest x s' g',
    is_digit x = true ->
    rx_here (rlits (String "_" tailW) ++ rest) false (x :: s') g' = None).
  { intros rest x s' g' Hx. cbn [app rx_here rlits chars list_ascii_of_string map].
    change (lower_char "_") with "_"%char.
    rewrite lower_digit_not; [reflexivity|exact Hx|reflexivity]. }
  assert (Hk2 : forall x s' g',
    is_digit x = true ->
    rx_here (rlits ".jpg" ++ [REnd]) false (x :: s') g' = None).
  { intros x s' g' Hx. cbn [app rx_here rlits chars list_ascii_of_string map].
    change (lower_char ".") with "."%char.
    rewrite lower_digit_not; [reflexivity|exact Hx|reflexivity]. }
  unfold rx_match, video_name. cbn [app rx_here]. split.
  - intros H. unfold rlits at 1 in H. apply rx_lits in H as (head & s1 & -> & Hh & H).
    destruct s1 as [|x s1]; [discriminate|]. cbn [app rx_here] in H.
    destruct (is_digit x) eqn:Ex; [|discriminate].
    rewrite rx_plus_greedy in H by (intros; apply Hk1; assumption).
    unfold rlits at 1 in H.
    apply rx_lits in H as (sp & s3 & Hs & Hsp & H).
    destruct s3 as [|y s3]; [discriminate|]. cbn [app rx_here] in H.
    destruct (is_digit y) eqn:Ey; [|discriminate].
    rewrite rx_plus_greedy in H by (intros; apply Hk2; assumption).
    apply rx_extension in H as (ext & nl & Hd & He & Hnl & ->).
    exists head, (x :: take_while is_digit s1), sp, (y :: take_while is_digit s3), ext, nl.
    unfold pushes, push. cbn [app].
    split; [|split; [|split; [exact Hh|split; [discriminate|split; [|split;
      [exact Hsp|split; [discriminate|split; [|split; [exact He|exact Hnl]]]]]]]]].
    + f_equal. f_equal.
      rewrite <- (take_drop_while is_digit s1) at 1. f_equal.
      rewrite Hs. f_equal. f_equal.
      rewrite <- (take_drop_while is_digit s3) at 1. f_equal.
      exact Hd.
    + rewrite <- !app_assoc. reflexivity.
    + cbn. rewrite Ex. apply forallb_take_while.
    + cbn. rewrite Ey. apply forallb_take_while.
  - intros (head & ds & sp & ns & ext & nl & -> & -> & Hh & Hds & Dds & Hsp & Hns & Dns & He & Hnl).
    unfold rlits at 1. apply rx_lits. exists head, (ds ++ sp ++ ns ++ ext ++ nl).
    split; [reflexivity|]. split; [exact Hh|].
    destruct ds as [|x ds]; [congruence|]. cbn in Dds. apply andb_true_iff in Dds as [Ex Dds].
    cbn [app rx_here]. rewrite Ex.
    rewrite rx_plus_greedy by (intros; apply Hk1; assumption).
    assert (Hsp0 : exists u sp', sp = u :: sp' /\ is_digit u = false).
    { destruct sp as [|u sp']; [discriminate|]. exists u, sp'. split; [reflexivity|].
      cbn in Hsp. injection Hsp as Hu _.
      destruct (lower_char_cases u) as (_ & Hu' & _). rewrite (Hu' Hu). reflexivity. }
    destruct Hsp0 as (u & sp' & -> & Du).
    destruct (digits_split ds ((u :: sp') ++ ns ++ ext ++ nl) _ Dds Du eq_refl) as [-> ->].
    unfold rlits at 1. apply rx_lits. exists (u :: sp'), (ns ++ ext ++ nl).
    split; [reflexivity|]. split; [exact Hsp|].
    destruct ns as [|y ns]; [congruence|]. cbn in Dns. apply andb_true_iff in Dns as [Ey Dns].
    cbn [app rx_here]. rewrite Ey.
    rewrite rx_plus_greedy by (intros; apply Hk2; assumption).
    assert (He0 : match ext ++ nl with [] => True | c :: _ => is_digit c = false end).
    { destruct ext as [|e ext]; [discriminate|]. cbn. cbn in He. injection He as He _.
      destruct (lower_char_cases e) as (_ & _ & He' & _). rewrite (He' He). reflexivity. }
    destruct (digits_split ns (ext ++ nl) _ Dns He0 eq_refl) as [-> ->].
    apply rx_extension. exists ext, nl. unfold pushes, push.
    repeat split; try assumption. rewrite <- !app_assoc. reflexivity.
Qed.

Lemma video_name_prefix tailW s p :
  video_name (String "_" tailW) s p ->
  p = firstn 4 s ++ take_while is_digit (skipn 4 s).
Proof.
  intros (head & ds & sp & ns & ext & nl & -> & -> & Hh & Hds & Dds & Hsp & _).
  assert (L : List.length head = 4%nat).
  { apply (f_equal (@List.length ascii)) in Hh. unfold str_lower in Hh.
    rewrite length_map in Hh. exact Hh. }
  destruct head as [|a [|b [|c [|d [|? ?]]]]]; try discriminate L.
  cbn [firstn skipn app].
  destruct sp as [|u sp']; [discriminate|].
  cbn in Hsp. injection Hsp as Hu _.
  destruct (lower_char_cases u) as (_ & Hu' & _).
  assert (Du : is_digit u = false) by (rewrite (Hu' Hu); reflexivity).
  destruct (digits_split ds ((u :: sp') ++ ns ++ ext ++ nl) _ Dds Du eq_refl) as [-> _].
  reflexivity.
Qed.

Lemma extract_video_prefix_cases (filename prefix : string) :
  extract_video_prefix filename = Some prefix <->
  video_name "_SE_" (chars filename) (chars prefix) \/
  video_name "_" (chars filename) (chars prefix).
Proof.
  unfold extract_video_prefix.
  assert (Hse : forall p, rx_match re_prefix_se (chars filename) = Some p <->
                          video_name "_SE_" (chars filename) p)
    by (intros p; apply (rx_prefix_pattern "SE_")).
  assert (Hpl : forall p, rx_match re_prefix_plain (chars filename) = Some p <->
                          video_name "_" (chars filename) p)
    by (intros p; apply (rx_prefix_pattern EmptyString)).
  assert (Hu : forall p, video_name "_SE_" (chars filename) p \/
                         video_name "_" (chars filename) p ->
                         p = firstn 4 (chars filename)
                               ++ take_while is_digit (skipn 4 (chars filename))).
  { intros p [H|H]; exact (video_name_prefix _ _ _ H). }
  destruct (rx_match re_prefix_se (chars filename)) as [g1|].
  - assert (H1 : video_name "_SE_" (chars filename) g1) by (apply Hse; reflexivity).
    split.
    + intros [= <-]. left. rewrite chars_of_list. exact H1.
    + intros H. apply Hu in H. rewrite (Hu g1 (or_introl H1)), <- H.
      unfold chars. rewrite string_of_list_ascii_of_string. reflexivity.
  - destruct (rx_match re_prefix_plain (chars filename)) as [g2|].
    + assert (H2 : video_name "_" (chars filename) g2) by (apply Hpl; reflexivity).
      split.
      * intros [= <-]. right. rewrite chars_of_list. exact H2.
      * intros H. apply Hu in H. rewrite (Hu g2 (or_intror H2)), <- H.
        unfold chars. rewrite string_of_list_ascii_of_string. reflexivity.
    + split; [discriminate|]. intros [H|H].
      * apply Hse in H. discriminate.
      * apply Hpl in H. discriminate.
Qed.

(** ** [int()] on the frame field *)

Lemma digit_char_cases c :
  is_digit c = true ->
  fold_space c = c /\ is_ascii_space c = false /\ Ascii.eqb c "-" = false /\
  Ascii.eqb c "+" = false /\ Ascii.eqb c "_" = false /\ is_int_char c = true /\
  cls_not_underscore c = true /\ 0 <= digit_value c <= 9.
Proof.
  destruct c as [[] [] [] [] [] [] [] []]; vm_compute; intros H; try discriminate H;
    repeat split; intros; discriminate.
Qed.

Lemma check_underscores_digits ds prev :
  forallb is_digit ds = true -> Ascii.eqb prev "_" = false ->
  check_underscores prev ds = Some ds.
Proof.
  revert prev. induction ds as [|c ds IH]; intros prev Hd Hp; cbn.
  - rewrite Hp. reflexivity.
  - cbn in Hd. apply andb_true_iff in Hd as [Hc Hd].
    destruct (digit_char_cases c Hc) as (_ & _ & _ & _ & Hu & _).
    rewrite Hu, Hp. cbn. rewrite (IH c Hd Hu). reflexivity.
Qed.

Lemma while_all p s :
  forallb p s = true -> take_while p s = s /\ drop_while p s = [].
Proof.
  intros H. pose proof (take_while_app p s [] H) as Ht.
  pose proof (drop_while_app p s [] H) as Hd.
  rewrite app_nil_r in Ht, Hd. cbn in Ht, Hd. rewrite app_nil_r in Ht. auto.
Qed.

Lemma py_int_raises g e : py_int g = Raise e -> e = ValueError.
Proof.
  unfold py_int. destruct (read_sign _) as [neg s2].
  destruct (check_underscores _ _) as [[|d ds]|]; try congruence.
  destruct (forallb _ _); [|congruence].
  destruct (_ <? _)%nat; congruence.
Qed.

Lemma py_int_digits ds :
  ds <> [] -> forallb is_digit ds = true -> (List.length ds <= int_max_str_digits)%nat ->
  py_int ds = Ok (digits_value ds).
Proof.
  intros Hn Hd Hl. unfold py_int.
  assert (Hf : map fold_space ds = ds).
  { clear Hn Hl. induction ds as [|c ds IH]; [reflexivity|].
    cbn in Hd. apply andb_true_iff in Hd as [Hc Hd]. cbn.
    rewrite (IH Hd). destruct (digit_char_cases c Hc) as (-> & _). reflexivity. }
  rewrite Hf. destruct ds as [|d ds]; [congruence|].
  pose proof Hd as Hd0. cbn in Hd0. apply andb_true_iff in Hd0 as [Hc Hd'].
  destruct (digit_char_cases d Hc) as (_ & Hs & Hm & Hp & Hu & _).
  cbn [drop_while]. rewrite Hs. cbn [read_sign]. rewrite Hm, Hp.
  assert (Hi : forallb is_int_char (d :: ds) = true).
  { clear - Hd. induction (d :: ds) as [|c l IH]; [reflexivity|].
    cbn in Hd. apply andb_true_iff in Hd as [Hc Hd]. cbn.
    destruct (digit_char_cases c Hc) as (_ & _ & _ & _ & _ & -> & _). exact (IH Hd). }
  destruct (while_all is_int_char (d :: ds) Hi) as [-> ->].
  rewrite check_underscores_digits by (exact Hd || reflexivity).
  cbn [forallb]. apply Nat.ltb_ge in Hl. rewrite Hl. reflexivity.
Qed.

Lemma digits_value_nonneg ds : forallb is_digit ds = true -> 0 <= digits_value ds.
Proof.
  unfold digits_value. intros Hd.
  assert (H : forall acc, 0 <= acc ->
            0 <= fold_left (fun acc c => 10 * acc + digit_value c) ds acc).
  { induction ds as [|c ds IH]; intros acc Ha; cbn [fold_left]; [exact Ha|].
    cbn in Hd. apply andb_true_iff in Hd as [Hc Hd].
    destruct (digit_char_cases c Hc) as (_ & _ & _ & _ & _ & _ & _ & Hv).
    apply IH; [exact Hd|lia]. }
  apply H. lia.
Qed.

(** ** The frame field *)

Lemma rx_search_sound pat s r :
  rx_search pat s = Some r ->
  exists pre tl, s = pre ++ tl /\ rx_here pat false tl [] = Some r.
Proof.
  induction s as [|c s IH]; cbn.
  - destruct (rx_here pat false [] []) eqn:E; [|discriminate].
    intros [= <-]. exists [], []. auto.
  - destruct (rx_here pat false (c :: s) []) eqn:E.
    + intros [= <-]. exists [], (c :: s). auto.
    + intros H. destruct (IH H) as (pre & tl & -> & Hm). exists (c :: pre), tl. auto.
Qed.

Lemma rx_search_complete pat pre tl r :
  rx_here pat false tl [] = Some r -> exists r', rx_search pat (pre ++ tl) = Some r'.
Proof.
  intros H. induction pre as [|c pre IH]; cbn [app].
  - destruct tl; cbn; rewrite H; eauto.
  - cbn. destruct (rx_here pat false (c :: pre ++ tl) []); eauto.
Qed.

Lemma extension_chars ext :
  str_lower ext = chars ".jpg" ->
  exists a b c d, ext = [a; b; c; d] /\ a = "."%char /\ lower_char d = "g"%char /\
                  forallb cls_not_underscore ext = true /\ forallb is_digit ext = false.
Proof.
  intros H. destruct ext as [|a [|b [|c [|d [|? ?]]]]]; try discriminate H.
  cbn in H. injection H as Ha Hb Hc Hd. exists a, b, c, d.
  destruct (lower_char_cases a) as (_ & _ & Hdot & _). rewrite (Hdot Ha).
  destruct (lower_char_cases b) as (_ & _ & _ & _ & Hb').
  destruct (lower_char_cases c) as (_ & _ & _ & _ & Hc').
  destruct (lower_char_cases d) as (_ & _ & _ & _ & Hd').
  destruct Hb' as (_ & Hb' & _); [tauto|].
  destruct Hc' as (_ & Hc' & _); [tauto|].
  destruct Hd' as (_ & Hd' & _); [tauto|].
  cbn. rewrite Hb', Hc', Hd'. auto.
Qed.

Lemma frame_tail_clean g ext nl :
  forallb cls_not_underscore g = true -> str_lower ext = chars ".jpg" ->
  nl = [] \/ nl = ["010"%char] ->
  forallb cls_not_underscore (g ++ ext ++ nl) = true.
Proof.
  intros Hg He Hnl. rewrite !forallb_app, Hg.
  destruct (extension_chars ext He) as (a & b & c & d & _ & _ & _ & -> & _).
  destruct Hnl as [-> | ->]; reflexivity.
Qed.

Lemma last_underscore_unique l1 t1 l2 t2 :
  l1 ++ "_"%char :: t1 = l2 ++ "_"%char :: t2 ->
  forallb cls_not_underscore t1 = true -> forallb cls_not_underscore t2 = true ->
  l1 = l2 /\ t1 = t2.
Proof.
  revert l2. induction l1 as [|a l1 IH]; intros l2 H H1 H2.
  - destruct l2 as [|b l2]; cbn in H.
    + injection H as ->. auto.
    + injection H as <- ->. rewrite forallb_app in H1. cbn in H1.
      rewrite andb_false_r in H1. discriminate.
  - destruct l2 as [|b l2]; cbn in H.
    + injection H as -> <-. rewrite forallb_app in H2. cbn in H2.
      rewrite andb_false_r in H2. discriminate.
    + injection H as <- H. destruct (IH _ H H1 H2) as [-> ->]. auto.
Qed.

Lemma frame_end_unique g ext nl g' ext' nl' :
  g ++ ext ++ nl = g' ++ ext' ++ nl' ->
  str_lower ext = chars ".jpg" -> str_lower ext' = chars ".jpg" ->
  nl = [] \/ nl = ["010"%char] -> nl' = [] \/ nl' = ["010"%char] ->
  g = g'.
Proof.
  intros H He He' Hnl Hnl'.
  destruct (extension_chars ext He) as (a & b & c & d & -> & _ & Hd & _).
  destruct (extension_chars ext' He') as (a' & b' & c' & d' & -> & _ & Hd' & _).
  apply (f_equal (@rev ascii)) in H. rewrite !rev_app_distr in H.
  assert (Hx : forall x, lower_char x = "g"%char -> x <> "010"%char).
  { intros x Hx. destruct (lower_char_cases x) as (_ & _ & _ & _ & Hc).
    apply Hc. tauto. }
  destruct Hnl as [-> | ->], Hnl' as [-> | ->]; cbn in H.
  - injection H as _ _ _ _ H. apply (f_equal (@rev ascii)) in H.
    rewrite !rev_involutive in H. exact H.
  - injection H as H _. apply Hx in Hd. congruence.
  - injection H as H _. apply Hx in Hd'. congruence.
  - injection H as _ _ _ _ H. apply (f_equal (@rev ascii)) in H.
    rewrite !rev_involutive in H. exact H.
Qed.

Lemma frame_field_unique s g g' : frame_field s g -> frame_field s g' -> g = g'.
Proof.
  intros (pre & ext & nl & -> & _ & Hg & He & Hnl)
         (pre' & ext' & nl' & H & _ & Hg' & He' & Hnl').
  apply last_underscore_unique in H as [_ H];
    [|apply frame_tail_clean; assumption|apply frame_tail_clean; assumption].
  exact (frame_end_unique _ _ _ _ _ _ H He He' Hnl Hnl').
Qed.

Lemma rx_frame_se tl r :
  rx_here re_frame_se false tl [] = Some r <->
  exists u ext nl,
    tl = u ++ r ++ ext ++ nl /\ str_lower u = chars "_se_" /\
    r <> [] /\ forallb is_digit r = true /\
    str_lower ext = chars ".jpg" /\ (nl = [] \/ nl = ["010"%char]).
Proof.
  assert (Hk : forall x s' g',
    is_digit x = true ->
    rx_here (rlits ".jpg" ++ [REnd]) false (x :: s') g' = None).
  { intros x s' g' Hx. cbn [app rx_here rlits chars list_ascii_of_string map].
    change (lower_char ".") with "."%char.
    rewrite lower_digit_not; [reflexivity|exact Hx|reflexivity]. }
  unfold re_frame_se. split.
  - intros H. unfold rlits at 1 in H. apply rx_lits in H as (u & s1 & -> & Hu & H).
    destruct s1 as [|x s1]; [discriminate|]. cbn [app rx_here] in H.
    destruct (is_digit x) eqn:Ex; [|discriminate].
    rewrite rx_plus_greedy in H by (intros; apply Hk; assumption).
    apply rx_extension in H as (ext & nl & Hd & He & Hnl & ->).
    exists u, ext, nl. unfold pushes, push. cbn [app].
    split; [|split; [exact Hu|split; [discriminate|split; [|split; [exact He|exact Hnl]]]]].
    + f_equal. f_equal. rewrite <- (take_drop_while is_digit s1) at 1. f_equal. exact Hd.
    + cbn. rewrite Ex. apply forallb_take_while.
  - intros (u & ext & nl & -> & Hu & Hr & Dr & He & Hnl).
    unfold rlits at 1. apply rx_lits. exists u, (r ++ ext ++ nl).
    split; [reflexivity|]. split; [exact Hu|].
    destruct r as [|x r]; [congruence|]. cbn in Dr. apply andb_true_iff in Dr as [Ex Dr].
    cbn [app rx_here]. rewrite Ex.
    rewrite rx_plus_greedy by (intros; apply Hk; assumption).
    assert (He0 : match ext ++ nl with [] => True | c :: _ => is_digit c = false end).
    { destruct (extension_chars ext He) as (a & b & c & d & -> & -> & _). reflexivity. }
    destruct (digits_split r (ext ++ nl) _ Dr He0 eq_refl) as [-> ->].
    apply rx_extension. exists ext, nl. unfold pushes, push. auto.
Qed.

Lemma rx_frame_plain_sound tl r :
  rx_here re_frame_plain false tl [] = Some r ->
  exists ext nl,
    tl = "_"%char :: r ++ ext ++ nl /\ r <> [] /\ forallb cls_not_underscore r = true /\
    str_lower ext = chars ".jpg" /\ (nl = [] \/ nl = ["010"%char]).
Proof.
  unfold re_frame_plain. intros H.
  unfold rlits at 1 in H. apply rx_lits in H as (u & s1 & -> & Hu & H).
  destruct u as [|u [|? ?]]; try discriminate Hu. cbn in Hu. injection Hu as Hu.
  destruct (lower_char_cases u) as (_ & Hu' & _). rewrite (Hu' Hu).
  destruct s1 as [|x s1]; [discriminate|]. cbn [app rx_here] in H.
  destruct (cls_not_underscore x) eqn:Ex; [|discriminate].
  apply rx_plus_sound in H as (body & rest & -> & Hb & H). cbv beta in H.
  apply rx_extension in H as (ext & nl & -> & He & Hnl & ->).
  exists ext, nl. unfold pushes, push. cbn [app].
  split; [reflexivity|split; [discriminate|split; [|split; [exact He|exact Hnl]]]].
  cbn. rewrite Ex. exact Hb.
Qed.

Lemma rx_frame_plain_complete g ext nl :
  g <> [] -> forallb cls_not_underscore g = true ->
  str_lower ext = chars ".jpg" -> nl = [] \/ nl = ["010"%char] ->
  rx_here re_frame_plain false ("_"%char :: g ++ ext ++ nl) [] = Some g.
Proof.
  intros Hg Dg He Hnl.
  assert (Hex : exists r', rx_here re_frame_plain false
                             ("_"%char :: g ++ ext ++ nl) [] = Some r').
  { unfold re_frame_plain. cbn [rlits chars list_ascii_of_string map app rx_here].
    change (lower_char "_") with "_"%char. rewrite Ascii.eqb_refl.
    destruct g as [|x g]; [congruence|]. cbn in Dg. apply andb_true_iff in Dg as [Ex Dg].
    cbn [app]. rewrite Ex.
    apply (rx_plus_complete _ _ _ g (ext ++ nl) _ (x :: g)); [exact Dg|].
    cbv beta. apply rx_extension. exists ext, nl. unfold pushes, push. auto. }
  destruct Hex as (r' & Hr'). rewrite Hr'. f_equal.
  apply (frame_field_unique ("_"%char :: g ++ ext ++ nl)).
  - destruct (rx_frame_plain_sound _ _ Hr') as (ext' & nl' & Ht & Hn & Dr & He' & Hnl').
    exists [], ext', nl'. auto.
  - exists [], ext, nl. auto.
Qed.

Lemma search_frame_se s r :
  rx_search re_frame_se s = Some r ->
  frame_field s r /\ r <> [] /\ forallb is_digit r = true.
Proof.
  intros H. apply rx_search_sound in H as (pre & tl & -> & H).
  apply rx_frame_se in H as (u & ext & nl & -> & Hu & Hr & Dr & He & Hnl).
  split; [|auto].
  destruct u as [|a [|b [|c [|d [|? ?]]]]]; try discriminate Hu.
  cbn in Hu. injection Hu as _ _ _ Hd.
  destruct (lower_char_cases d) as (_ & Hd' & _). rewrite (Hd' Hd).
  exists (pre ++ [a; b; c]), ext, nl. rewrite <- app_assoc. cbn [app].
  split; [reflexivity|]. split; [exact Hr|]. split; [|auto].
  clear - Dr. induction r as [|x r IH]; [reflexivity|].
  cbn in Dr. apply andb_true_iff in Dr as [Hx Dr]. cbn.
  destruct (digit_char_cases x Hx) as (_ & _ & _ & _ & _ & _ & -> & _). exact (IH Dr).
Qed.

Lemma search_frame_plain_sound s r :
  rx_search re_frame_plain s = Some r -> frame_field s r.
Proof.
  intros H. apply rx_search_sound in H as (pre & tl & -> & H).
  apply rx_frame_plain_sound in H as (ext & nl & -> & Hr & Dr & He & Hnl).
  exists pre, ext, nl. auto.
Qed.

Lemma search_frame_plain_complete s g :
  frame_field s g -> rx_search re_frame_plain s = Some g.
Proof.
  intros Hf. pose proof Hf as (pre & ext & nl & -> & Hg & Dg & He & Hnl).
  destruct (rx_search_complete re_frame_plain pre _ _
              (rx_frame_plain_complete g ext nl Hg Dg He Hnl)) as (r' & Hr').
  rewrite Hr'. f_equal.
  exact (frame_field_unique _ _ _ (search_frame_plain_sound _ _ Hr') Hf).
Qed.

Lemma frame_field_length s g : frame_field s g -> (List.length g < List.length s)%nat.
Proof.
  intros (pre & ext & nl & -> & _). rewrite length_app. cbn. rewrite length_app. lia.
Qed.

Lemma chars_length s : List.length (chars s) = String.length s.
Proof.
  unfold chars. induction s as [|c s IH]; cbn; [reflexivity|]. rewrite IH. reflexivity.
Qed.

Lemma extract_frame_number_cases (filename : string) :
  (forall g n, frame_field (chars filename) g -> py_int g = Ok n ->
               extract_frame_number filename = Ok (Some n)) /\
  (forall g e, frame_field (chars filename) g -> py_int g = Raise e ->
               (List.length g <= int_max_str_digits)%nat ->
               extract_frame_number filename = Ok None) /\
  ((forall g, ~ frame_field (chars filename) g) ->
   extract_frame_number filename = Ok None) /\
  (forall e, extract_frame_number filename = Raise e ->
             e = ValueError /\ (int_max_str_digits < String.length filename)%nat).
Proof.
  unfold extract_frame_number.
  pose proof (search_frame_se (chars filename)) as Hse.
  pose proof (search_frame_plain_sound (chars filename)) as Hps.
  pose proof (search_frame_plain_complete (chars filename)) as Hpc.
  destruct (rx_search re_frame_se (chars filename)) as [r|].
  - destruct (Hse r eq_refl) as (Hf & Hr & Dr).
    split; [|split; [|split]].
    + intros g n Hg Hn. rewrite (frame_field_unique _ _ _ Hf Hg), Hn. reflexivity.
    + intros g e Hg He Hl. rewrite <- (frame_field_unique _ _ _ Hf Hg) in He, Hl.
      rewrite (py_int_digits r Hr Dr Hl) in He. discriminate.
    + intros Hno. destruct (Hno r Hf).
    + intros e He. destruct (py_int r) as [n|e'] eqn:E; [discriminate|].
      cbn in He. injection He as <-. split; [exact (py_int_raises _ _ E)|].
      destruct (Nat.le_gt_cases (List.length r) int_max_str_digits) as [Hl|Hl].
      * rewrite (py_int_digits r Hr Dr Hl) in E. discriminate.
      * apply frame_field_length in Hf. rewrite chars_length in Hf. lia.
  - destruct (rx_search re_frame_plain (chars filename)) as [r|].
    + pose proof (Hps r eq_refl) as Hf.
      split; [|split; [|split]].
      * intros g n Hg Hn. rewrite (frame_field_unique _ _ _ Hf Hg), Hn. reflexivity.
      * intros g e Hg He _. rewrite (frame_field_unique _ _ _ Hf Hg), He.
        rewrite (py_int_raises _ _ He). reflexivity.
      * intros Hno. destruct (Hno r Hf).
      * intros e He. destruct (py_int r) as [n|e'] eqn:E; [discriminate|].
        rewrite (py_int_raises _ _ E) in He. discriminate.
    + split; [|split; [|split]].
      * intros g n Hg _. apply Hpc in Hg. discriminate.
      * intros g e Hg _ _. apply Hpc in Hg. discriminate.
      * reflexivity.
      * discriminate.
Qed.

Lemma digits_not_underscore ns :
  forallb is_digit ns = true -> forallb cls_not_underscore ns = true.
Proof.
  induction ns as [|x r IH]; [reflexivity|]. cbn. intros Dns.
  apply andb_true_iff in Dns as [Hx Dr].
  destruct (digit_char_cases x Hx) as (_ & _ & _ & _ & _ & _ & -> & _). exact (IH Dr).
Qed.

Lemma video_name_frame_field s p :
  video_name "_SE_" s p \/ video_name "_" s p ->
  exists ns, frame_field s ns /\ ns <> [] /\ forallb is_digit ns = true.
Proof.
  assert (Hend : forall sp : list ascii,
            str_lower sp = str_lower (chars "_SE_") \/ str_lower sp = str_lower (chars "_") ->
            exists sp', sp = sp' ++ ["_"%char]).
  { intros sp [Hsp|Hsp].
    - destruct sp as [|a [|b [|c [|d [|? ?]]]]]; try discriminate Hsp.
      cbn in Hsp. injection Hsp as _ _ _ Hd.
      destruct (lower_char_cases d) as (_ & Hd' & _). rewrite (Hd' Hd).
      exists [a; b; c]. reflexivity.
    - destruct sp as [|a [|? ?]]; try discriminate Hsp.
      cbn in Hsp. injection Hsp as Ha.
      destruct (lower_char_cases a) as (_ & Ha' & _). rewrite (Ha' Ha).
      exists []. reflexivity. }
  intros H.
  assert (H' : exists head ds sp ns ext nl,
             s = head ++ ds ++ sp ++ ns ++ ext ++ nl /\
             (exists sp', sp = sp' ++ ["_"%char]) /\
             ns <> [] /\ forallb is_digit ns = true /\
             str_lower ext = chars ".jpg" /\ (nl = [] \/ nl = ["010"%char])).
  { destruct H as [H|H];
      destruct H as (head & ds & sp & ns & ext & nl & -> & _ & _ & _ & _ & Hsp & Hns & Dns & He & Hnl);
      exists head, ds, sp, ns, ext, nl; repeat split; auto. }
  destruct H' as (head & ds & sp & ns & ext & nl & -> & (sp' & ->) & Hns & Dns & He & Hnl).
  exists ns. split; [|auto].
  exists (head ++ ds ++ sp'), ext, nl. rewrite <- !app_assoc. cbn [app].
  split; [reflexivity|]. split; [exact Hns|]. split; [|auto].
  apply digits_not_underscore. exact Dns.
Qed.

Lemma extract_video_prefix_nonempty filename prefix :
  extract_video_prefix filename = Some prefix ->
  prefix <> EmptyString /\ exists rest, chars filename = chars prefix ++ rest.
Proof.
  intros H. apply extract_video_prefix_cases in H.
  assert (H' : exists head ds rest, chars filename = head ++ ds ++ rest /\
                                    chars prefix = head ++ ds /\ str_lower head = chars "dji_").
  { destruct H as [H|H];
      destruct H as (head & ds & sp & ns & ext & nl & Hs & Hp & Hh & _);
      exists head, ds, (sp ++ ns ++ ext ++ nl); auto. }
  destruct H' as (head & ds & rest & Hs & Hp & Hh). split.
  - intros ->. destruct head; [discriminate Hh|discriminate Hp].
  - exists rest. rewrite Hs, Hp, <- app_assoc. reflexivity.
Qed.

Lemma prefix_frame_number filename prefix :
  extract_video_prefix filename = Some prefix ->
  (String.length filename <= int_max_str_digits)%nat ->
  exists ns, frame_field (chars filename) ns /\ ns <> [] /\ forallb is_digit ns = true /\
             extract_frame_number filename = Ok (Some (digits_value ns)) /\
             0 <= digits_value ns.
Proof.
  intros H Hl. apply extract_video_prefix_cases in H.
  destruct (video_name_frame_field _ _ H) as (ns & Hf & Hn & Dn).
  exists ns. split; [exact Hf|]. split; [exact Hn|]. split; [exact Dn|].
  split; [|exact (digits_value_nonneg ns Dn)].
  destruct (extract_frame_number_cases filename) as (Hok & _).
  apply (Hok ns); [exact Hf|]. apply py_int_digits; try assumption.
  apply frame_field_length in Hf. rewrite chars_length in Hf. lia.
Qed.

(** ** Sorting *)

Lemma insert_sorted_perm {A : Type} (le : A -> A -> bool) x l :
  Permutation (insert_sorted le x l) (x :: l).
Proof.
  induction l as [|y l IH]; cbn; [reflexivity|].
  destruct (le x y); [reflexivity|].
  rewrite IH. apply perm_swap.
Qed.

Lemma py_sorted_perm {A : Type} (le : A -> A -> bool) l :
  Permutation (py_sorted le l) l.
Proof.
  induction l as [|x l IH]; cbn; [reflexivity|].
  rewrite insert_sorted_perm, IH. reflexivity.
Qed.

Lemma py_sorted_In {A : Type} (le : A -> A -> bool) l x :
  In x (py_sorted le l) <-> In x l.
Proof.
  split; apply Permutation_in; [|symmetry]; apply py_sorted_perm.
Qed.

Section Sorting.

Variable A : Type.
Variable le : A -> A -> bool.
Hypothesis le_total : forall a b, le a b = true \/ le b a = true.
Hypothesis le_trans : forall a b c, le a b = true -> le b c = true -> le a c = true.

Lemma insert_sorted_sorted x l :
  StronglySorted (fun a b => le a b = true) l ->
  StronglySorted (fun a b => le a b = true) (insert_sorted le x l).
Proof.
  induction l as [|y l IH]; intros Hs; cbn.
  - constructor; [constructor|constructor].
  - destruct (le x y) eqn:E.
    + constructor; [exact Hs|]. constructor; [exact E|].
      inversion Hs as [|? ? _ Hy]; subst.
      rewrite Forall_forall in *. intros z Hz. exact (le_trans _ _ _ E (Hy z Hz)).
    + inversion Hs as [|? ? Hl Hy]; subst. constructor; [exact (IH Hl)|].
      rewrite Forall_forall in *. intros z Hz.
      apply (Permutation_in _ (insert_sorted_perm le x l)) in Hz.
      destruct Hz as [<-|Hz]; [|exact (Hy z Hz)].
      destruct (le_total x y) as [H|H]; [congruence|exact H].
Qed.

Lemma py_sorted_sorted l : StronglySorted (fun a b => le a b = true) (py_sorted le l).
Proof.
  induction l as [|x l IH]; cbn; [constructor|]. apply insert_sorted_sorted. exact IH.
Qed.

Hypothesis le_antisym : forall a b, le a b = true -> le b a = true -> a = b.

Lemma sorted_perm_eq l l' :
  StronglySorted (fun a b => le a b = true) l ->
  StronglySorted (fun a b => le a b = true) l' ->
  Permutation l l' -> l = l'.
Proof.
  revert l'. induction l as [|x l IH]; intros l' Hs Hs' Hp.
  - apply Permutation_nil in Hp. congruence.
  - destruct l' as [|y l'].
    + apply Permutation_sym, Permutation_nil in Hp. discriminate.
    + inversion Hs as [|? ? Hl Hx]; subst. inversion Hs' as [|? ? Hl' Hy]; subst.
      rewrite Forall_forall in Hx, Hy.
      assert (Exy : x = y).
      { assert (Hxi : In x (y :: l')) by (apply (Permutation_in _ Hp); left; reflexivity).
        assert (Hyi : In y (x :: l))
          by (apply (Permutation_in _ (Permutation_sym Hp)); left; reflexivity).
        destruct Hxi as [->|Hxi]; [reflexivity|].
        destruct Hyi as [->|Hyi]; [reflexivity|].
        apply le_antisym; [exact (Hx y Hyi)|exact (Hy x Hxi)]. }
      subst y. f_equal. apply IH; [exact Hl|exact Hl'|].
      exact (Permutation_cons_inv Hp).
Qed.

Lemma py_sorted_perm_eq l l' : Permutation l l' -> py_sorted le l = py_sorted le l'.
Proof.
  intros Hp. apply sorted_perm_eq; try apply py_sorted_sorted.
  rewrite !py_sorted_perm. exact Hp.
Qed.

End Sorting.

Lemma string_leb_trans a b c :
  String.leb a b = true -> String.leb b c = true -> String.leb a c = true.
Proof.
  intros Hab Hbc. unfold String.leb in Hab.
  destruct (String.compare a b) eqn:Eab; [| |discriminate].
  - apply String.compare_eq_iff in Eab. subst a. exact Hbc.
  - unfold String.leb in Hbc.
    destruct (String.compare b c) eqn:Ebc; [| |discriminate].
    + apply String.compare_eq_iff in Ebc. subst c. unfold String.leb. rewrite Eab.
      reflexivity.
    + apply OrderedTypeEx.String_as_OT.cmp_lt in Eab, Ebc.
      pose proof (OrderedTypeEx.String_as_OT.lt_trans _ _ _ Eab Ebc) as H.
      apply OrderedTypeEx.String_as_OT.cmp_lt in H.
      unfold OrderedTypeEx.String_as_OT.cmp in H. unfold String.leb. rewrite H.
      reflexivity.
Qed.

Lemma sorted_names_perm l l' :
  Permutation l l' -> py_sorted String.leb l = py_sorted String.leb l'.
Proof.
  apply py_sorted_perm_eq.
  - apply String.leb_total.
  - apply string_leb_trans.
  - apply String.leb_antisym.
Qed.

Lemma by_frame_number_sorted imgs :
  StronglySorted (fun a b : image => snd a <= snd b) (py_sorted by_frame_number imgs).
Proof.
  assert (H : StronglySorted (fun a b => by_frame_number a b = true)
                (py_sorted by_frame_number imgs)).
  { apply py_sorted_sorted; unfold by_frame_number; intros; lia. }
  induction H as [|a l Hl IH Ha]; constructor; [exact IH|].
  rewrite Forall_forall in *. intros b Hb. apply Z.leb_le. exact (Ha b Hb).
Qed.

(** ** Dictionaries *)

Lemma In_dict_set {V : Type} (d : list (string * V)) k v k0 v0 :
  In (k0, v0) (dict_set d k v) -> (k0 = k /\ v0 = v) \/ In (k0, v0) d.
Proof.
  induction d as [|[k' v'] d IH]; cbn.
  - intros [[= <- <-]|[]]. auto.
  - destruct (String.eqb k' k).
    + intros [[= <- <-]|H]; auto.
    + intros [H|H]; [auto|]. destruct (IH H); auto.
Qed.

Lemma dict_get_In {V : Type} (d : list (string * V)) k v :
  dict_get d k = Some v -> In (k, v) d.
Proof.
  induction d as [|[k' v'] d IH]; cbn; [discriminate|].
  destruct (String.eqb k' k) eqn:E.
  - apply String.eqb_eq in E. intros [= <-]. subst. auto.
  - auto.
Qed.

Lemma dict_get_keys {V : Type} (d : list (string * V)) k :
  In k (map fst d) <-> exists v, dict_get d k = Some v.
Proof.
  induction d as [|[k' v'] d IH]; cbn.
  - split; [intros []|intros [v H]; discriminate].
  - destruct (String.eqb k' k) eqn:E.
    + apply String.eqb_eq in E. split; eauto.
    + apply String.eqb_neq in E. rewrite <- IH. split; [intros [H|H]|]; tauto.
Qed.

Lemma dict_set_keys {V : Type} (d : list (string * V)) k v k0 :
  In k0 (map fst (dict_set d k v)) <-> k0 = k \/ In k0 (map fst d).
Proof.
  rewrite !dict_get_keys. destruct (String.eqb k0 k) eqn:E.
  - apply String.eqb_eq in E. subst k0. rewrite dict_get_set_same. split; eauto.
  - apply String.eqb_neq in E. rewrite dict_get_set_other by exact E.
    split; [auto|]. intros [H|H]; [contradiction|exact H].
Qed.

Lemma dict_set_NoDup {V : Type} (d : list (string * V)) k v :
  NoDup (map fst d) -> NoDup (map fst (dict_set d k v)).
Proof.
  induction d as [|[k' v'] d IH]; cbn; intros H.
  - constructor; [intros []|constructor].
  - inversion H as [|? ? Hn Hd]; subst. destruct (String.eqb k' k) eqn:E.
    + apply String.eqb_eq in E. subst k'. cbn. constructor; assumption.
    + apply String.eqb_neq in E. cbn. constructor; [|exact (IH Hd)].
      rewrite dict_set_keys. intros [H1|H1]; [congruence|contradiction].
Qed.

Lemma dict_get_append {V : Type} (d : list (string * list V)) k v k0 :
  dict_get (dict_append d k v) k0 =
  if String.eqb k0 k
  then Some (match dict_get d k with Some l => l ++ [v] | None => [v] end)
  else dict_get d k0.
Proof.
  unfold dict_append. destruct (String.eqb k0 k) eqn:E.
  - apply String.eqb_eq in E. subst k0.
    destruct (dict_get d k); apply dict_get_set_same.
  - apply String.eqb_neq in E. destruct (dict_get d k); apply dict_get_set_other; exact E.
Qed.

Lemma dict_append_NoDup {V : Type} (d : list (string * list V)) k v :
  NoDup (map fst d) -> NoDup (map fst (dict_append d k v)).
Proof. unfold dict_append. destruct (dict_get d k); apply dict_set_NoDup. Qed.

Lemma In_dict_get {V : Type} (d : list (string * V)) k v :
  NoDup (map fst d) -> In (k, v) d -> dict_get d k = Some v.
Proof.
  induction d as [|[k' v'] d IH]; cbn; intros Hn H; [destruct H|].
  inversion Hn as [|? ? Hk Hd]; subst. destruct H as [[= -> ->]|H].
  - rewrite String.eqb_refl. reflexivity.
  - destruct (String.eqb k' k) eqn:E; [|exact (IH Hd H)].
    apply String.eqb_eq in E. subst k'. destruct Hk.
    apply (in_map fst) in H. exact H.
Qed.

(** ** The loop over the folder *)

Lemma endswith_last s c p :
  endswith s (p ++ [c]) = true -> exists s', s = s' ++ [c].
Proof.
  unfold endswith. rewrite rev_app_distr. cbn.
  destruct (rev s) as [|x r] eqn:E; [discriminate|].
  intros H. apply andb_true_iff in H as [Hx _]. apply Ascii.eqb_eq in Hx. subst x.
  exists (rev r). apply (f_equal (@rev ascii)) in E. rewrite rev_involutive in E.
  exact E.
Qed.

Lemma srt_not_jpg f : dji_file ".srt" f = true -> dji_file ".jpg" f = false.
Proof.
  unfold dji_file. intros H. apply andb_true_iff in H as [H _].
  destruct (endswith (str_lower (chars f)) (chars ".jpg")) eqn:E; [|reflexivity].
  apply (endswith_last _ "t" (chars ".sr")) in H as (s1 & H1).
  apply (endswith_last _ "g" (chars ".jp")) in E as (s2 & H2).
  rewrite H1 in H2. apply app_inj_tail in H2 as [_ H2]. discriminate.
Qed.

Lemma scan_inv_ext (seen seen' : string -> Prop) found :
  (forall f, seen f <-> seen' f) -> scan_inv seen found -> scan_inv seen' found.
Proof.
  intros He. destruct found as [sf ig]. intros (H1 & H2 & H3 & H4 & H5 & H6).
  split; [|split; [|split; [|split; [|split]]]]; try assumption.
  - intros p f H. destruct (H1 _ _ H) as (Ha & Hb & Hc). apply He in Ha. auto.
  - intros p imgs H. destruct (H2 _ _ H) as (Ha & Hb). split; [exact Ha|].
    intros f n H0. destruct (Hb _ _ H0) as (Hc & Hd). apply He in Hc. auto.
  - intros f Hf. apply H3. apply He. exact Hf.
  - intros f p n Hf. apply H4. apply He. exact Hf.
Qed.

Lemma scan_inv_skip (seen : string -> Prop) found f :
  scan_inv seen found -> dji_file ".srt" f = false -> (forall p n, ~ image_of f p n) ->
  scan_inv (fun x => x = f \/ seen x) found.
Proof.
  destruct found as [sf ig]. intros (H1 & H2 & H3 & H4 & H5 & H6) Hs Hi.
  split; [|split; [|split; [|split; [|split]]]]; try assumption.
  - intros p f0 H. destruct (H1 _ _ H) as (Ha & Hb & Hc). auto.
  - intros p imgs H. destruct (H2 _ _ H) as (Ha & Hb). split; [exact Ha|].
    intros f0 n H0. destruct (Hb _ _ H0). auto.
  - intros f0 [->|Hf] Hsrt; [congruence|]. exact (H3 _ Hf Hsrt).
  - intros f0 p n [->|Hf] Him; [destruct (Hi _ _ Him)|]. exact (H4 _ _ _ Hf Him).
Qed.

Lemma scan_file_inv (seen : string -> Prop) f found found' :
  scan_inv seen found -> scan_file f found = Ok found' ->
  scan_inv (fun x => x = f \/ seen x) found'.
Proof.
  intros Hinv. unfold scan_file. destruct found as [sf ig].
  destruct (dji_file ".srt" f) eqn:Esrt.
  - intros [= <-]. destruct Hinv as (H1 & H2 & H3 & H4 & H5 & H6).
    split; [|split; [|split; [|split; [|split]]]]; try assumption.
    + intros p f0 H. apply In_dict_set in H as [[-> ->]|H]; [auto|].
      destruct (H1 _ _ H) as (Ha & Hb & Hc). auto.
    + intros p imgs H. destruct (H2 _ _ H) as (Ha & Hb). split; [exact Ha|].
      intros f0 n H0. destruct (Hb _ _ H0). auto.
    + intros f0 Hf Hs. apply dict_set_keys. destruct Hf as [->|Hf]; [auto|].
      right. exact (H3 _ Hf Hs).
    + intros f0 p n [->|Hf] Him; [|exact (H4 _ _ _ Hf Him)].
      destruct Him as (Hj & _). rewrite (srt_not_jpg _ Esrt) in Hj. discriminate.
    + apply dict_set_NoDup. exact H5.
  - destruct (dji_file ".jpg" f) eqn:Ejpg.
    2: { intros [= <-]. apply scan_inv_skip; [exact Hinv|exact Esrt|].
         intros p n (Hj & _). congruence. }
    destruct (extract_video_prefix f) as [p|] eqn:Ep.
    2: { intros [= <-]. apply scan_inv_skip; [exact Hinv|exact Esrt|].
         intros p n (_ & Hp & _). congruence. }
    destruct (String.eqb p EmptyString) eqn:Ee.
    { apply String.eqb_eq in Ee. destruct (extract_video_prefix_nonempty _ _ Ep) as [Hn _].
      contradiction. }
    destruct (extract_frame_number f) as [[n|]|e] eqn:En; cbn [bind].
    3: discriminate.
    2: { intros [= <-]. apply scan_inv_skip; [exact Hinv|exact Esrt|].
         intros p0 n0 (_ & _ & Hn). congruence. }
    intros [= <-]. destruct Hinv as (H1 & H2 & H3 & H4 & H5 & H6).
    assert (Him : image_of f p n) by (repeat split; assumption).
    split; [|split; [|split; [|split; [|split]]]]; try assumption.
    + intros p0 f0 H. destruct (H1 _ _ H) as (Ha & Hb & Hc). auto.
    + intros p0 imgs H. unfold dict_append in H.
      assert (Hold : forall l, In (p0, l) ig ->
                l <> [] /\ forall f0 n0, In (f0, n0) l ->
                             (f0 = f \/ seen f0) /\ image_of f0 p0 n0).
      { intros l Hl. destruct (H2 _ _ Hl) as (Ha & Hb). split; [exact Ha|].
        intros f0 n0 H0. destruct (Hb _ _ H0). auto. }
      destruct (dict_get ig p) as [l|] eqn:Eg.
      * apply In_dict_set in H as [[-> ->]|H]; [|exact (Hold _ H)].
        destruct (Hold l (dict_get_In _ _ _ Eg)) as (Ha & Hb). split.
        -- destruct l; discriminate.
        -- intros f0 n0 H0. apply in_app_or in H0 as [H0|[[= <- <-]|[]]]; auto.
      * apply In_dict_set in H as [[-> ->]|H]; [|exact (Hold _ H)].
        split; [discriminate|]. intros f0 n0 [[= <- <-]|[]]. auto.
    + intros f0 [->|Hf] Hs; [congruence|]. exact (H3 _ Hf Hs).
    + intros f0 p0 n0 Hf Him0. rewrite dict_get_append. destruct Hf as [->|Hf].
      * destruct Him0 as (_ & Hp0 & Hn0). rewrite Ep in Hp0. rewrite En in Hn0.
        injection Hp0 as <-. injection Hn0 as <-. rewrite String.eqb_refl.
        eexists. split; [reflexivity|].
        destruct (dict_get ig p); [apply in_or_app; right|]; left; reflexivity.
      * destruct (H4 _ _ _ Hf Him0) as (imgs & Hg & Hi).
        destruct (String.eqb p0 p) eqn:E.
        -- apply String.eqb_eq in E. subst p0. rewrite Hg. eexists.
           split; [reflexivity|]. apply in_or_app. left. exact Hi.
        -- exists imgs. auto.
    + apply dict_append_NoDup. exact H6.
Qed.

Lemma scan_files_inv names : forall (seen : string -> Prop) found found',
  scan_inv seen found -> scan_files names found = Ok found' ->
  scan_inv (fun x => In x names \/ seen x) found'.
Proof.
  induction names as [|f names IH]; intros seen found found' Hinv; cbn [scan_files].
  - intros [= <-]. apply (scan_inv_ext seen); [|exact Hinv]. intros f. cbn. tauto.
  - destruct (scan_file f found) as [found1|e] eqn:E1; cbn [bind]; [|discriminate].
    intros H. apply (scan_file_inv seen) in E1; [|exact Hinv].
    apply (IH _ _ _ E1) in H. revert H. apply scan_inv_ext. intros x. cbn.
    intuition congruence.
Qed.

Lemma scan_inv_start : scan_inv (fun _ => False) ([], []).
Proof.
  cbn. split; [|split; [|split; [|split; [|split]]]];
    try (intros; contradiction); constructor.
Qed.

Lemma scan_file_ok f found :
  (String.length f <= int_max_str_digits)%nat -> exists found', scan_file f found = Ok found'.
Proof.
  intros Hl. unfold scan_file. destruct found as [sf ig].
  destruct (dji_file ".srt" f); [eauto|].
  destruct (dji_file ".jpg" f); [|eauto].
  destruct (extract_video_prefix f) as [p|] eqn:Ep; [|eauto].
  destruct (String.eqb p EmptyString); [eauto|].
  destruct (prefix_frame_number _ _ Ep Hl) as (ns & _ & _ & _ & -> & _). cbn. eauto.
Qed.

Lemma scan_files_ok names : forall found,
  (forall f, In f names -> (String.length f <= int_max_str_digits)%nat) ->
  exists found', scan_files names found = Ok found'.
Proof.
  induction names as [|f names IH]; intros found Hl; cbn [scan_files]; [eauto|].
  destruct (scan_file_ok f found) as (found1 & ->); [apply Hl; left; reflexivity|].
  cbn [bind]. apply IH. intros x Hx. apply Hl. right. exact Hx.
Qed.

(** ** Matching the subtitle files and the images *)

Lemma match_groups_In sf ig : forall m k g,
  In (k, g) (match_groups sf ig m) ->
  In (k, g) m \/
  exists f imgs, In (k, f) sf /\ dict_get ig k = Some imgs /\
                 g = {| prefix := k; srt_file := f;
                        images := py_sorted by_frame_number imgs |}.
Proof.
  induction sf as [|[p f] sf IH]; intros m k g; cbn [match_groups]; [auto|].
  intros H. apply IH in H as [H|(f0 & imgs & Hf & Hg & ->)].
  - destruct (dict_get ig p) as [imgs|] eqn:E; [|auto].
    apply In_dict_set in H as [[-> ->]|H]; [|auto].
    right. exists f, imgs. cbn. auto.
  - right. exists f0, imgs. cbn. auto.
Qed.

Lemma match_groups_NoDup sf ig : forall m,
  NoDup (map fst m) -> NoDup (map fst (match_groups sf ig m)).
Proof.
  induction sf as [|[p f] sf IH]; intros m Hm; cbn [match_groups]; [exact Hm|].
  apply IH. destruct (dict_get ig p); [apply dict_set_NoDup|]; exact Hm.
Qed.

Lemma match_groups_other sf ig k : forall m,
  ~ In k (map fst sf) -> dict_get (match_groups sf ig m) k = dict_get m k.
Proof.
  induction sf as [|[p f] sf IH]; intros m Hk; cbn [match_groups]; [reflexivity|].
  cbn in Hk. rewrite IH by tauto.
  destruct (dict_get ig p); [|reflexivity].
  apply dict_get_set_other. intros ->. tauto.
Qed.

Lemma match_groups_get sf ig k imgs : forall m,
  In k (map fst sf) -> dict_get ig k = Some imgs ->
  exists f, In (k, f) sf /\
            dict_get (match_groups sf ig m) k
              = Some {| prefix := k; srt_file := f;
                        images := py_sorted by_frame_number imgs |}.
Proof.
  induction sf as [|[p f] sf IH]; intros m Hk Hg; cbn [match_groups]; [destruct Hk|].
  destruct (in_dec string_dec k (map fst sf)) as [Hin|Hout].
  - destruct (IH (match dict_get ig p with
                  | Some images =>
                      dict_set m p {| prefix := p; srt_file := f;
                                      images := py_sorted by_frame_number images |}
                  | None => m
                  end) Hin Hg) as (f0 & Hf0 & H0).
    exists f0. cbn. auto.
  - destruct Hk as [Hk|Hk]; [|contradiction]. cbn in Hk. subst p.
    exists f. split; [left; reflexivity|].
    rewrite match_groups_other by exact Hout. rewrite Hg. apply dict_get_set_same.
Qed.

Lemma py_sorted_nil {A : Type} (le : A -> A -> bool) l : py_sorted le l = [] -> l = [].
Proof.
  intros H. pose proof (py_sorted_perm le l) as Hp. rewrite H in Hp.
  apply Permutation_nil in Hp. exact Hp.
Qed.

Lemma scan_listing listing found :
  scan_files (py_sorted String.leb listing) ([], []) = Ok found ->
  scan_inv (fun x => In x listing) found.
Proof.
  intros H. apply (scan_files_inv _ _ _ _ scan_inv_start) in H.
  revert H. apply scan_inv_ext. intros f. rewrite py_sorted_In. tauto.
Qed.

Lemma scan_listing_ok listing :
  (forall f, In f listing -> (String.length f <= int_max_str_digits)%nat) ->
  exists found, scan_files (py_sorted String.leb listing) ([], []) = Ok found.
Proof.
  intros Hl. apply scan_files_ok. intros f Hf. apply Hl. apply py_sorted_In in Hf.
  exact Hf.
Qed.

Lemma find_groups_cases (os_listdir : string -> result (list string))
    (current_folder : string) listing sf ig :
  let groups_found := find_groups os_listdir current_folder in
  os_listdir current_folder = Ok listing ->
  scan_files (py_sorted String.leb listing) ([], []) = Ok (sf, ig) ->
  (sf = [] /\ groups_found = ([LSearching current_folder; LNoSrtFiles], Ok None)) \/
  (sf <> [] /\ ig = [] /\
   groups_found = ([LSearching current_folder; LNoImageFiles], Ok None)) \/
  (sf <> [] /\ ig <> [] /\ match_groups sf ig [] = [] /\
   groups_found = ([LSearching current_folder; LNoMatchingSrt;
                    LSrtPrefixes (map fst sf); LImagePrefixes (map fst ig)], Ok None)) \/
  (sf <> [] /\ ig <> [] /\ match_groups sf ig [] <> [] /\
   groups_found
     = (LSearching current_folder :: LFound (List.length (match_groups sf ig []))
          :: map (fun '(prefix, data) =>
                    LGroup prefix (List.length (images data)) (srt_file data))
               (match_groups sf ig []),
        Ok (Some (map snd (match_groups sf ig []))))).
Proof.
  intros groups_found Hl Hs. unfold groups_found, find_groups.
  rewrite Hl. cbn [bind]. rewrite Hs.
  destruct sf as [|a sf]; [left; auto|].
  destruct ig as [|b ig]; [right; left; repeat split; discriminate|].
  destruct (match_groups (a :: sf) (b :: ig) []) as [|c m] eqn:Em.
  - right. right. left. repeat split; discriminate.
  - right. right. right. repeat split; discriminate.
Qed.

Lemma match_groups_prefix sf ig k g :
  In (k, g) (match_groups sf ig []) -> prefix g = k.
Proof.
  intros H. apply match_groups_In in H as [[]|(f & imgs & _ & _ & ->)]. reflexivity.
Qed.

Lemma group_lines (m : list (string * group)) :
  (forall k g, In (k, g) m -> prefix g = k) ->
  map (fun '(prefix, data) => LGroup prefix (List.length (images data)) (srt_file data)) m
  = map (fun g => LGroup (prefix g) (List.length (images g)) (srt_file g)) (map snd m).
Proof.
  induction m as [|[k g] m IH]; intros H; cbn; [reflexivity|].
  rewrite (H k g) by (left; reflexivity). f_equal. apply IH.
  intros k0 g0 H0. apply H. right. exact H0.
Qed.

Lemma found_groups listing sf ig :
  scan_inv (fun x => In x listing) (sf, ig) ->
  NoDup (map prefix (map snd (match_groups sf ig []))) /\
  forall g, In g (map snd (match_groups sf ig [])) ->
    In (srt_file g) listing /\ dji_file ".srt" (srt_file g) = true /\
    prefix g = without_extension (srt_file g) /\
    images g <> [] /\
    (forall f n, In (f, n) (images g) -> In f listing /\ image_of f (prefix g) n) /\
    StronglySorted (fun a b : image => snd a <= snd b) (images g).
Proof.
  intros (H1 & H2 & H3 & H4 & H5 & H6). split.
  - assert (E : map prefix (map snd (match_groups sf ig []))
                = map fst (match_groups sf ig [])).
    { assert (Hp := match_groups_prefix sf ig). revert Hp.
      induction (match_groups sf ig []) as [|[k g] m IH]; intros Hp; cbn; [reflexivity|].
      rewrite (Hp k g) by (left; reflexivity). f_equal. apply IH.
      intros k0 g0 H0. apply Hp. right. exact H0. }
    rewrite E. apply match_groups_NoDup. constructor.
  - intros g Hg. apply in_map_iff in Hg as ([k g'] & <- & Hg). cbn [snd].
    apply match_groups_In in Hg as [[]|(f & imgs & Hf & Hi & ->)]. cbn.
    destruct (H1 _ _ Hf) as (Ha & Hb & Hc).
    destruct (H2 _ _ (dict_get_In _ _ _ Hi)) as (Hd & He).
    split; [exact Ha|]. split; [exact Hb|]. split; [exact Hc|]. split; [|split].
    + intros E. apply py_sorted_nil in E. contradiction.
    + intros f0 n H0. apply py_sorted_In in H0. exact (He _ _ H0).
    + apply by_frame_number_sorted.
Qed.


Lemma find_groups_some (os_listdir : string -> result (list string))
    (current_folder : string) listing groups :
  os_listdir current_folder = Ok listing ->
  snd (find_groups os_listdir current_folder) = Ok (Some groups) ->
  exists sf ig,
    scan_inv (fun x => In x listing) (sf, ig) /\
    groups = map snd (match_groups sf ig []) /\ groups <> [] /\
    fst (find_groups os_listdir current_folder)
      = LSearching current_folder :: LFound (List.length groups)
          :: map (fun g => LGroup (prefix g) (List.length (images g)) (srt_file g)) groups.
Proof.
  intros Hl Hg.
  destruct (scan_files (py_sorted String.leb listing) ([], [])) as [[sf ig]|e] eqn:Es.
  2: { unfold find_groups in Hg. rewrite Hl in Hg. cbn [bind] in Hg. rewrite Es in Hg.
       discriminate. }
  pose proof (scan_listing _ _ Es) as Hinv.
  destruct (find_groups_cases os_listdir current_folder _ _ _ Hl Es)
    as [(_ & E)|[(_ & _ & E)|[(_ & _ & _ & E)|(_ & _ & Hm & E)]]];
    rewrite E in Hg |- *; try discriminate.
  cbn [fst snd] in *. injection Hg as <-.
  exists sf, ig. split; [exact Hinv|]. split; [reflexivity|]. split.
  - intros E0. apply map_eq_nil in E0. contradiction.
  - rewrite length_map. f_equal. f_equal. apply group_lines.
    apply match_groups_prefix.
Qed.

(* ===================================================================== *)
(** * Theorems: file names and the folder                                  *)
(* ===================================================================== *)

(** X1. [extract_video_prefix] accepts exactly the names made of DJI_, a
    number, the separator _SE_ or _, a number and the extension .jpg,
    letters in any case, a final newline allowed; the prefix returned is
    the start of the name up to the end of the first number, spelled as
    in the name, and is never empty. *)
Theorem extract_video_prefix_names (filename prefix : string) :
  (extract_video_prefix filename = Some prefix <->
   video_name "_SE_" (chars filename) (chars prefix) \/
   video_name "_" (chars filename) (chars prefix)) /\
  (extract_video_prefix filename = Some prefix ->
   prefix <> EmptyString /\
   chars prefix = firstn 4 (chars filename)
                    ++ take_while is_digit (skipn 4 (chars filename)) /\
   exists rest, chars filename = chars prefix ++ rest).
Proof.
  split; [apply extract_video_prefix_cases|].
  intros H. destruct (extract_video_prefix_nonempty _ _ H) as [Hn Hr].
  split; [exact Hn|]. split; [|exact Hr].
  apply extract_video_prefix_cases in H. destruct H as [H|H];
    exact (video_name_prefix _ _ _ H).
Qed.

(** X2. [extract_frame_number] reads the frame field of the name, the
    text between the last underscore and the extension .jpg: the result
    is [int()] of the field, [None] when [int()] refuses it or when the
    name has no such field; the field of a name is unique; only a field
    of more than 4300 digits after _SE_ makes the function raise. *)
Theorem extract_frame_number_field (filename : string) :
  (forall g g', frame_field (chars filename) g -> frame_field (chars filename) g' ->
                g = g') /\
  (forall g n, frame_field (chars filename) g -> py_int g = Ok n ->
               extract_frame_number filename = Ok (Some n)) /\
  (forall g e, frame_field (chars filename) g -> py_int g = Raise e ->
               (List.length g <= int_max_str_digits)%nat ->
               extract_frame_number filename = Ok None) /\
  ((forall g, ~ frame_field (chars filename) g) ->
   extract_frame_number filename = Ok None) /\
  (forall e, extract_frame_number filename = Raise e ->
             e = ValueError /\ (int_max_str_digits < String.length filename)%nat).
Proof.
  split; [apply frame_field_unique|]. apply extract_frame_number_cases.
Qed.

(** X3. A name from which [extract_video_prefix] gets a prefix always
    has a frame number (for names of at most 4300 characters): its frame
    field is a run of digits, [extract_frame_number] returns its decimal
    value, which is not negative. *)
Theorem prefix_gives_frame_number (filename prefix : string) :
  extract_video_prefix filename = Some prefix ->
  (String.length filename <= int_max_str_digits)%nat ->
  exists ns, frame_field (chars filename) ns /\ ns <> [] /\ forallb is_digit ns = true /\
             extract_frame_number filename = Ok (Some (digits_value ns)) /\
             0 <= digits_value ns.
Proof. apply prefix_frame_number. Qed.

Lemma prefix_gives_frame_number_witness :
  extract_video_prefix "DJI_0001_000006.jpg" = Some "DJI_0001"%string /\
  (String.length "DJI_0001_000006.jpg" <= int_max_str_digits)%nat /\
  exists ns, frame_field (chars "DJI_0001_000006.jpg") ns /\ ns <> [] /\
             forallb is_digit ns = true /\
             extract_frame_number "DJI_0001_000006.jpg" = Ok (Some (digits_value ns)) /\
             0 <= digits_value ns.
Proof.
  split; [reflexivity|]. split; [vm_compute; lia|].
  apply (prefix_gives_frame_number "DJI_0001_000006.jpg" "DJI_0001");
    [reflexivity|vm_compute; lia].
Defined.

Section FolderTheorems.

Variable os_listdir : string -> result (list string).
Variable current_folder : string.
Variable ifd : Type.
Variable piexif_load : files -> string -> result (exif_dict ifd).
Variable piexif_dump : exif_dict ifd -> result string.
Variable piexif_insert : string -> string -> files -> result unit * files.
Variable pysrt_open : string -> result (list sub).

Local Abbreviation groups_found := (find_groups os_listdir current_folder).
Local Abbreviation run_main :=
  (main os_listdir current_folder ifd piexif_load piexif_dump piexif_insert pysrt_open).

(** X4. The groups that the first part of [geotag_dji_frames] hands to
    the second: there is at least one, no two have the same prefix, the
    subtitle file of a group is a file of the folder named DJI_..., with
    the extension .srt in any case, whose name without its extension is
    the prefix; the images of a group are files of the folder that
    [extract_video_prefix] gives that prefix, with their frame numbers,
    in ascending order of frame number, and there is at least one. *)
Theorem matched_groups_sound (listing : list string) (groups : list group) :
  os_listdir current_folder = Ok listing ->
  snd groups_found = Ok (Some groups) ->
  fst groups_found
    = LSearching current_folder :: LFound (List.length groups)
        :: map (fun g => LGroup (prefix g) (List.length (images g)) (srt_file g)) groups /\
  groups <> [] /\ NoDup (map prefix groups) /\
  forall g, In g groups ->
    In (srt_file g) listing /\ dji_file ".srt" (srt_file g) = true /\
    prefix g = without_extension (srt_file g) /\
    images g <> [] /\
    (forall f n, In (f, n) (images g) -> In f listing /\ image_of f (prefix g) n) /\
    StronglySorted (fun a b : image => snd a <= snd b) (images g).
Proof.
  intros Hl Hg.
  destruct (find_groups_some _ _ _ _ Hl Hg) as (sf & ig & Hinv & -> & Hn & Hf).
  destruct (found_groups _ _ _ Hinv) as (Hnd & Hall).
  split; [exact Hf|]. split; [exact Hn|]. split; [exact Hnd|exact Hall].
Qed.

(** X5. No image is lost: when the folder holds a subtitle file and an
    image of the same prefix (and no name longer than 4300 characters),
    the groups are found, one of them has this prefix and holds the
    image with its frame number. *)
Theorem matched_groups_complete (listing : list string) (s f : string) (n : Z) :
  os_listdir current_folder = Ok listing ->
  (forall x, In x listing -> (String.length x <= int_max_str_digits)%nat) ->
  In s listing -> dji_file ".srt" s = true ->
  In f listing -> image_of f (without_extension s) n ->
  exists groups g,
    snd groups_found = Ok (Some groups) /\
    In g groups /\ prefix g = without_extension s /\ In (f, n) (images g).
Proof.
  intros Hl Hshort Hs Hsrt Hf Him.
  destruct (scan_listing_ok _ Hshort) as ([sf ig] & Es).
  pose proof (scan_listing _ _ Es) as Hinv.
  destruct Hinv as (H1 & H2 & H3 & H4 & H5 & H6).
  pose proof (H3 _ Hs Hsrt) as Hk.
  destruct (H4 _ _ _ Hf Him) as (imgs & Hi & Hin).
  destruct (match_groups_get sf ig _ imgs [] Hk Hi) as (f0 & Hf0 & Hget).
  apply dict_get_In in Hget.
  assert (Hg : In {| prefix := without_extension s; srt_file := f0;
                     images := py_sorted by_frame_number imgs |}
                  (map snd (match_groups sf ig []))).
  { apply in_map_iff. eexists. split; [|exact Hget]. reflexivity. }
  destruct (find_groups_cases os_listdir current_folder _ _ _ Hl Es)
    as [(E0 & E)|[(_ & E0 & E)|[(_ & _ & E0 & E)|(_ & _ & Hm & E)]]].
  - subst sf. destruct Hk.
  - subst ig. discriminate Hi.
  - rewrite E0 in Hget. destruct Hget.
  - rewrite E. cbn [snd]. eexists. eexists. split; [reflexivity|].
    split; [exact Hg|]. split; [reflexivity|]. cbn. apply py_sorted_In. exact Hin.
Qed.

(** X6. The order in which [os.listdir] lists the folder does not
    matter: two listings with the same names give the same lines, the
    same groups and the same run. *)
Theorem listing_order_irrelevant (os_listdir' : string -> result (list string))
    (listing listing' : list string) :
  os_listdir current_folder = Ok listing ->
  os_listdir' current_folder = Ok listing' ->
  Permutation listing listing' ->
  find_groups os_listdir' current_folder = groups_found /\
  forall video_fps_answer extraction_fps_answer w,
    main os_listdir' current_folder ifd piexif_load piexif_dump piexif_insert pysrt_open
      video_fps_answer extraction_fps_answer w
    = run_main video_fps_answer extraction_fps_answer w.
Proof.
  intros Hl Hl' Hp.
  assert (E : find_groups os_listdir' current_folder = groups_found).
  { unfold find_groups. rewrite Hl, Hl'. cbn [bind].
    rewrite (sorted_names_perm _ _ Hp). reflexivity. }
  split; [exact E|]. intros a1 a2 w. unfold main. rewrite E. reflexivity.
Qed.

(** X7. The three early returns: without a subtitle file named DJI_...
    the run prints that none was found; with one but without an image,
    that no image was found; with both but no prefix in common, the
    prefixes of both kinds.  In the three cases the run ends normally,
    asks nothing and leaves every file as it is. *)
Theorem early_returns (listing : list string)
    (video_fps_answer extraction_fps_answer : string) (w : world) :
  os_listdir current_folder = Ok listing ->
  (forall x, In x listing -> (String.length x <= int_max_str_digits)%nat) ->
  ((forall s, In s listing -> dji_file ".srt" s = false) ->
   run_main video_fps_answer extraction_fps_answer w
     = ([LSearching current_folder; LNoSrtFiles], (Ok tt, w))) /\
  ((exists s, In s listing /\ dji_file ".srt" s = true) ->
   (forall f p n, In f listing -> ~ image_of f p n) ->
   run_main video_fps_answer extraction_fps_answer w
     = ([LSearching current_folder; LNoImageFiles], (Ok tt, w))) /\
  ((exists s, In s listing /\ dji_file ".srt" s = true) ->
   (exists f p n, In f listing /\ image_of f p n) ->
   (forall s f n, In s listing -> dji_file ".srt" s = true -> In f listing ->
                  ~ image_of f (without_extension s) n) ->
   exists srt_prefixes image_prefixes,
     run_main video_fps_answer extraction_fps_answer w
       = ([LSearching current_folder; LNoMatchingSrt;
           LSrtPrefixes srt_prefixes; LImagePrefixes image_prefixes], (Ok tt, w)) /\
     (forall p, In p srt_prefixes <->
                exists s, In s listing /\ dji_file ".srt" s = true /\
                          p = without_extension s) /\
     (forall p, In p image_prefixes <-> exists f n, In f listing /\ image_of f p n)).
Proof.
  intros Hl Hshort.
  destruct (scan_listing_ok _ Hshort) as ([sf ig] & Es).
  pose proof (scan_listing _ _ Es) as (H1 & H2 & H3 & H4 & H5 & H6).
  assert (Hsf : sf <> [] -> exists s, In s listing /\ dji_file ".srt" s = true).
  { destruct sf as [|[p s] sf]; [congruence|]. intros _.
    destruct (H1 p s (or_introl eq_refl)) as (Ha & Hb & _). eauto. }
  assert (Hig : ig <> [] -> exists f p n, In f listing /\ image_of f p n).
  { destruct ig as [|[p imgs] ig]; [congruence|]. intros _.
    destruct (H2 p imgs (or_introl eq_refl)) as (Ha & Hb).
    destruct imgs as [|[f n] imgs]; [congruence|].
    destruct (Hb f n (or_introl eq_refl)). eauto. }
  assert (Hm : match_groups sf ig [] <> [] ->
               exists s f n, In s listing /\ dji_file ".srt" s = true /\ In f listing /\
                             image_of f (without_extension s) n).
  { destruct (match_groups sf ig []) as [|[k g] m] eqn:Em; [congruence|]. intros _.
    assert (Hin : In (k, g) (match_groups sf ig [])) by (rewrite Em; left; reflexivity).
    apply match_groups_In in Hin as [[]|(s & imgs & Hs & Hi & _)].
    destruct (H1 _ _ Hs) as (Ha & Hb & ->).
    destruct (H2 _ _ (dict_get_In _ _ _ Hi)) as (Hc & Hd).
    destruct imgs as [|[f n] imgs]; [congruence|].
    destruct (Hd f n (or_introl eq_refl)). exists s, f, n. auto. }
  assert (Hsf' : (exists s, In s listing /\ dji_file ".srt" s = true) -> sf <> []).
  { intros (s & Hs & Hsrt) ->. exact (H3 _ Hs Hsrt). }
  assert (Hig' : (exists f p n, In f listing /\ image_of f p n) -> ig <> []).
  { intros (f & p & n & Hf & Him) ->. destruct (H4 _ _ _ Hf Him) as (? & ? & _).
    discriminate. }
  pose proof (find_groups_cases os_listdir current_folder _ _ _ Hl Es) as Hc.
  split; [|split].
  - intros Hno. unfold main.
    destruct Hc as [(_ & E)|[(E0 & _)|[(E0 & _)|(E0 & _)]]];
      [rewrite E; reflexivity| | |];
      destruct (Hsf E0) as (s & Hs & Hsrt); rewrite (Hno s Hs) in Hsrt; discriminate.
  - intros Hsome Hno. unfold main.
    destruct Hc as [(E0 & _)|[(_ & _ & E)|[(_ & E0 & _)|(_ & E0 & _)]]];
      [destruct (Hsf' Hsome E0)|rewrite E; reflexivity| |];
      destruct (Hig E0) as (f & p & n & Hf & Him); destruct (Hno _ _ _ Hf Him).
  - intros Hsome Himg Hno. exists (map fst sf), (map fst ig). unfold main.
    split; [|split].
    + destruct Hc as [(E0 & _)|[(_ & E0 & _)|[(_ & _ & _ & E)|(_ & _ & E0 & _)]]];
        [destruct (Hsf' Hsome E0)|destruct (Hig' Himg E0)|rewrite E; reflexivity|].
      destruct (Hm E0) as (s & f & n & Hs & Hsrt & Hf & Him).
      destruct (Hno _ _ _ Hs Hsrt Hf Him).
    + intros p. split.
      * intros Hp. apply in_map_iff in Hp as ([p' s] & <- & Hp).
        destruct (H1 _ _ Hp) as (Ha & Hb & Hc'). exists s. auto.
      * intros (s & Hs & Hsrt & ->). exact (H3 _ Hs Hsrt).
    + intros p. split.
      * intros Hp. apply in_map_iff in Hp as ([p' imgs] & <- & Hp).
        destruct (H2 _ _ Hp) as (Ha & Hb). destruct imgs as [|[f n] imgs]; [congruence|].
        destruct (Hb f n (or_introl eq_refl)). exists f, n. auto.
      * intros (f & n & Hf & Him). destruct (H4 _ _ _ Hf Him) as (imgs & Hg & _).
        apply dict_get_keys. eauto.
Qed.

End FolderTheorems.

(** ** The files that a run writes *)

Lemma keeps_ret {A : Type} path (a : A) : keeps path (ret a).
Proof. intros w. reflexivity. Qed.

Lemma keeps_lift {A : Type} path (r : result A) : keeps path (lift r).
Proof. intros w. reflexivity. Qed.

Lemma keeps_print path l : keeps path (print l).
Proof. intros w. reflexivity. Qed.

Lemma keeps_bind {A B : Type} path (m : M A) (k : A -> M B) :
  keeps path m -> (forall a, keeps path (k a)) -> keeps path (bindM m k).
Proof.
  intros Hm Hk w. unfold bindM. specialize (Hm w).
  destruct (m w) as [[a|e] w']; cbn [snd] in *.
  - rewrite Hk. exact Hm.
  - exact Hm.
Qed.

Lemma keeps_try {A : Type} path (body : M A) (handler : exn -> M A) :
  keeps path body -> (forall e, keeps path (handler e)) ->
  keeps path (try_except body handler).
Proof.
  intros Hm Hk w. unfold try_except. specialize (Hm w).
  destruct (body w) as [[a|e] w']; cbn [snd] in *.
  - exact Hm.
  - rewrite Hk. exact Hm.
Qed.

Lemma keeps_read_rate path answer default invalid :
  keeps path (read_rate answer default invalid).
Proof.
  unfold read_rate. destruct (str_strip (chars answer)); [apply keeps_ret|].
  destruct (py_float _) as [x|e]; [apply keeps_ret|].
  destruct e; try apply keeps_lift.
  apply keeps_bind; [apply keeps_print|]. intros _. apply keeps_ret.
Qed.

Section Writes.

Variable current_folder : string.
Variable ifd : Type.
Variable piexif_load : files -> string -> result (exif_dict ifd).
Variable piexif_dump : exif_dict ifd -> result string.
Variable piexif_insert : string -> string -> files -> result unit * files.
Variable pysrt_open : string -> result (list sub).

Hypothesis insert_local : forall exif_bytes file_path d path,
  path <> file_path -> snd (piexif_insert exif_bytes file_path d) path = d path.

Lemma keeps_set_gps_location path file_path lat lon abs_alt rel_alt :
  path <> file_path ->
  keeps path (set_gps_location ifd piexif_load piexif_dump piexif_insert
                file_path lat lon abs_alt rel_alt).
Proof.
  intros Hp. unfold set_gps_location. apply keeps_try.
  - apply keeps_bind; [apply keeps_lift|]. intros lat_deg.
    apply keeps_bind; [apply keeps_lift|]. intros lon_deg.
    apply keeps_bind; [intros w; reflexivity|]. intros exif.
    apply keeps_bind; [apply keeps_lift|]. intros alt.
    apply keeps_bind; [apply keeps_lift|]. intros gps.
    apply keeps_bind; [apply keeps_lift|]. intros exif_bytes.
    apply keeps_bind; [|intros _; apply keeps_ret].
    intros w. unfold insert.
    pose proof (insert_local exif_bytes file_path (disk w) path Hp) as H.
    destruct (piexif_insert exif_bytes file_path (disk w)) as [r d]. exact H.
  - intros e. apply keeps_bind; [apply keeps_print|]. intros _. apply keeps_ret.
Qed.

Lemma keeps_process_image path video_fps extraction_fps subs img :
  path <> path_join current_folder (fst img) ->
  keeps path (process_image ifd piexif_load piexif_dump piexif_insert current_folder
                video_fps extraction_fps subs img).
Proof.
  intros Hp. unfold process_image. destruct img as [img_filename frame_number].
  apply keeps_bind; [apply keeps_lift|]. intros x.
  apply keeps_bind; [apply keeps_lift|]. intros t.
  destruct (find_sub t subs) as [s|].
  - apply keeps_bind; [apply keeps_lift|]. intros [[[[lat lon] abs_alt] rel_alt]|].
    + apply keeps_bind; [apply keeps_print|]. intros _.
      apply keeps_set_gps_location. exact Hp.
    + apply keeps_bind; [apply keeps_print|]. intros _.
      apply keeps_bind; [apply keeps_print|]. intros _. apply keeps_ret.
  - apply keeps_bind; [apply keeps_print|]. intros _. apply keeps_ret.
Qed.

Lemma keeps_process_images path video_fps extraction_fps subs imgs :
  (forall img, In img imgs -> path <> path_join current_folder (fst img)) ->
  forall n, keeps path (process_images ifd piexif_load piexif_dump piexif_insert
                          current_folder video_fps extraction_fps subs imgs n).
Proof.
  induction imgs as [|img imgs IH]; intros Hp n; cbn [process_images].
  - apply keeps_ret.
  - apply keeps_bind.
    + apply keeps_process_image. apply Hp. left. reflexivity.
    + intros ok. apply IH. intros i Hi. apply Hp. right. exact Hi.
Qed.

Lemma keeps_process_group path video_fps extraction_fps g totals :
  (forall img, In img (images g) -> path <> path_join current_folder (fst img)) ->
  keeps path (process_group ifd piexif_load piexif_dump piexif_insert pysrt_open
                current_folder video_fps extraction_fps g totals).
Proof.
  intros Hp. unfold process_group. destruct totals as [s t].
  apply keeps_bind; [apply keeps_print|]. intros _.
  apply keeps_bind.
  - apply keeps_try.
    + apply keeps_bind; [apply keeps_lift|]. intros subs.
      apply keeps_bind; [apply keeps_print|]. intros _. apply keeps_ret.
    + intros e. apply keeps_bind; [apply keeps_print|]. intros _. apply keeps_ret.
  - intros [subs|]; [|apply keeps_ret].
    apply keeps_bind; [apply keeps_process_images; exact Hp|]. intros n.
    apply keeps_bind; [apply keeps_print|]. intros _. apply keeps_ret.
Qed.

Lemma keeps_process_groups path video_fps extraction_fps gs :
  (forall g img, In g gs -> In img (images g) ->
                 path <> path_join current_folder (fst img)) ->
  forall totals,
    keeps path (process_groups ifd piexif_load piexif_dump piexif_insert pysrt_open
                  current_folder video_fps extraction_fps gs totals).
Proof.
  induction gs as [|g gs IH]; intros Hp totals; cbn [process_groups].
  - apply keeps_ret.
  - apply keeps_bind.
    + apply keeps_process_group. intros img. apply Hp. left. reflexivity.
    + intros totals'. apply IH. intros g' img Hg. apply Hp. right. exact Hg.
Qed.

Lemma keeps_geotag_dji_frames path matched_groups video_fps_answer extraction_fps_answer :
  (forall g img, In g matched_groups -> In img (images g) ->
                 path <> path_join current_folder (fst img)) ->
  keeps path (geotag_dji_frames ifd piexif_load piexif_dump piexif_insert pysrt_open
                current_folder matched_groups video_fps_answer extraction_fps_answer).
Proof.
  intros Hp. unfold geotag_dji_frames.
  apply keeps_bind; [apply keeps_print|]. intros _.
  apply keeps_bind; [apply keeps_read_rate|]. intros video_fps.
  apply keeps_bind; [apply keeps_read_rate|]. intros extraction_fps.
  apply keeps_bind; [apply keeps_print|]. intros _.
  apply keeps_bind; [apply keeps_lift|]. intros ratio.
  apply keeps_bind; [apply keeps_print|]. intros _.
  apply keeps_bind; [apply keeps_process_groups; exact Hp|]. intros totals.
  apply keeps_bind; [apply keeps_print|]. intros _.
  apply keeps_bind; [apply keeps_print|]. intros _.
  apply keeps_print.
Qed.

End Writes.

Section MainWrites.

Variable os_listdir : string -> result (list string).
Variable current_folder : string.
Variable ifd : Type.
Variable piexif_load : files -> string -> result (exif_dict ifd).
Variable piexif_dump : exif_dict ifd -> result string.
Variable piexif_insert : string -> string -> files -> result unit * files.
Variable pysrt_open : string -> result (list sub).

(** X8. A run writes to no file but the images of the folder: when
    [piexif.insert] changes no file other than the one it is given, every
    path that is not the path of a file of the folder named DJI_... with
    the extension .jpg holds after the run what it held before, whatever
    the answers and however the run ends. *)
Theorem run_writes_only_images (listing : list string)
    (video_fps_answer extraction_fps_answer : string) (w : world) (path : string) :
  (forall exif_bytes file_path d p,
     p <> file_path -> snd (piexif_insert exif_bytes file_path d) p = d p) ->
  os_listdir current_folder = Ok listing ->
  (forall f, In f listing -> dji_file ".jpg" f = true ->
             path <> path_join current_folder f) ->
  disk (snd (snd (main os_listdir current_folder ifd piexif_load piexif_dump
                    piexif_insert pysrt_open
                    video_fps_answer extraction_fps_answer w))) path
    = disk w path.
Proof.
  intros Hins Hl Hp. unfold main.
  destruct (find_groups os_listdir current_folder) as [found r] eqn:E.
  destruct r as [[groups|]|e]; cbn [snd]; try reflexivity.
  assert (Hg : snd (find_groups os_listdir current_folder) = Ok (Some groups))
    by (rewrite E; reflexivity).
  destruct (find_groups_some _ _ _ _ Hl Hg) as (sf & ig & Hinv & Hgs & _).
  destruct (found_groups _ _ _ Hinv) as (_ & Hall). rewrite <- Hgs in Hall.
  apply (keeps_geotag_dji_frames current_folder ifd piexif_load piexif_dump
           piexif_insert pysrt_open Hins path groups).
  intros g [f n] Hin Him. cbn [fst].
  destruct (Hall g Hin) as (_ & _ & _ & _ & Hi & _).
  destruct (Hi f n Him) as (Hf & Hj & _). exact (Hp f Hf Hj).
Qed.

End MainWrites.

(** ** Values that are not finite *)

Lemma to_deg_non_finite x (p s : string) :
  (forall q, x <> Fin q) -> exists e, to_deg x [p; s] = Raise e.
Proof.
  intros H. destruct x as [q|[]|]; [destruct (H q eq_refl)| | |]; eexists; reflexivity.
Qed.

Lemma to_rational_non_finite x :
  (forall q, x <> Fin q) -> exists e, to_rational x 100 = Raise e.
Proof.
  intros H. destruct x as [q|[]|]; [destruct (H q eq_refl)| | |];
    eexists; vm_compute; reflexivity.
Qed.

Section NonFinite.

Variable ifd : Type.
Variable piexif_load : files -> string -> result (exif_dict ifd).
Variable piexif_dump : exif_dict ifd -> result string.
Variable piexif_insert : string -> string -> files -> result unit * files.

(** X9. A position with a latitude, a longitude or an altitude that is
    infinite or not a number is never written: [set_gps_location]
    returns [False], prints one error line and leaves the files as they
    are, [piexif.insert] not being called. *)
Theorem non_finite_sample_not_written (file_path : string) (lat lon abs_alt : float)
    (rel_alt : option float) (w : world) :
  (forall q, lat <> Fin q) \/ (forall q, lon <> Fin q) \/ (forall q, abs_alt <> Fin q) ->
  exists e,
    set_gps_location ifd piexif_load piexif_dump piexif_insert
      file_path lat lon abs_alt rel_alt w
    = (Ok false, {| log := log w ++ [LErrorWriting file_path e]; disk := disk w |}).
Proof.
  intros H. unfold set_gps_location, try_except, bindM, lift, load, print, ret.
  destruct (to_deg lat ["N"; "S"]) as [lat_deg|e1] eqn:E1; [|eauto].
  destruct (to_deg lon ["E"; "W"]) as [lon_deg|e2] eqn:E2; [|eauto].
  destruct (piexif_load (disk w) file_path) as [exif|e3]; [|eauto].
  destruct (to_rational abs_alt 100) as [alt|e4] eqn:E4; [|eauto].
  exfalso. destruct H as [H|[H|H]].
  - destruct (to_deg_non_finite lat "N" "S" H) as (e & He). congruence.
  - destruct (to_deg_non_finite lon "E" "W" H) as (e & He). congruence.
  - destruct (to_rational_non_finite abs_alt H) as (e & He). congruence.
Qed.

End NonFinite.

Lemma non_finite_sample_not_written_witness :
  ((forall q, Inf false <> Fin q) \/ (forall q, Fin (- (149 # 2)) <> Fin q) \/
   (forall q, Fin (201 # 4) <> Fin q)) /\
  exists e,
    set_gps_location unit ex_load ex_dump ex_insert "/flight/DJI_0001_000006.jpg"
      (Inf false) (Fin (- (149 # 2))) (Fin (201 # 4)) None ex_world
    = (Ok false, {| log := log ex_world
                      ++ [LErrorWriting "/flight/DJI_0001_000006.jpg" e];
                    disk := disk ex_world |}).
Proof.
  assert (H : (forall q, Inf false <> Fin q) \/ (forall q, Fin (- (149 # 2)) <> Fin q) \/
              (forall q, Fin (201 # 4) <> Fin q)) by (left; intros q; discriminate).
  split; [exact H|].
  exact (non_finite_sample_not_written unit ex_load ex_dump ex_insert
           "/flight/DJI_0001_000006.jpg" (Inf false) (Fin (- (149 # 2))) (Fin (201 # 4))
           None ex_world H).
Defined.

(** ** The numbers of the telemetry *)

Lemma value_char_cases c :
  cls_value c = true ->
  fold_space c = c /\ is_ascii_space c = false /\ Ascii.eqb c "_" = false /\
  Ascii.eqb c "+" = false /\ lower c = c /\
  Ascii.eqb c "e" = false /\ Ascii.eqb c "i" = false /\ Ascii.eqb c "n" = false /\
  (c = "-"%char \/ c = "."%char \/ is_digit c = true).
Proof.
  destruct c as [[] [] [] [] [] [] [] []]; vm_compute; intros H; try discriminate H;
    repeat split; auto.
Qed.

Lemma span_digits_spec s :
  span_digits s = (take_while is_digit s, drop_while is_digit s).
Proof.
  induction s as [|c s IH]; cbn; [reflexivity|].
  destruct (is_digit c); [rewrite IH|]; reflexivity.
Qed.

Lemma drop_while_none p s :
  forallb (fun c => negb (p c)) s = true -> drop_while p s = s.
Proof.
  destruct s as [|c s]; cbn; [reflexivity|]. intros H.
  apply andb_true_iff in H as [H _]. apply negb_true_iff in H. rewrite H. reflexivity.
Qed.

Lemma strip_none p s :
  forallb (fun c => negb (p c)) s = true -> strip_with p s = s.
Proof.
  intros H. unfold strip_with. rewrite (drop_while_none p s H).
  rewrite drop_while_none; [apply rev_involutive|].
  apply forallb_forall. intros x Hx. apply in_rev in Hx.
  rewrite forallb_forall in H. exact (H x Hx).
Qed.

Lemma value_not_word s w0 w :
  forallb cls_value s = true -> cls_value w0 = false ->
  eq_nocase s (String w0 w) = false.
Proof.
  intros Hs Hw. unfold eq_nocase. destruct (list_eq_dec _ _ _) as [E|]; [|reflexivity].
  destruct s as [|c s]; [discriminate E|]. cbn in E. injection E as Ec _.
  cbn in Hs. apply andb_true_iff in Hs as [Hc _].
  destruct (value_char_cases c Hc) as (_ & _ & _ & _ & Hl & _).
  rewrite Hl in Ec. subst c. congruence.
Qed.

Lemma py_float_value v :
  forallb cls_value v = true ->
  py_float v =
  let (neg, s1) := read_sign v in
  match read_decimal s1 with
  | Some q => Ok (b64_round (signed neg q))
  | None => Raise ValueError
  end.
Proof.
  intros Hv. unfold py_float.
  assert (Hf : map fold_space v = v).
  { clear - Hv. induction v as [|c v IH]; [reflexivity|].
    cbn in Hv. apply andb_true_iff in Hv as [Hc Hv]. cbn. rewrite (IH Hv).
    destruct (value_char_cases c Hc) as (-> & _). reflexivity. }
  rewrite Hf, strip_none.
  2: { apply forallb_forall. intros c Hc. rewrite forallb_forall in Hv.
       destruct (value_char_cases c (Hv c Hc)) as (_ & -> & _). reflexivity. }
  assert (Hu : existsb (fun c => Ascii.eqb c "_") v = false).
  { clear - Hv. induction v as [|c v IH]; [reflexivity|].
    cbn in Hv. apply andb_true_iff in Hv as [Hc Hv]. cbn. rewrite (IH Hv).
    destruct (value_char_cases c Hc) as (_ & _ & -> & _). reflexivity. }
  unfold remove_underscores. rewrite Hu. unfold read_number.
  assert (Hs1 : forallb cls_value (snd (read_sign v)) = true).
  { destruct v as [|c v]; [reflexivity|]. cbn in Hv |- *.
    apply andb_true_iff in Hv as [Hc Hv'].
    destruct (Ascii.eqb c "-"); [exact Hv'|].
    destruct (Ascii.eqb c "+"); [exact Hv'|]. cbn. rewrite Hc. exact Hv'. }
  destruct (read_sign v) as [neg s1]. cbn [snd] in Hs1.
  rewrite !(value_not_word s1) by (exact Hs1 || reflexivity). cbn [orb].
  destruct (read_decimal s1); reflexivity.
Qed.

Lemma read_decimal_value s q :
  forallb cls_value s = true ->
  read_decimal s = Some q <->
  exists (dot : bool) (ip fp : list ascii),
    s = ip ++ (if dot then "."%char :: fp else []) /\
    forallb is_digit ip = true /\ forallb is_digit fp = true /\
    ip ++ fp <> [] /\ (dot = false -> fp = []) /\ q = decimal_value ip fp 0.
Proof.
  intros Hs. unfold read_decimal. rewrite span_digits_spec.
  assert (Hexp : forall s3, forallb cls_value s3 = true ->
            read_exponent s3 = match s3 with [] => Some 0 | _ => None end).
  { intros [|c t] H3; [reflexivity|]. cbn in H3. apply andb_true_iff in H3 as [Hc _].
    destruct (value_char_cases c Hc) as (_ & _ & _ & _ & Hl & He & _).
    cbn. rewrite Hl, He. reflexivity. }
  assert (Hdrop : forallb cls_value (drop_while is_digit s) = true).
  { rewrite <- (take_drop_while is_digit s), forallb_app in Hs.
    apply andb_true_iff in Hs as [_ Hs]. exact Hs. }
  split.
  - intros H. destruct (drop_while is_digit s) as [|c t] eqn:Ed.
    + destruct (take_while is_digit s ++ []) eqn:Ei; [discriminate|].
      cbn in H. injection H as <-.
      exists false, (take_while is_digit s), [].
      rewrite <- (take_drop_while is_digit s) at 1. rewrite Ed.
      split; [reflexivity|]. split; [apply forallb_take_while|]. split; [reflexivity|].
      split; [rewrite Ei; discriminate|]. auto.
    + destruct (Ascii.eqb c ".") eqn:Ec.
      * apply Ascii.eqb_eq in Ec. subst c. rewrite span_digits_spec in H.
        destruct (take_while is_digit s ++ take_while is_digit t) eqn:Ei; [discriminate|].
        cbn in Hdrop. rewrite <- (take_drop_while is_digit t), forallb_app in Hdrop.
        apply andb_true_iff in Hdrop as [_ Hdrop].
        rewrite (Hexp _ Hdrop) in H.
        destruct (drop_while is_digit t) eqn:Et; [|discriminate].
        cbn in H. injection H as <-.
        exists true, (take_while is_digit s), (take_while is_digit t).
        split.
        { rewrite <- (take_drop_while is_digit s) at 1. rewrite Ed. f_equal. f_equal.
          rewrite <- (take_drop_while is_digit t) at 1. rewrite Et, app_nil_r.
          reflexivity. }
        split; [apply forallb_take_while|]. split; [apply forallb_take_while|].
        split; [rewrite Ei; discriminate|]. split; [discriminate|reflexivity].
      * destruct (take_while is_digit s ++ []) eqn:Ei; [discriminate|].
        rewrite (Hexp _ Hdrop) in H. discriminate.
  - intros (dot & ip & fp & -> & Hi & Hf & Hn & Hd & ->).
    destruct dot.
    + assert (Hp : is_digit "." = false) by reflexivity.
      destruct (digits_split ip ("."%char :: fp) _ Hi Hp eq_refl) as [-> ->].
      rewrite Ascii.eqb_refl, span_digits_spec.
      destruct (while_all is_digit fp Hf) as [-> ->].
      destruct (ip ++ fp); [congruence|]. reflexivity.
    + rewrite (Hd eq_refl) in *. rewrite app_nil_r in *.
      destruct (while_all is_digit ip Hi) as [-> ->].
      rewrite app_nil_r. destruct ip; [congruence|]. reflexivity.
Qed.

Lemma py_float_decimal v x :
  forallb cls_value v = true -> (py_float v = Ok x <-> decimal_token v x).
Proof.
  intros Hv. rewrite (py_float_value v Hv). unfold decimal_token. split.
  - intros H. destruct v as [|c v].
    + cbn in H. discriminate.
    + cbn in Hv. apply andb_true_iff in Hv as [Hc Hv'].
      destruct (value_char_cases c Hc) as (_ & _ & _ & Hplus & _).
      cbn [read_sign] in H. rewrite Hplus in H.
      destruct (Ascii.eqb c "-") eqn:Em.
      * apply Ascii.eqb_eq in Em. subst c.
        destruct (read_decimal v) as [q|] eqn:Ed; [|discriminate]. injection H as <-.
        apply (read_decimal_value v q Hv') in Ed
          as (dot & ip & fp & -> & Hi & Hf & Hn & Hd & ->).
        exists true, dot, ip, fp. auto 10.
      * destruct (read_decimal (c :: v)) as [q|] eqn:Ed; [|discriminate].
        injection H as <-.
        assert (Hcv : forallb cls_value (c :: v) = true) by (cbn; rewrite Hc; exact Hv').
        apply (read_decimal_value _ q Hcv) in Ed
          as (dot & ip & fp & E & Hi & Hf & Hn & Hd & ->).
        exists false, dot, ip, fp. cbn [app]. auto 10.
  - intros (neg & dot & ip & fp & -> & Hi & Hf & Hn & Hd & ->).
    assert (Hrest : forallb cls_value (ip ++ (if dot then "."%char :: fp else [])) = true).
    { destruct neg; [cbn in Hv; exact Hv|exact Hv]. }
    assert (Hdec : read_decimal (ip ++ (if dot then "."%char :: fp else []))
                   = Some (decimal_value ip fp 0)).
    { apply read_decimal_value; [exact Hrest|]. exists dot, ip, fp. auto 10. }
    destruct neg.
    + cbn [app read_sign]. rewrite Ascii.eqb_refl, Hdec. reflexivity.
    + cbn [app]. destruct (ip ++ (if dot then "."%char :: fp else [])) as [|c s] eqn:E.
      * cbn in Hdec. discriminate.
      * assert (Hc : Ascii.eqb c "-" = false /\ Ascii.eqb c "+" = false).
        { destruct ip as [|d ip].
          - destruct dot; [|discriminate E]. cbn in E. injection E as <- _. auto.
          - cbn in E. injection E as <- _. cbn in Hi.
            apply andb_true_iff in Hi as [Hd0 _].
            destruct (digit_char_cases d Hd0) as (_ & _ & -> & -> & _). auto. }
        destruct Hc as [Hm Hp]. cbn [read_sign]. rewrite Hm, Hp, Hdec. reflexivity.
Qed.

Lemma b64_round_not_nan q : b64_round q <> NaN.
Proof.
  unfold b64_round. destruct (Qeq_bool q 0); [discriminate|].
  destruct (Qle_bool _ _); discriminate.
Qed.

Lemma decimal_token_not_nan v x : decimal_token v x -> x <> NaN.
Proof.
  intros (neg & dot & ip & fp & _ & _ & _ & _ & _ & ->). apply b64_round_not_nan.
Qed.

Lemma token_value name closing cc s v x :
  (closing = [] /\ cc = []) \/ (closing = [Lit "]"] /\ cc = ["]"%char]) ->
  re_search (lits name ++ [Star cls_space; GroupPlus cls_value] ++ closing) s = Some v ->
  py_float v = Ok x ->
  has_token name cc v s /\ decimal_token v x.
Proof.
  intros Hc Hs Hf. pose proof (token_search_sound name closing cc s v Hc Hs) as Ht.
  split; [exact Ht|]. destruct Ht as (pre & ws & post & _ & _ & _ & Hv).
  apply py_float_decimal; assumption.
Qed.

(** X10. The numbers of the telemetry are plain decimals: on a text
    that a pattern of [parse_dji_gps_data] captures, [float()] succeeds
    exactly when the text is an optional minus sign, digits and an
    optional point followed by digits, with at least one digit, and the
    value is the float nearest to that decimal; every number of a parsed
    sample is such a value of a token of the text, and is never a NaN. *)
Theorem telemetry_numbers_are_decimals :
  (forall v x, forallb cls_value v = true ->
               (py_float v = Ok x <-> decimal_token v x)) /\
  (forall srt_text lat lon abs_alt rel_alt,
     parse_dji_gps_data srt_text = Ok (Some (lat, lon, abs_alt, rel_alt)) ->
     (exists v, has_token "[latitude:" ["]"%char] v (chars srt_text) /\
                decimal_token v lat) /\
     (exists v, has_token "[longitude:" ["]"%char] v (chars srt_text) /\
                decimal_token v lon) /\
     (exists v, has_token "abs_alt:" ["]"%char] v (chars srt_text) /\
                decimal_token v abs_alt) /\
     (forall x, rel_alt = Some x ->
                exists v, has_token "[rel_alt:" [] v (chars srt_text) /\
                          decimal_token v x) /\
     lat <> NaN /\ lon <> NaN /\ abs_alt <> NaN /\ rel_alt <> Some NaN).
Proof.
  split; [exact py_float_decimal|].
  intros srt_text lat lon abs_alt rel_alt H.
  destruct (parse_dji_gps_data_cases srt_text) as (_ & Hiff & _).
  apply Hiff in H as (g1 & g2 & g3 & S1 & F1 & S2 & F2 & S3 & F3 & Hrel).
  pose proof (token_value "[latitude:" [Lit "]"] ["]"%char] _ _ _
                (or_intror (conj eq_refl eq_refl)) S1 F1) as [T1 D1].
  pose proof (token_value "[longitude:" [Lit "]"] ["]"%char] _ _ _
                (or_intror (conj eq_refl eq_refl)) S2 F2) as [T2 D2].
  pose proof (token_value "abs_alt:" [Lit "]"] ["]"%char] _ _ _
                (or_intror (conj eq_refl eq_refl)) S3 F3) as [T3 D3].
  assert (Hr : forall x, rel_alt = Some x ->
                 exists v, has_token "[rel_alt:" [] v (chars srt_text) /\
                           decimal_token v x).
  { intros x ->. destruct (re_search re_rel_alt (chars srt_text)) as [g4|] eqn:S4;
      [|discriminate].
    destruct Hrel as (x' & F4 & [= <-]).
    exists g4. exact (token_value "[rel_alt:" [] [] _ _ _
                        (or_introl (conj eq_refl eq_refl)) S4 F4). }
  split; [eauto|]. split; [eauto|]. split; [eauto|]. split; [exact Hr|].
  split; [exact (decimal_token_not_nan _ _ D1)|].
  split; [exact (decimal_token_not_nan _ _ D2)|].
  split; [exact (decimal_token_not_nan _ _ D3)|].
  intros ->. destruct (Hr NaN eq_refl) as (v & _ & D).
  exact (decimal_token_not_nan _ _ D eq_refl).
Qed.

(** ** The ranges of the DMS fields *)

Local Open Scope Q_scope.

(** A float below 1 is at most [1 - 2^-53]. *)
Lemma b64_below_one d : is_b64 d -> 0 <= d -> d < 1 -> d <= 1 - (1 # 9007199254740992).
Proof.
  intros (m & e & Hm & He & Hq & _) H0 H1.
  pose proof (pow2_pos e) as Pe.
  assert (Hm0 : (0 <= m)%Z).
  { rewrite Zle_Qle. change (inject_Z 0) with 0.
    destruct (Qlt_le_dec (inject_Z m) 0) as [C|C]; [|exact C]. nra. }
  change (2 ^ 53)%Z with 9007199254740992%Z in Hm.
  destruct (Z_le_gt_dec 0 e) as [Ee|Ee].
  - assert (Hi : d == inject_Z (m * 2 ^ e)).
    { rewrite Hq, inject_Z_mult, <- pow2_Z by lia. reflexivity. }
    assert (Hz : (m * 2 ^ e < 1)%Z).
    { rewrite Zlt_Qlt. rewrite <- Hi. exact H1. }
    assert (Hz' : (m * 2 ^ e <= 0)%Z) by lia.
    rewrite Zle_Qle in Hz'. rewrite <- Hi in Hz'. change (inject_Z 0) with 0 in Hz'. lra.
  - set (j := (- e)%Z). assert (Hj : (0 < j)%Z) by (unfold j; lia).
    assert (P2 : (0 < 2 ^ j)%Z) by (apply Z.pow_pos_nonneg; lia).
    assert (E1 : pow2 e == / pow2 j).
    { unfold j, pow2. rewrite <- Qpower_opp. replace (- - e)%Z with e by lia. reflexivity. }
    assert (Hi : d == inject_Z m / inject_Z (2 ^ j)).
    { rewrite Hq, <- pow2_Z, E1 by lia. reflexivity. }
    set (P := (2 ^ j)%Z) in *.
    assert (PQ : 0 < inject_Z P) by (change 0 with (inject_Z 0); rewrite <- Zlt_Qlt; exact P2).
    assert (HZ : (m * 9007199254740992 + P <= P * 9007199254740992)%Z).
    { destruct (Z_le_gt_dec j 53) as [J|J].
      - assert (Hlt : (m < P)%Z).
        { rewrite Zlt_Qlt. apply (Qmult_lt_r _ _ (/ inject_Z P));
            [apply Qinv_lt_0_compat; exact PQ|].
          setoid_replace (inject_Z P * / inject_Z P) with 1 by (field; lra).
          unfold Qdiv in Hi. rewrite <- Hi. exact H1. }
        assert (HP : (P <= 9007199254740992)%Z).
        { unfold P. change 9007199254740992%Z with (2 ^ 53)%Z.
          apply Z.pow_le_mono_r; lia. }
        nia.
      - assert (HP : (2 * 9007199254740992 <= P)%Z).
        { unfold P. change (2 * 9007199254740992)%Z with (2 ^ 54)%Z.
          apply Z.pow_le_mono_r; lia. }
        nia. }
    rewrite Zle_Qle, inject_Z_plus, !inject_Z_mult in HZ.
    change (inject_Z 9007199254740992) with 9007199254740992 in HZ.
    rewrite Hi. apply Qle_shift_div_r; [exact PQ|].
    set (A := inject_Z m) in *. set (B := inject_Z P) in *. lra.
Qed.

(** A fraction times 60 stays below 60 after rounding. *)
Lemma below_sixty d t :
  is_b64 d -> 0 <= d -> d < 1 -> fmul_int (Fin d) 60 = Ok (Fin t) ->
  0 <= t /\ t < 60 /\ is_b64 t.
Proof.
  intros Vd H0 H1 Ht.
  destruct (mul60_step d H0 H1) as (t' & Ht' & Et & Vt & Pt).
  rewrite Ht in Ht'. injection Ht' as <-.
  pose proof (b64_below_one d Vd H0 H1) as Hd.
  apply Qabs_Qle_condition in Et.
  assert (P48 : pow2 (-48) == 1 # 281474976710656) by reflexivity.
  split; [exact Pt|]. split; [lra|exact Vt].
Qed.

Lemma round5_le s sec :
  0 <= s -> s <= 60 -> py_round (Fin s) 5 = Ok (Fin sec) -> 0 <= sec <= 60.
Proof.
  intros H0 H1. unfold py_round.
  change (323 <? 5)%Z with false. change (5 <? -308)%Z with false. cbv iota.
  change ((10 # 1) ^ 5) with 100000.
  set (n := rne (s * 100000)).
  assert (Hn0 : (0 <= n)%Z) by (apply rne_ge; change (inject_Z 0) with 0; lra).
  assert (Hn1 : (n <= 6000000)%Z)
    by (apply rne_le; change (inject_Z 6000000) with 6000000; lra).
  rewrite Zle_Qle in Hn0, Hn1. change (inject_Z 0) with 0 in Hn0.
  change (inject_Z 6000000) with 6000000 in Hn1.
  set (x := inject_Z n / 100000).
  assert (Hx : inject_Z n == x * 100000) by (unfold x; field).
  assert (Hk : Qabs x < pow2 53).
  { apply (Qlt_trans _ 64); [apply Qabs_Qlt_condition; lra|].
    change 64 with (pow2 6). apply pow2_lt. lia. }
  destruct (b64_round x) as [y| |] eqn:Hy; try discriminate.
  intros [= <-]. split.
  - apply (b64_round_ge_int x 0 y Hk Hy). change (inject_Z 0) with 0. lra.
  - apply (b64_round_le_int x 60 y Hk Hy). change (inject_Z 60) with 60. lra.
Qed.

Lemma seconds_numerator sec :
  0 <= sec <= 60 ->
  exists n, to_rational (Fin sec) 100000 = Ok (n, 100000%Z) /\ (0 <= n <= 6000000)%Z.
Proof.
  intros [H0 H1]. unfold to_rational, fmul_int.
  rewrite (float_of_int_exact 100000) by (vm_compute; reflexivity).
  cbn [bind fmul]. change (inject_Z 100000) with 100000.
  assert (Hk : Qabs (sec * 100000) < pow2 53).
  { apply (Qlt_trans _ (pow2 23)); [|apply pow2_lt; lia].
    change (pow2 23) with 8388608. apply Qabs_Qlt_condition. lra. }
  destruct (b64_round_fin _ 53 Hk ltac:(lia)) as (y & Hy & _ & _).
  rewrite Hy. cbn [bind int_of_float].
  pose proof (b64_round_ge_int _ 0 y Hk Hy) as G0.
  pose proof (b64_round_le_int _ 6000000 y Hk Hy) as G1.
  change (inject_Z 0) with 0 in G0. change (inject_Z 6000000) with 6000000 in G1.
  assert (Y0 : 0 <= y) by (apply G0; lra).
  assert (Y1 : y <= 6000000) by (apply G1; lra).
  exists (Qtrunc y). split; [reflexivity|].
  rewrite (Qtrunc_nonneg y Y0). split.
  - apply Qfloor_nonneg. exact Y0.
  - pose proof (Qfloor_le y) as F. rewrite Zle_Qle.
    change (inject_Z 6000000) with 6000000. lra.
Qed.

(** X11. The fields that [to_deg] and the dictionary of
    [set_gps_location] build for a coordinate of magnitude at most 180
    are in range: degrees from 0 to 180, minutes from 0 to 59, seconds
    from 0 to 60 and the numerator of the seconds from 0 to 6000000 over
    100000; seconds equal to 60 do occur (for the float [1 - 2^-40]). *)
Theorem dms_fields_in_range (value : Q) (primary secondary : string) :
  is_b64 value -> Qabs value <= 180 ->
  (exists degrees minutes seconds hemisphere numerator,
     to_deg (Fin value) [primary; secondary]
       = Ok (degrees, minutes, Fin seconds, hemisphere) /\
     dms_rationals (degrees, minutes, Fin seconds, hemisphere)
       = Ok ((degrees, 1%Z), (minutes, 1%Z), (numerator, 100000%Z)) /\
     (0 <= degrees <= 180)%Z /\ (0 <= minutes <= 59)%Z /\
     0 <= seconds <= 60 /\ (0 <= numerator <= 6000000)%Z) /\
  (x <- to_deg (Fin (1 - (1 # 1099511627776))) [primary; secondary] ;; dms_rationals x)
    = Ok ((0%Z, 1%Z), (59%Z, 1%Z), (6000000%Z, 100000%Z)).
Proof.
  intros Hv Hr. split; [|reflexivity].
  assert (Hr' : Qabs value < 256) by lra.
  destruct (to_deg_value value primary secondary Hv Hr')
    as (deg & min & sec & Hto & Hdeg & Hmin & Hs0 & _ & Vsec &
        (f & t1 & r & s0 & Hf & Ht1 & Emin & Hrr & Hs & Hsec) & _).
  set (a := Qabs value) in *.
  assert (Ha0 : 0 <= a) by apply Qabs_nonneg.
  assert (Ha : is_b64 a).
  { destruct Hv as (m & e & Hm & He & Hq & Hlt).
    exists (Z.abs m), e. repeat split; try lia.
    - unfold a. rewrite Hq, Qabs_Qmult, (Qabs_pos (pow2 e)) by (apply Qlt_le_weak, pow2_pos).
      apply Qmult_comp; [|reflexivity]. destruct m; reflexivity.
    - unfold a. rewrite (Qabs_pos (Qabs value)) by apply Qabs_nonneg. exact Hlt. }
  assert (Ha53 : a < pow2 53).
  { apply (Qlt_trans _ 256); [exact Hr'|]. change 256 with (pow2 8). apply pow2_lt. lia. }
  pose proof (Qfloor_le a) as F1. pose proof (Qlt_floor a) as F2.
  rewrite inject_Z_plus in F2. change (inject_Z 1) with 1 in F2.
  destruct (frac_step a Ha Ha0 Ha53) as (d & Hd & Ed & Vd).
  rewrite <- Hdeg, Hf in Hd. injection Hd as <-.
  destruct (below_sixty f t1 Vd) as (Pt1 & Lt1 & Vt1); [lra|lra|exact Ht1|].
  assert (Ht53 : t1 < pow2 53).
  { apply (Qlt_trans _ 64); [lra|]. change 64 with (pow2 6). apply pow2_lt. lia. }
  pose proof (Qfloor_le t1) as G1. pose proof (Qlt_floor t1) as G2.
  rewrite inject_Z_plus in G2. change (inject_Z 1) with 1 in G2.
  destruct (frac_step t1 Vt1 Pt1 Ht53) as (r' & Hr2 & Er & Vr).
  rewrite <- Emin, Hrr in Hr2. injection Hr2 as <-.
  destruct (below_sixty r s0 Vr) as (Ps0 & Ls0 & _); [lra|lra|exact Hs|].
  assert (Hsec' : 0 <= sec <= 60) by (apply (round5_le s0 sec); [exact Ps0|lra|exact Hsec]).
  destruct (seconds_numerator sec Hsec') as (n & Hn & Rn).
  exists deg, min, sec,
    (if flt_int (Fin value) 0 then secondary
     else if fgt_int (Fin value) 0 then primary else EmptyString), n.
  split; [exact Hto|]. split; [cbn [dms_rationals]; rewrite Hn; reflexivity|].
  split; [|split; [|split; [exact Hsec'|exact Rn]]].
  - rewrite Hdeg. split; [apply Qfloor_nonneg; exact Ha0|].
    rewrite Zle_Qle. change (inject_Z 180) with 180. lra.
  - split; [exact Hmin|]. rewrite Emin.
    assert (Hlt : (Qfloor t1 < 60)%Z)
      by (rewrite Zlt_Qlt; change (inject_Z 60) with 60; lra).
    lia.
Qed.

Lemma dms_fields_in_range_witness :
  is_b64 (321 # 8) /\ Qabs (321 # 8) <= 180 /\
  (exists degrees minutes seconds hemisphere numerator,
     to_deg (Fin (321 # 8)) ["N"%string; "S"%string]
       = Ok (degrees, minutes, Fin seconds, hemisphere) /\
     dms_rationals (degrees, minutes, Fin seconds, hemisphere)
       = Ok ((degrees, 1%Z), (minutes, 1%Z), (numerator, 100000%Z)) /\
     (0 <= degrees <= 180)%Z /\ (0 <= minutes <= 59)%Z /\
     0 <= seconds <= 60 /\ (0 <= numerator <= 6000000)%Z) /\
  (x <- to_deg (Fin (1 - (1 # 1099511627776))) ["N"%string; "S"%string] ;; dms_rationals x)
    = Ok ((0%Z, 1%Z), (59%Z, 1%Z), (6000000%Z, 100000%Z)).
Proof.
  assert (Hv : is_b64 (321 # 8)).
  { exists 321%Z, (-3)%Z. split; [vm_compute; reflexivity|]. split; [lia|].
    split; [reflexivity|]. vm_compute. reflexivity. }
  assert (Hr : Qabs (321 # 8) <= 180) by (vm_compute; discriminate).
  split; [exact Hv|]. split; [exact Hr|].
  exact (dms_fields_in_range (321 # 8) "N" "S" Hv Hr).
Defined.

(** ** A frame numbered 0 *)

(** Rounding a number of the normal range moves it by at most [2^-53]
    of its magnitude. *)
Lemma b64_round_rel q :
  pow2 (-1021) <= Qabs q -> Qabs q < pow2 1023 ->
  exists v, b64_round q = Fin v /\ Qabs (v - q) <= Qabs q * pow2 (-53) /\ is_b64 v.
Proof.
  intros Hlo Hhi.
  assert (Hq : ~ q == 0).
  { intros E. rewrite E in Hlo. pose proof (pow2_pos (-1021)) as P.
    change (Qabs 0) with 0 in Hlo. lra. }
  destruct (ilog2_spec q Hq) as [L1 L2].
  pose proof (ilog2_lt q 1023 Hq Hhi) as K1.
  assert (K0 : (-1021 <= ilog2 q + 1)%Z).
  { destruct (Z_le_gt_dec (-1021) (ilog2 q + 1)) as [C|C]; [exact C|].
    assert (C' : (ilog2 q + 1 <= -1021)%Z) by lia.
    pose proof (pow2_le _ _ C') as P. lra. }
  destruct (b64_round_fin q (ilog2 q + 1) L2 ltac:(lia)) as (v & Hv & Herr & Vv).
  exists v. split; [exact Hv|]. split; [|exact Vv].
  replace (ilog2 q + 1 - 54)%Z with (ilog2 q + -53)%Z in Herr by lia.
  rewrite pow2_add in Herr. pose proof (pow2_pos (-53)) as P53.
  apply (Qle_trans _ _ _ Herr). apply Qmult_le_compat_r; [exact L1|lra].
Qed.

Lemma b64_round_negative q :
  q < 0 -> pow2 (-1021) <= - q -> - q < pow2 1023 ->
  exists v, b64_round q = Fin v /\ v < 0 /\
            q * (1 + (1 # 9007199254740992)) <= v <= q * (1 - (1 # 9007199254740992)).
Proof.
  intros Hn Hlo Hhi.
  assert (Ha : Qabs q == - q) by (apply Qabs_neg; lra).
  rewrite <- Ha in Hlo, Hhi.
  destruct (b64_round_rel q Hlo Hhi) as (v & Hv & Herr & _).
  exists v. split; [exact Hv|].
  change (pow2 (-53)) with (1 # 9007199254740992) in Herr.
  rewrite Ha in Herr. apply Qabs_Qle_condition in Herr. split; [|split]; lra.
Qed.

(** X12. Frame numbers are taken to start at 1: for an extraction rate
    between [2^-1000] and [2^1000], the frame numbered 0 gets a negative
    timestamp, no subtitle that starts at 0 ms or later contains it, and
    the image is reported as unmatched and not written. *)
Theorem frame_zero_is_unmatched (q : Q) (subs : list sub) :
  pow2 (-1000) <= q <= pow2 1000 ->
  (forall s, In s subs -> (0 <= start_ordinal s)%Z) ->
  exists x t,
    frame_time_seconds 0 (Fin q) = Ok (Fin x) /\ x < 0 /\
    frame_timedelta_ms 0 (Fin q) = Ok (Fin t) /\ t < 0 /\
    find_sub (Fin t) subs = None /\
    forall (ifd : Type) load dump ins folder video_fps img_filename w,
      process_image ifd load dump ins folder video_fps (Fin q) subs (img_filename, 0%Z) w
      = (Ok false, {| log := log w ++ [LNoMatch img_filename 0 (Fin x)];
                      disk := disk w |}).
Proof.
  intros [Hlo Hhi] Hsubs.
  pose proof (pow2_pos (-1000)) as PB. pose proof (pow2_pos 1000) as PA.
  assert (Hq0 : 0 < q) by lra.
  assert (Hinv : pow2 1000 * pow2 (-1000) == 1).
  { rewrite <- pow2_add. reflexivity. }
  set (u := / q).
  assert (Hu0 : 0 < u) by (apply Qinv_lt_0_compat; exact Hq0).
  assert (Hu1 : u <= pow2 1000).
  { unfold u. apply Qle_shift_inv_r; [exact Hq0|]. nra. }
  assert (Hu2 : pow2 (-1000) <= u).
  { unfold u. apply Qle_shift_inv_l; [exact Hq0|]. nra. }
  assert (B1 : pow2 (-1021) <= pow2 (-1000)) by (apply pow2_le; lia).
  assert (B2 : 2048 * pow2 1000 < pow2 1023).
  { change 2048 with (pow2 11). rewrite <- pow2_add. apply pow2_lt. lia. }
  assert (Eq : inject_Z (0 - 1) / q == - u) by (unfold u; change (inject_Z (0 - 1)) with (-1); field; lra).
  assert (Hfts : frame_time_seconds 0 (Fin q) = Ok (b64_round (- u))).
  { unfold frame_time_seconds, int_div_float.
    rewrite (float_of_int_exact (0 - 1)) by (vm_compute; reflexivity).
    cbn [bind fdiv]. destruct (Qeq_bool q 0) eqn:E0.
    - apply Qeq_bool_iff in E0. lra.
    - rewrite (b64_round_comp _ _ Eq). reflexivity. }
  destruct (b64_round_negative (- u)) as (x & Hx & Nx & Bx1 & Bx2); [lra|lra|lra|].
  assert (Hms : fmul_int (Fin x) 1000 = Ok (b64_round (x * 1000))).
  { unfold fmul_int. rewrite (float_of_int_exact 1000) by (vm_compute; reflexivity).
    reflexivity. }
  destruct (b64_round_negative (x * 1000)) as (t & Ht & Nt & _); [lra|lra|lra|].
  assert (Hnone : find_sub (Fin t) subs = None).
  { apply find_sub_none. intros s Hs. unfold sub_contains.
    rewrite (before_start (Fin t) 0 (start_ordinal s)); [reflexivity| |exact (Hsubs s Hs)].
    apply flt_int_0. exact Nt. }
  exists x, t. rewrite Hfts, Hx. split; [reflexivity|]. split; [exact Nx|].
  split; [|split; [exact Nt|split; [exact Hnone|]]].
  - unfold frame_timedelta_ms. rewrite Hfts, Hx. cbn [bind]. rewrite Hms, Ht. reflexivity.
  - intros ifd load dump ins folder video_fps img_filename w.
    unfold process_image, bindM, lift, print, ret.
    rewrite Hfts, Hx, Hms, Ht, Hnone. reflexivity.
Qed.

Lemma frame_zero_is_unmatched_witness :
  pow2 (-1000) <= 5 <= pow2 1000 /\
  (forall s, In s ex_subs -> (0 <= start_ordinal s)%Z) /\
  exists x t,
    frame_time_seconds 0 (Fin 5) = Ok (Fin x) /\ x < 0 /\
    frame_timedelta_ms 0 (Fin 5) = Ok (Fin t) /\ t < 0 /\
    find_sub (Fin t) ex_subs = None /\
    forall (ifd : Type) load dump ins folder video_fps img_filename w,
      process_image ifd load dump ins folder video_fps (Fin 5) ex_subs
        (img_filename, 0%Z) w
      = (Ok false, {| log := log w ++ [LNoMatch img_filename 0 (Fin x)];
                      disk := disk w |}).
Proof.
  assert (H1 : pow2 (-1000) <= 5 <= pow2 1000)
    by (split; vm_compute; discriminate).
  assert (H2 : forall s, In s ex_subs -> (0 <= start_ordinal s)%Z).
  { intros s [<-|[]]. vm_compute. discriminate. }
  split; [exact H1|]. split; [exact H2|].
  exact (frame_zero_is_unmatched 5 ex_subs H1 H2).
Defined.

(** ** The theorems on the folder of the examples *)

Lemma matched_groups_sound_witness :
  ex_listdir "/flight" = Ok ["DJI_0001_000006.jpg"; "notes.txt"; "DJI_0001.SRT"]%string /\
  snd (find_groups ex_listdir "/flight") = Ok (Some ex_groups) /\
  fst (find_groups ex_listdir "/flight")
    = LSearching "/flight" :: LFound (List.length ex_groups)
        :: map (fun g => LGroup (prefix g) (List.length (images g)) (srt_file g))
             ex_groups /\
  ex_groups <> [] /\ NoDup (map prefix ex_groups) /\
  forall g, In g ex_groups ->
    In (srt_file g) ["DJI_0001_000006.jpg"; "notes.txt"; "DJI_0001.SRT"]%string /\
    dji_file ".srt" (srt_file g) = true /\
    prefix g = without_extension (srt_file g) /\
    images g <> [] /\
    (forall f n, In (f, n) (images g) ->
       In f ["DJI_0001_000006.jpg"; "notes.txt"; "DJI_0001.SRT"]%string /\
       image_of f (prefix g) n) /\
    StronglySorted (fun a b : image => (snd a <= snd b)%Z) (images g).
Proof.
  assert (H : snd (find_groups ex_listdir "/flight") = Ok (Some ex_groups))
    by (vm_compute; reflexivity).
  split; [reflexivity|]. split; [exact H|].
  exact (matched_groups_sound ex_listdir "/flight" _ ex_groups eq_refl H).
Defined.

Lemma matched_groups_complete_witness :
  ex_listdir "/flight" = Ok ["DJI_0001_000006.jpg"; "notes.txt"; "DJI_0001.SRT"]%string /\
  (forall x, In x ["DJI_0001_000006.jpg"; "notes.txt"; "DJI_0001.SRT"]%string ->
             (String.length x <= int_max_str_digits)%nat) /\
  In "DJI_0001.SRT"%string ["DJI_0001_000006.jpg"; "notes.txt"; "DJI_0001.SRT"]%string /\
  dji_file ".srt" "DJI_0001.SRT" = true /\
  In "DJI_0001_000006.jpg"%string
     ["DJI_0001_000006.jpg"; "notes.txt"; "DJI_0001.SRT"]%string /\
  image_of "DJI_0001_000006.jpg" (without_extension "DJI_0001.SRT") 6 /\
  exists groups g,
    snd (find_groups ex_listdir "/flight") = Ok (Some groups) /\
    In g groups /\ prefix g = without_extension "DJI_0001.SRT" /\
    In ("DJI_0001_000006.jpg"%string, 6%Z) (images g).
Proof.
  assert (H1 : forall x, In x ["DJI_0001_000006.jpg"; "notes.txt"; "DJI_0001.SRT"]%string ->
                         (String.length x <= int_max_str_digits)%nat).
  { intros x [<-|[<-|[<-|[]]]]; vm_compute; lia. }
  assert (H2 : In "DJI_0001.SRT"%string
                 ["DJI_0001_000006.jpg"; "notes.txt"; "DJI_0001.SRT"]%string)
    by (right; right; left; reflexivity).
  assert (H3 : dji_file ".srt" "DJI_0001.SRT" = true) by reflexivity.
  assert (H4 : In "DJI_0001_000006.jpg"%string
                 ["DJI_0001_000006.jpg"; "notes.txt"; "DJI_0001.SRT"]%string)
    by (left; reflexivity).
  assert (H5 : image_of "DJI_0001_000006.jpg" (without_extension "DJI_0001.SRT") 6).
  { split; [reflexivity|]. split; vm_compute; reflexivity. }
  split; [reflexivity|]. split; [exact H1|]. split; [exact H2|]. split; [exact H3|].
  split; [exact H4|]. split; [exact H5|].
  exact (matched_groups_complete ex_listdir "/flight" _ _ _ 6%Z eq_refl H1 H2 H3 H4 H5).
Defined.

Lemma listing_order_irrelevant_witness :
  ex_listdir "/flight" = Ok ["DJI_0001_000006.jpg"; "notes.txt"; "DJI_0001.SRT"]%string /\
  ex_listdir_other "/flight"
    = Ok ["DJI_0001.SRT"; "DJI_0001_000006.jpg"; "notes.txt"]%string /\
  Permutation ["DJI_0001_000006.jpg"; "notes.txt"; "DJI_0001.SRT"]%string
              ["DJI_0001.SRT"; "DJI_0001_000006.jpg"; "notes.txt"]%string /\
  find_groups ex_listdir_other "/flight" = find_groups ex_listdir "/flight" /\
  forall video_fps_answer extraction_fps_answer w,
    main ex_listdir_other "/flight" unit ex_load ex_dump ex_insert ex_open
      video_fps_answer extraction_fps_answer w
    = main ex_listdir "/flight" unit ex_load ex_dump ex_insert ex_open
        video_fps_answer extraction_fps_answer w.
Proof.
  assert (H : Permutation ["DJI_0001_000006.jpg"; "notes.txt"; "DJI_0001.SRT"]%string
                          ["DJI_0001.SRT"; "DJI_0001_000006.jpg"; "notes.txt"]%string).
  { apply Permutation_sym. apply (Permutation_cons_app [_; _] []). reflexivity. }
  split; [reflexivity|]. split; [reflexivity|]. split; [exact H|].
  exact (listing_order_irrelevant ex_listdir "/flight" unit ex_load ex_dump ex_insert
           ex_open ex_listdir_other _ _ eq_refl eq_refl H).
Defined.

Lemma early_returns_witness :
  ex_listdir_no_srt "/flight" = Ok ["DJI_0001_000006.jpg"; "notes.txt"]%string /\
  (forall x, In x ["DJI_0001_000006.jpg"; "notes.txt"]%string ->
             (String.length x <= int_max_str_digits)%nat) /\
  ((forall s, In s ["DJI_0001_000006.jpg"; "notes.txt"]%string ->
              dji_file ".srt" s = false) ->
   main ex_listdir_no_srt "/flight" unit ex_load ex_dump ex_insert ex_open
     EmptyString EmptyString ex_world
     = ([LSearching "/flight"; LNoSrtFiles], (Ok tt, ex_world))) /\
  ((exists s, In s ["DJI_0001_000006.jpg"; "notes.txt"]%string /\
              dji_file ".srt" s = true) ->
   (forall f p n, In f ["DJI_0001_000006.jpg"; "notes.txt"]%string -> ~ image_of f p n) ->
   main ex_listdir_no_srt "/flight" unit ex_load ex_dump ex_insert ex_open
     EmptyString EmptyString ex_world
     = ([LSearching "/flight"; LNoImageFiles], (Ok tt, ex_world))) /\
  ((exists s, In s ["DJI_0001_000006.jpg"; "notes.txt"]%string /\
              dji_file ".srt" s = true) ->
   (exists f p n, In f ["DJI_0001_000006.jpg"; "notes.txt"]%string /\ image_of f p n) ->
   (forall s f n, In s ["DJI_0001_000006.jpg"; "notes.txt"]%string ->
                  dji_file ".srt" s = true ->
                  In f ["DJI_0001_000006.jpg"; "notes.txt"]%string ->
                  ~ image_of f (without_extension s) n) ->
   exists srt_prefixes image_prefixes,
     main ex_listdir_no_srt "/flight" unit ex_load ex_dump ex_insert ex_open
       EmptyString EmptyString ex_world
       = ([LSearching "/flight"; LNoMatchingSrt;
           LSrtPrefixes srt_prefixes; LImagePrefixes image_prefixes], (Ok tt, ex_world)) /\
     (forall p, In p srt_prefixes <->
                exists s, In s ["DJI_0001_000006.jpg"; "notes.txt"]%string /\
                          dji_file ".srt" s = true /\ p = without_extension s) /\
     (forall p, In p image_prefixes <->
                exists f n, In f ["DJI_0001_000006.jpg"; "notes.txt"]%string /\
                            image_of f p n)).
Proof.
  assert (H1 : forall x, In x ["DJI_0001_000006.jpg"; "notes.txt"]%string ->
                         (String.length x <= int_max_str_digits)%nat).
  { intros x [<-|[<-|[]]]; vm_compute; lia. }
  split; [reflexivity|]. split; [exact H1|].
  exact (early_returns ex_listdir_no_srt "/flight" unit ex_load ex_dump ex_insert
           ex_open _ EmptyString EmptyString ex_world eq_refl H1).
Defined.

Lemma run_writes_only_images_witness :
  (forall exif_bytes file_path d p,
     p <> file_path -> snd (ex_insert exif_bytes file_path d) p = d p) /\
  ex_listdir "/flight" = Ok ["DJI_0001_000006.jpg"; "notes.txt"; "DJI_0001.SRT"]%string /\
  (forall f, In f ["DJI_0001_000006.jpg"; "notes.txt"; "DJI_0001.SRT"]%string ->
             dji_file ".jpg" f = true ->
             "/flight/notes.txt"%string <> path_join "/flight" f) /\
  disk (snd (snd (main ex_listdir "/flight" unit ex_load ex_dump ex_insert ex_open
                    EmptyString EmptyString ex_world))) "/flight/notes.txt"
    = disk ex_world "/flight/notes.txt".
Proof.
  assert (H1 : forall exif_bytes file_path d p,
             p <> file_path -> snd (ex_insert exif_bytes file_path d) p = d p).
  { intros exif_bytes file_path d p Hp. unfold ex_insert.
    destruct (d file_path); [|reflexivity]. cbn [snd].
    destruct (String.eqb p file_path) eqn:E; [|reflexivity].
    apply String.eqb_eq in E. contradiction. }
  assert (H2 : forall f, In f ["DJI_0001_000006.jpg"; "notes.txt"; "DJI_0001.SRT"]%string ->
                         dji_file ".jpg" f = true ->
                         "/flight/notes.txt"%string <> path_join "/flight" f).
  { intros f [<-|[<-|[<-|[]]]]; vm_compute; discriminate. }
  split; [exact H1|]. split; [reflexivity|]. split; [exact H2|].
  exact (run_writes_only_images ex_listdir "/flight" unit ex_load ex_dump ex_insert ex_open
           _ EmptyString EmptyString ex_world "/flight/notes.txt" H1 eq_refl H2).
Defined.

(** ** Two subtitle files for one prefix *)

Local Open Scope Z_scope.

Lemma In_dict_set_neq {V : Type} (d : list (string * V)) k v k0 v0 :
  NoDup (map fst d) -> In (k0, v0) (dict_set d k v) ->
  (k0 = k /\ v0 = v) \/ (k0 <> k /\ In (k0, v0) d).
Proof.
  induction d as [|[k' v'] d IH]; cbn; intros Hn H.
  - destruct H as [[= <- <-]|[]]. auto.
  - inversion Hn as [|? ? Hk Hd]; subst. destruct (String.eqb k' k) eqn:E.
    + apply String.eqb_eq in E. subst k'. destruct H as [[= <- <-]|H]; [auto|].
      right. split; [|auto]. intros ->. apply Hk. apply (in_map fst) in H. exact H.
    + apply String.eqb_neq in E. destruct H as [[= <- <-]|H]; [auto|].
      destruct (IH Hd H) as [?|[? ?]]; auto.
Qed.

Lemma string_leb_refl s : String.leb s s = true.
Proof. destruct (String.leb_total s s); assumption. Qed.

Lemma scan_file_last (seen : string -> Prop) f sf ig sf' ig' :
  NoDup (map fst sf) -> (forall s, seen s -> String.leb s f = true) ->
  scan_last seen sf -> scan_file f (sf, ig) = Ok (sf', ig') ->
  scan_last (fun x => x = f \/ seen x) sf'.
Proof.
  intros Hn Hle Hlast. unfold scan_file.
  assert (Hskip : dji_file ".srt" f = false -> scan_last (fun x => x = f \/ seen x) sf).
  { intros Hs p f0 Hin s [->|Hseen] Hsrt Hp; [congruence|].
    exact (Hlast p f0 Hin s Hseen Hsrt Hp). }
  destruct (dji_file ".srt" f) eqn:Esrt.
  - intros [= <- <-]. intros p f0 Hin s Hseen Hsrt Hp.
    apply In_dict_set_neq in Hin; [|exact Hn].
    destruct Hin as [[-> ->]|[Hne Hin]].
    + destruct Hseen as [->|Hseen]; [apply string_leb_refl|exact (Hle s Hseen)].
    + destruct Hseen as [->|Hseen]; [congruence|].
      exact (Hlast p f0 Hin s Hseen Hsrt Hp).
  - destruct (dji_file ".jpg" f); [|intros [= <- <-]; auto].
    destruct (extract_video_prefix f) as [p|]; [|intros [= <- <-]; auto].
    destruct (String.eqb p EmptyString); [intros [= <- <-]; auto|].
    destruct (extract_frame_number f) as [[n|]|e]; cbn [bind];
      [intros [= <- <-]; auto|intros [= <- <-]; auto|discriminate].
Qed.

Lemma scan_files_last names : forall (seen : string -> Prop) found found',
  StronglySorted (fun a b => String.leb a b = true) names ->
  (forall s x, seen s -> In x names -> String.leb s x = true) ->
  scan_inv seen found -> scan_last seen (fst found) ->
  scan_files names found = Ok found' ->
  scan_last (fun x => In x names \/ seen x) (fst found').
Proof.
  induction names as [|f names IH]; intros seen found found' Hs Hle Hinv Hlast;
    cbn [scan_files].
  - intros [= <-]. intros p f0 Hin s [[]|Hseen]. exact (Hlast p f0 Hin s Hseen).
  - destruct (scan_file f found) as [found1|e] eqn:E1; cbn [bind]; [|discriminate].
    intros H. inversion Hs as [|? ? Hs' Hf]; subst. rewrite Forall_forall in Hf.
    pose proof (scan_file_inv seen f found found1 Hinv E1) as Hinv1.
    assert (Hlast1 : scan_last (fun x => x = f \/ seen x) (fst found1)).
    { destruct found as [sf ig], found1 as [sf1 ig1]. cbn [fst] in *.
      apply (scan_file_last seen f sf ig sf1 ig1); try assumption.
      - destruct Hinv as (_ & _ & _ & _ & Hn & _). exact Hn.
      - intros s Hseen. apply (Hle s f Hseen). left. reflexivity. }
    assert (Hle1 : forall s x, (s = f \/ seen s) -> In x names -> String.leb s x = true).
    { intros s x [->|Hseen] Hx; [exact (Hf x Hx)|].
      apply (Hle s x Hseen). right. exact Hx. }
    pose proof (IH _ _ _ Hs' Hle1 Hinv1 Hlast1 H) as R.
    intros p f0 Hin s Hseen. apply (R p f0 Hin s). cbn in Hseen. intuition congruence.
Qed.

Lemma scan_listing_last listing sf ig :
  scan_files (py_sorted String.leb listing) ([], []) = Ok (sf, ig) ->
  scan_last (fun x => In x listing) sf.
Proof.
  intros H.
  assert (Hs : StronglySorted (fun a b => String.leb a b = true)
                 (py_sorted String.leb listing)).
  { apply py_sorted_sorted; [apply String.leb_total|apply string_leb_trans]. }
  pose proof (scan_files_last _ (fun _ => False) _ _ Hs
                ltac:(intros s x []) scan_inv_start ltac:(intros p f []) H) as R.
  cbn [fst] in R. intros p f Hin s Hseen. apply (R p f Hin s). left.
  apply py_sorted_In. exact Hseen.
Qed.

(** X13. When several subtitle files of the folder have the same
    prefix (DJI_0001.SRT and DJI_0001.srt), the group uses the one that
    comes last in the order of the names. *)
Theorem last_subtitle_file_wins (os_listdir : string -> result (list string))
    (current_folder : string) (listing : list string) (groups : list group)
    (g : group) (s : string) :
  os_listdir current_folder = Ok listing ->
  snd (find_groups os_listdir current_folder) = Ok (Some groups) ->
  In g groups ->
  In s listing -> dji_file ".srt" s = true -> without_extension s = prefix g ->
  String.leb s (srt_file g) = true.
Proof.
  intros Hl Hg Hin Hs Hsrt Hp.
  destruct (scan_files (py_sorted String.leb listing) ([], [])) as [[sf ig]|e] eqn:Es.
  2: { unfold find_groups in Hg. rewrite Hl in Hg. cbn [bind] in Hg. rewrite Es in Hg.
       discriminate. }
  pose proof (scan_listing_last _ _ _ Es) as Hlast.
  destruct (find_groups_cases os_listdir current_folder _ _ _ Hl Es)
    as [(_ & E)|[(_ & _ & E)|[(_ & _ & _ & E)|(_ & _ & Hm & E)]]];
    rewrite E in Hg; try discriminate.
  cbn [snd] in Hg. injection Hg as <-.
  apply in_map_iff in Hin as ([k g'] & <- & Hin). cbn [snd] in *.
  apply match_groups_In in Hin as [[]|(f & imgs & Hf & _ & ->)]. cbn in *.
  exact (Hlast k f Hf s Hs Hsrt Hp).
Qed.

Lemma last_subtitle_file_wins_witness :
  ex_listdir_two_srt "/flight"
    = Ok ["DJI_0001.srt"; "DJI_0001_000006.jpg"; "DJI_0001.SRT"]%string /\
  snd (find_groups ex_listdir_two_srt "/flight") = Ok (Some [ex_group_two_srt]) /\
  In ex_group_two_srt [ex_group_two_srt] /\
  In "DJI_0001.SRT"%string ["DJI_0001.srt"; "DJI_0001_000006.jpg"; "DJI_0001.SRT"]%string /\
  dji_file ".srt" "DJI_0001.SRT" = true /\
  without_extension "DJI_0001.SRT" = prefix ex_group_two_srt /\
  String.leb "DJI_0001.SRT" (srt_file ex_group_two_srt) = true.
Proof.
  assert (H1 : snd (find_groups ex_listdir_two_srt "/flight")
               = Ok (Some [ex_group_two_srt])) by (vm_compute; reflexivity).
  assert (H2 : In ex_group_two_srt [ex_group_two_srt]) by (left; reflexivity).
  assert (H3 : In "DJI_0001.SRT"%string
                 ["DJI_0001.srt"; "DJI_0001_000006.jpg"; "DJI_0001.SRT"]%string)
    by (right; right; left; reflexivity).
  split; [reflexivity|]. split; [exact H1|]. split; [exact H2|]. split; [exact H3|].
  split; [reflexivity|]. split; [reflexivity|].
  exact (last_subtitle_file_wins ex_listdir_two_srt "/flight" _ [ex_group_two_srt]
           ex_group_two_srt "DJI_0001.SRT" eq_refl H1 H2 H3 eq_refl eq_refl).
Defined.

(** ** The order of the timestamps *)

Local Open Scope Q_scope.

Lemma rne_mono a b : a <= b -> (rne a <= rne b)%Z.
Proof.
  intros H. pose proof (Qfloor_resp_le _ _ H) as Hf.
  pose proof (Qfloor_le a) as A1. pose proof (Qlt_floor a) as A2.
  pose proof (Qfloor_le b) as B1. pose proof (Qlt_floor b) as B2.
  destruct (Z_le_lt_eq_dec _ _ Hf) as [Hlt|Heq].
  - assert (R1 : (rne a <= Qfloor a + 1)%Z) by (apply rne_le; lra).
    assert (R2 : (Qfloor b <= rne b)%Z) by (apply rne_ge; lra).
    lia.
  - unfold rne. rewrite <- Heq.
    destruct (Qcompare_spec (a - inject_Z (Qfloor a)) (1 # 2)) as [Ea|Ea|Ea];
      destruct (Qcompare_spec (b - inject_Z (Qfloor a)) (1 # 2)) as [Eb|Eb|Eb];
      try lra; try lia; destruct (Z.even (Qfloor a)); lia.
Qed.

Lemma ilog2_mono q q' : 0 < q -> q <= q' -> (ilog2 q <= ilog2 q')%Z.
Proof.
  intros H0 H.
  assert (Hq : ~ q == 0) by lra. assert (Hq' : ~ q' == 0) by lra.
  destruct (ilog2_spec q Hq) as [L1 _]. destruct (ilog2_spec q' Hq') as [_ L2].
  rewrite Qabs_pos in L1, L2 by lra.
  destruct (Z_le_gt_dec (ilog2 q) (ilog2 q')) as [C|C]; [exact C|].
  assert (C' : (ilog2 q' + 1 <= ilog2 q)%Z) by lia.
  pose proof (pow2_le _ _ C'). lra.
Qed.

(** The rounding of a positive number below [2^1023] is finite. *)
Lemma b64_round_pos q :
  0 < q -> q < pow2 1023 ->
  exists v, b64_round q = Fin v /\
            v == inject_Z (rne (q / pow2 (b64_exp q))) * pow2 (b64_exp q) /\
            (0 <= rne (q / pow2 (b64_exp q)))%Z.
Proof.
  intros H0 H1. assert (Hq : ~ q == 0) by lra.
  pose proof (pow2_pos (b64_exp q)) as Pe.
  assert (HN0 : (0 <= rne (q / pow2 (b64_exp q)))%Z).
  { apply rne_ge. change (inject_Z 0) with 0. apply Qle_shift_div_l; [exact Pe|]. lra. }
  destruct (b64_round_unfold q Hq) as [[Hbig _]|[_ Hfin]].
  - exfalso. pose proof (b64_mant_bound q Hq) as HN.
    assert (Ha : Qabs q < pow2 1023) by (rewrite Qabs_pos; lra).
    pose proof (b64_exp_le q 1023 Hq Ha) as He.
    assert (He' : (b64_exp q <= 970)%Z) by lia.
    pose proof (pow2_le _ _ He') as P1.
    rewrite Z.abs_eq in HN by exact HN0. rewrite Zle_Qle in HN, HN0.
    change (inject_Z 0) with 0 in HN0.
    rewrite Qabs_pos in Hbig by (apply Qmult_le_0_compat; lra).
    assert (P2 : inject_Z (2 ^ 53) * pow2 970 < pow2 1024).
    { rewrite <- (pow2_Z 53) by lia. rewrite <- pow2_add. apply pow2_lt. lia. }
    set (N := inject_Z (rne (q / pow2 (b64_exp q)))) in *.
    set (E := pow2 (b64_exp q)) in *. set (M := inject_Z (2 ^ 53)) in *.
    assert (N * E <= M * pow2 970) by nra. lra.
  - eexists. split; [exact Hfin|]. split; [apply Qred_correct|exact HN0].
Qed.

(** Rounding keeps the order. *)
Lemma b64_round_mono q q' :
  0 <= q -> q <= q' -> q' < pow2 1023 ->
  exists v v', b64_round q = Fin v /\ b64_round q' = Fin v' /\ 0 <= v /\ v <= v'.
Proof.
  intros H0 H H1.
  destruct (Qlt_le_dec 0 q') as [Hq'|Hq'].
  2: { assert (E : q == 0) by lra. assert (E' : q' == 0) by lra.
       exists 0, 0. rewrite (b64_round_0 q E), (b64_round_0 q' E').
       repeat split; lra. }
  destruct (b64_round_pos q' Hq' H1) as (v' & Hv' & Ev' & HN').
  pose proof (pow2_pos (b64_exp q')) as Pe'.
  assert (Hv'0 : 0 <= v').
  { rewrite Ev'. apply Qmult_le_0_compat; [|lra].
    rewrite Zle_Qle in HN'. exact HN'. }
  destruct (Qlt_le_dec 0 q) as [Hq|Hq].
  2: { assert (E : q == 0) by lra. exists 0, v'. rewrite (b64_round_0 q E).
       repeat split; try assumption; lra. }
  destruct (b64_round_pos q Hq ltac:(lra)) as (v & Hv & Ev & HN).
  pose proof (pow2_pos (b64_exp q)) as Pe.
  exists v, v'. split; [exact Hv|]. split; [exact Hv'|].
  assert (Hv0 : 0 <= v).
  { rewrite Ev. apply Qmult_le_0_compat; [|lra]. rewrite Zle_Qle in HN. exact HN. }
  split; [exact Hv0|]. rewrite Ev, Ev'.
  pose proof (ilog2_mono q q' Hq H) as Hl.
  assert (Hq0 : ~ q == 0) by lra. assert (Hq'0 : ~ q' == 0) by lra.
  destruct (ilog2_spec q Hq0) as [_ L2]. destruct (ilog2_spec q' Hq'0) as [L1' _].
  rewrite Qabs_pos in L2, L1' by lra.
  destruct (Z.eq_dec (b64_exp q) (b64_exp q')) as [Ee|Ee].
  - rewrite <- Ee. apply Qmult_le_compat_r; [|lra]. rewrite <- Zle_Qle.
    apply rne_mono. unfold Qdiv. apply Qmult_le_compat_r; [exact H|].
    apply Qlt_le_weak, Qinv_lt_0_compat. exact Pe.
  - set (L := ilog2 q') in *. set (e := b64_exp q) in *. set (e' := b64_exp q') in *.
    assert (He' : e' = (L - 52)%Z /\ (ilog2 q + 1 <= L)%Z /\ (e < e')%Z).
    { unfold e, e', b64_exp in *. fold L in Ee |- *. lia. }
    destruct He' as (He' & Hk & Hlt).
    apply (Qle_trans _ (pow2 L)).
    + assert (B : q / pow2 e <= inject_Z (2 ^ (L - e))).
      { rewrite <- pow2_Z by lia. rewrite pow2_sub. unfold Qdiv.
        apply Qmult_le_compat_r; [|apply Qlt_le_weak, Qinv_lt_0_compat; exact Pe].
        pose proof (pow2_le _ _ Hk). lra. }
      apply rne_le in B. rewrite Zle_Qle in B. rewrite <- pow2_Z in B by lia.
      assert (E : pow2 L == pow2 (L - e) * pow2 e).
      { rewrite <- pow2_add. replace (L - e + e)%Z with L by lia. reflexivity. }
      rewrite E. apply Qmult_le_compat_r; [exact B|lra].
    + assert (B : inject_Z (2 ^ 52) <= q' / pow2 e').
      { rewrite <- pow2_Z by lia. replace 52%Z with (L - e')%Z by lia.
        rewrite pow2_sub. unfold Qdiv.
        apply Qmult_le_compat_r; [exact L1'|].
        apply Qlt_le_weak, Qinv_lt_0_compat. exact Pe'. }
      apply rne_ge in B. rewrite Zle_Qle in B. rewrite <- pow2_Z in B by lia.
      assert (E : pow2 L == pow2 52 * pow2 e').
      { rewrite <- pow2_add. replace (52 + e')%Z with L by lia. reflexivity. }
      rewrite E. apply Qmult_le_compat_r; [exact B|lra].
Qed.

(** A power of two up to [2^1022] is a float, so that rounding stays
    below it. *)
Lemma b64_round_below q k :
  0 <= q -> q <= pow2 k -> (-1074 <= k <= 1022)%Z ->
  exists v, b64_round q = Fin v /\ 0 <= v <= pow2 k.
Proof.
  intros H0 H1 Hk. pose proof (pow2_pos k) as Pk.
  assert (Hlt : pow2 k < pow2 1023) by (apply pow2_lt; lia).
  destruct (b64_round_mono q (pow2 k) H0 H1 Hlt) as (v & v' & Hv & Hv' & V0 & V1).
  assert (Hb : is_b64 (pow2 k)).
  { exists 1%Z, k. repeat split; try lia.
    - change (inject_Z 1) with 1. ring.
    - rewrite Qabs_pos by lra. apply pow2_lt. lia. }
  rewrite (b64_round_exact _ Hb) in Hv'. injection Hv' as <-.
  exists v. split; [exact Hv|]. split; [exact V0|]. rewrite Qred_correct in V1. exact V1.
Qed.

Lemma timestamp_value q n :
  0 < q -> (1 <= n <= 2 ^ 53)%Z ->
  frame_time_seconds n (Fin q) = Ok (b64_round (inject_Z (n - 1) * / q)) /\
  forall x, fmul_int (Fin x) 1000 = Ok (b64_round (x * 1000)).
Proof.
  intros Hq Hn. split.
  - unfold frame_time_seconds, int_div_float.
    rewrite (float_of_int_exact (n - 1)) by lia. cbn [bind fdiv].
    destruct (Qeq_bool q 0) eqn:E0; [apply Qeq_bool_iff in E0; lra|]. reflexivity.
  - intros x. unfold fmul_int.
    rewrite (float_of_int_exact 1000) by (vm_compute; reflexivity). reflexivity.
Qed.

(** X14. Timestamps follow the frame numbers: for an extraction rate of
    at least [2^-900] and frame numbers from 1 to [2^53], the timestamp
    of a frame is defined and not negative, and a frame with a larger
    number never gets a smaller timestamp. *)
Theorem timestamps_in_order (q : Q) (n m : Z) :
  pow2 (-900) <= q -> (1 <= n)%Z -> (n <= m)%Z -> (m <= 2 ^ 53)%Z ->
  exists tn tm,
    frame_timedelta_ms n (Fin q) = Ok (Fin tn) /\
    frame_timedelta_ms m (Fin q) = Ok (Fin tm) /\
    0 <= tn /\ tn <= tm.
Proof.
  intros Hlo Hn Hnm Hm.
  pose proof (pow2_pos (-900)) as PB. pose proof (pow2_pos 900) as PA.
  assert (Hq0 : 0 < q) by lra.
  assert (Hinv : pow2 900 * pow2 (-900) == 1) by (rewrite <- pow2_add; reflexivity).
  set (u := / q).
  assert (Hu0 : 0 < u) by (apply Qinv_lt_0_compat; exact Hq0).
  assert (Hu1 : u <= pow2 900) by (unfold u; apply Qle_shift_inv_r; [exact Hq0|nra]).
  destruct (timestamp_value q n Hq0 ltac:(lia)) as (Hxn & Hms).
  destruct (timestamp_value q m Hq0 ltac:(lia)) as (Hxm & _).
  fold u in Hxn, Hxm.
  assert (Hn0 : 0 <= inject_Z (n - 1))
    by (change 0 with (inject_Z 0); rewrite <- Zle_Qle; lia).
  assert (Hnm' : inject_Z (n - 1) <= inject_Z (m - 1)) by (rewrite <- Zle_Qle; lia).
  assert (Hm' : inject_Z (m - 1) <= pow2 53)
    by (rewrite (pow2_Z 53) by lia; rewrite <- Zle_Qle; lia).
  pose proof (pow2_pos 53) as P53.
  assert (E953 : pow2 953 == pow2 53 * pow2 900) by (rewrite <- pow2_add; reflexivity).
  assert (B1 : inject_Z (m - 1) * u <= pow2 953) by (rewrite E953; nra).
  assert (B0 : 0 <= inject_Z (n - 1) * u) by nra.
  assert (B01 : inject_Z (n - 1) * u <= inject_Z (m - 1) * u) by nra.
  assert (P953 : pow2 953 < pow2 1023) by (apply pow2_lt; lia).
  destruct (b64_round_mono _ _ B0 B01 ltac:(lra)) as (xn & xm & Exn & Exm & Xn0 & Xnm).
  assert (B0' : 0 <= inject_Z (m - 1) * u) by lra.
  destruct (b64_round_below _ 953 B0' B1 ltac:(lia)) as (xm' & Exm' & _ & Xm1).
  rewrite Exm in Exm'. injection Exm' as <-.
  assert (E963 : pow2 963 == 1024 * pow2 953).
  { change 1024 with (pow2 10). rewrite <- pow2_add. reflexivity. }
  assert (P963 : pow2 963 < pow2 1023) by (apply pow2_lt; lia).
  assert (C0 : 0 <= xn * 1000) by lra.
  assert (C1 : xn * 1000 <= xm * 1000) by lra.
  assert (C2 : xm * 1000 < pow2 1023) by lra.
  destruct (b64_round_mono (xn * 1000) (xm * 1000) C0 C1 C2)
    as (tn & tm & Etn & Etm & Tn0 & Tnm).
  exists tn, tm. unfold frame_timedelta_ms.
  rewrite Hxn, Hxm, Exn, Exm. cbn [bind]. rewrite !Hms, Etn, Etm. auto.
Qed.

Lemma timestamps_in_order_witness :
  pow2 (-900) <= 5 /\ (1 <= 1)%Z /\ (1 <= 6)%Z /\ (6 <= 2 ^ 53)%Z /\
  exists tn tm,
    frame_timedelta_ms 1 (Fin 5) = Ok (Fin tn) /\
    frame_timedelta_ms 6 (Fin 5) = Ok (Fin tm) /\
    0 <= tn /\ tn <= tm.
Proof.
  assert (H1 : pow2 (-900) <= 5) by (vm_compute; discriminate).
  assert (H2 : (6 <= 2 ^ 53)%Z) by (vm_compute; discriminate).
  split; [exact H1|]. split; [lia|]. split; [lia|]. split; [exact H2|].
  exact (timestamps_in_order 5 1 6 H1 ltac:(lia) ltac:(lia) H2).
Defined.

(** ** A frame that is geotagged *)

Section Tagging.

Variable ifd : Type.
Variable piexif_load : files -> string -> result (exif_dict ifd).
Variable piexif_dump : exif_dict ifd -> result string.
Variable piexif_insert : string -> string -> files -> result unit * files.
Variable current_folder : string.

Lemma set_gps_location_success file_path lat lon abs_alt rel_alt w exif gps exif_bytes d' :
  piexif_load (disk w) file_path = Ok exif ->
  encode_gps lat lon abs_alt = Ok gps ->
  piexif_dump (dict_set exif "GPS" (Built ifd gps)) = Ok exif_bytes ->
  piexif_insert exif_bytes file_path (disk w) = (Ok tt, d') ->
  set_gps_location ifd piexif_load piexif_dump piexif_insert
    file_path lat lon abs_alt rel_alt w
  = (Ok true, {| log := log w; disk := d' |}).
Proof.
  intros Hload Henc Hdump Hins. unfold encode_gps in Henc.
  unfold set_gps_location, try_except, bindM, lift, load, insert, ret.
  destruct (to_deg lat ["N"; "S"]) as [lat_deg|]; [|discriminate]. cbn [bind] in Henc.
  destruct (to_deg lon ["E"; "W"]) as [lon_deg|]; [|discriminate]. cbn [bind] in Henc.
  rewrite Hload.
  destruct (to_rational abs_alt 100) as [alt|]; [|discriminate]. cbn [bind] in Henc.
  rewrite Henc, Hdump. cbn [disk log]. rewrite Hins. reflexivity.
Qed.

(** X15. A frame is written with the sample of the first subtitle that
    contains its timestamp: when that subtitle parses, [process_image]
    prints the tagging line and calls [set_gps_location] on the image of
    the current folder with the latitude, longitude and absolute altitude
    parsed; when the EXIF data loads, the position encodes and the
    dump and the insertion succeed, the frame counts as geotagged and the
    file holds what [piexif.insert] made of the loaded groups with the GPS
    group replaced.  The relative altitude is printed only: it has no
    part in what is written. *)
Theorem frame_tagged_with_first_sample (video_fps extraction_fps : float)
    (subs : list sub) (img_filename : string) (frame_number : Z)
    (t : float) (s : sub) (lat lon abs_alt : float) (rel_alt : option float) :
  frame_timedelta_ms frame_number extraction_fps = Ok t ->
  find_sub t subs = Some s ->
  parse_dji_gps_data (text s) = Ok (Some (lat, lon, abs_alt, rel_alt)) ->
  let file_path := path_join current_folder img_filename in
  let tagging := LTagging img_filename frame_number lat lon abs_alt rel_alt in
  (forall w,
     process_image ifd piexif_load piexif_dump piexif_insert current_folder
       video_fps extraction_fps subs (img_filename, frame_number) w
     = set_gps_location ifd piexif_load piexif_dump piexif_insert
         file_path lat lon abs_alt rel_alt
         {| log := log w ++ [tagging]; disk := disk w |}) /\
  (forall w exif gps exif_bytes d',
     piexif_load (disk w) file_path = Ok exif ->
     encode_gps lat lon abs_alt = Ok gps ->
     piexif_dump (dict_set exif "GPS" (Built ifd gps)) = Ok exif_bytes ->
     piexif_insert exif_bytes file_path (disk w) = (Ok tt, d') ->
     process_image ifd piexif_load piexif_dump piexif_insert current_folder
       video_fps extraction_fps subs (img_filename, frame_number) w
     = (Ok true, {| log := log w ++ [tagging]; disk := d' |})) /\
  (forall other w,
     set_gps_location ifd piexif_load piexif_dump piexif_insert
       file_path lat lon abs_alt rel_alt w
     = set_gps_location ifd piexif_load piexif_dump piexif_insert
         file_path lat lon abs_alt other w).
Proof.
  intros Ht Hs Hp file_path tagging.
  assert (Hrun : forall w,
    process_image ifd piexif_load piexif_dump piexif_insert current_folder
      video_fps extraction_fps subs (img_filename, frame_number) w
    = set_gps_location ifd piexif_load piexif_dump piexif_insert
        file_path lat lon abs_alt rel_alt
        {| log := log w ++ [tagging]; disk := disk w |}).
  { intros w. unfold frame_timedelta_ms in Ht.
    destruct (frame_time_seconds frame_number extraction_fps) as [x|] eqn:Ex;
      [|discriminate]. cbn [bind] in Ht.
    unfold process_image, bindM at 1 2 3 4, lift, print.
    rewrite Ex, Ht, Hs, Hp. reflexivity. }
  split; [exact Hrun|]. split; [|reflexivity].
  intros w exif gps exif_bytes d' Hload Henc Hdump Hins. rewrite Hrun.
  apply (set_gps_location_success file_path lat lon abs_alt rel_alt
           {| log := log w ++ [tagging]; disk := disk w |} exif gps exif_bytes d');
    assumption.
Qed.

End Tagging.

Lemma frame_tagged_with_first_sample_witness :
  frame_timedelta_ms 6 (Fin 5) = Ok (Fin (inject_Z 1000)) /\
  find_sub (Fin (inject_Z 1000)) ex_subs
    = Some {| start_ordinal := 1000; end_ordinal := 1200;
              text := "[latitude: 40.123][longitude: -74.456][rel_alt: 10.0 abs_alt: 50.25]" |} /\
  parse_dji_gps_data "[latitude: 40.123][longitude: -74.456][rel_alt: 10.0 abs_alt: 50.25]"
    = Ok (Some (b64_round (40123 # 1000), b64_round (- (74456 # 1000)), Fin (201 # 4),
                Some (Fin 10))) /\
  (forall w,
     process_image unit ex_load ex_dump ex_insert "/flight" (Fin 30) (Fin 5) ex_subs
       ("DJI_0001_000006.jpg"%string, 6%Z) w
     = set_gps_location unit ex_load ex_dump ex_insert
         (path_join "/flight" "DJI_0001_000006.jpg")
         (b64_round (40123 # 1000)) (b64_round (- (74456 # 1000))) (Fin (201 # 4))
         (Some (Fin 10))
         {| log := log w ++ [LTagging "DJI_0001_000006.jpg" 6
                               (b64_round (40123 # 1000)) (b64_round (- (74456 # 1000)))
                               (Fin (201 # 4)) (Some (Fin 10))];
            disk := disk w |}) /\
  (forall w exif gps exif_bytes d',
     ex_load (disk w) (path_join "/flight" "DJI_0001_000006.jpg") = Ok exif ->
     encode_gps (b64_round (40123 # 1000)) (b64_round (- (74456 # 1000))) (Fin (201 # 4))
       = Ok gps ->
     ex_dump (dict_set exif "GPS" (Built unit gps)) = Ok exif_bytes ->
     ex_insert exif_bytes (path_join "/flight" "DJI_0001_000006.jpg") (disk w)
       = (Ok tt, d') ->
     process_image unit ex_load ex_dump ex_insert "/flight" (Fin 30) (Fin 5) ex_subs
       ("DJI_0001_000006.jpg"%string, 6%Z) w
     = (Ok true,
        {| log := log w ++ [LTagging "DJI_0001_000006.jpg" 6
                              (b64_round (40123 # 1000)) (b64_round (- (74456 # 1000)))
                              (Fin (201 # 4)) (Some (Fin 10))];
           disk := d' |})) /\
  (forall other w,
     set_gps_location unit ex_load ex_dump ex_insert
       (path_join "/flight" "DJI_0001_000006.jpg")
       (b64_round (40123 # 1000)) (b64_round (- (74456 # 1000))) (Fin (201 # 4))
       (Some (Fin 10)) w
     = set_gps_location unit ex_load ex_dump ex_insert
         (path_join "/flight" "DJI_0001_000006.jpg")
         (b64_round (40123 # 1000)) (b64_round (- (74456 # 1000))) (Fin (201 # 4))
         other w).
Proof.
  assert (H1 : frame_timedelta_ms 6 (Fin 5) = Ok (Fin (inject_Z 1000)))
    by (vm_compute; reflexivity).
  assert (H2 : find_sub (Fin (inject_Z 1000)) ex_subs
               = Some {| start_ordinal := 1000; end_ordinal := 1200;
                         text := "[latitude: 40.123][longitude: -74.456][rel_alt: 10.0 abs_alt: 50.25]" |})
    by (vm_compute; reflexivity).
  assert (H3 : parse_dji_gps_data
                 "[latitude: 40.123][longitude: -74.456][rel_alt: 10.0 abs_alt: 50.25]"
               = Ok (Some (b64_round (40123 # 1000), b64_round (- (74456 # 1000)),
                           Fin (201 # 4), Some (Fin 10))))
    by (vm_compute; reflexivity).
  split; [exact H1|]. split; [exact H2|]. split; [exact H3|].
  exact (frame_tagged_with_first_sample unit ex_load ex_dump ex_insert "/flight"
           (Fin 30) (Fin 5) ex_subs "DJI_0001_000006.jpg" 6 _ _ _ _ _ _ H1 H2 H3).
Defined.

(** ** How a run ends *)

Local Open Scope Z_scope.



Section RunEnds.

Variable os_listdir : string -> result (list string).
Variable current_folder : string.
Variable ifd : Type.
Variable piexif_load : files -> string -> result (exif_dict ifd).
Variable piexif_dump : exif_dict ifd -> result string.
Variable piexif_insert : string -> string -> files -> result unit * files.
Variable pysrt_open : string -> result (list sub).


End RunEnds.

